(** * Lip-sync pipeline of sdk-vrm: a shallow embedding and its properties

    The development follows the three source files of the lip-sync core
    and the part of the manager that drives them:

    - [AudioAnalyzer.ts]  (module [AudioAnalyzer]): spectral features;
    - [MorphMapper.ts]    (module [MorphMapper]):   channel resolution;
    - [LipSyncEngine.ts]  (module [LipSyncEngine]): smoothing and lifecycle;
    - [VRMViewer.tsx]     (module [VRMManager]):    events and the
      [lipSync] interface.

    Asynchronous functions.  An [async] function is given twice: as the
    run that nothing interrupts, and split at its [await]s, with a state
    ([LipSyncEngine.System]) that holds the calls in flight so that other
    calls can run in between.

    Numbers.  JavaScript numbers are IEEE doubles; here they are real
    numbers ([R]), so every arithmetic statement below is about the exact
    value of the expression the source computes, and rounding, NaN and the
    infinities are outside the model.  Comparisons on [R] are the decision
    procedures [Rlt_dec], [Rgt_dec] of the Standard Library.

    Objects.  A JavaScript array written by index is a finite map from
    indices to numbers ([gmap nat R]): writing past the end creates the
    entry, reading an absent index gives nothing.  A [Map] or an object
    whose entries are enumerated is an association list in insertion
    order.  Meshes are shared, mutable objects: they live in one store
    (the scene of the avatar) and sinks refer to them by position.

    External collaborators.  Calls into the avatar library
    ([expressionManager.setValue], [expressionManager.update],
    [vrm.update]) are recorded, in order, in a log carried by the avatar;
    what the library does with them is not modelled. *)

From Stdlib Require Import Reals Lra Lia Ascii.
From stdpp Require Import gmap strings list.

#[local] Open Scope R_scope.

(* ===================================================================== *)
(** * Vowel weight vectors *)
(* ===================================================================== *)

Module Vowel.

(** The object literal [{ aa, e, ih, oh, ou }] that every component
    exchanges. *)
Record Weights := mk { aa : R; e : R; ih : R; oh : R; ou : R }.

Definition zero : Weights := mk 0 0 0 0 0.

(** [Object.entries(w)]: keys in the order of the literal. *)
Definition entries (w : Weights) : list (string * R) :=
  [("aa"%string, aa w); ("e"%string, e w); ("ih"%string, ih w);
   ("oh"%string, oh w); ("ou"%string, ou w)].

(** [Object.values(w)]. *)
Definition values (w : Weights) : list R := map snd (entries w).

(** [w[key]] *)
Definition get (key : string) (w : Weights) : option R :=
  if String.eqb key "aa" then Some (aa w)
  else if String.eqb key "e" then Some (e w)
  else if String.eqb key "ih" then Some (ih w)
  else if String.eqb key "oh" then Some (oh w)
  else if String.eqb key "ou" then Some (ou w)
  else None.

(** [w[key] = x], for [key] one of the five names of the literal (the only
    keys the source ever assigns; any other key leaves the five fields as
    they are). *)
Definition set (key : string) (x : R) (w : Weights) : Weights :=
  if String.eqb key "aa" then mk x (e w) (ih w) (oh w) (ou w)
  else if String.eqb key "e" then mk (aa w) x (ih w) (oh w) (ou w)
  else if String.eqb key "ih" then mk (aa w) (e w) x (oh w) (ou w)
  else if String.eqb key "oh" then mk (aa w) (e w) (ih w) x (ou w)
  else if String.eqb key "ou" then mk (aa w) (e w) (ih w) (oh w) x
  else w.

(** [Object.values(w).reduce((sum, x) => sum + x, 0)] *)
Definition total (w : Weights) : R := fold_left Rplus (values w) 0.

(** [Math.max(...Object.values(w))] on the five values. *)
Definition maximum (w : Weights) : R :=
  Rmax (aa w) (Rmax (e w) (Rmax (ih w) (Rmax (oh w) (ou w)))).

(** Every entry is at least zero. *)
Definition nonneg (w : Weights) : Prop :=
  0 <= aa w /\ 0 <= e w /\ 0 <= ih w /\ 0 <= oh w /\ 0 <= ou w.

(** Every entry lies between 0 and 1. *)
Definition inUnit (w : Weights) : Prop :=
  0 <= aa w <= 1 /\ 0 <= e w <= 1 /\ 0 <= ih w <= 1 /\ 0 <= oh w <= 1 /\ 0 <= ou w <= 1.

End Vowel.

(* ===================================================================== *)
(** * AudioAnalyzer.ts *)
(* ===================================================================== *)

Module AudioAnalyzer.

Record AudioAnalyzerConfig := mkConfig {
  fftSize : nat;
  smoothingTimeConstant : R;
  minDecibels : R;
  maxDecibels : R
}.

(** The constructor's defaults: [?? 256], [?? 0.8], [?? -90], [?? -10]. *)
Definition makeConfig (fft : option nat) (smoothing minDb maxDb : option R)
  : AudioAnalyzerConfig :=
  mkConfig (default 256%nat fft) (default (8/10) smoothing)
           (default (-90) minDb) (default (-10) maxDb).

Inductive ContextState := running | suspended | closed.

Record AudioContext := mkContext { state : ContextState; sampleRate : R }.

(** The analyser node created by [initialize]; [frequencyBinCount] is half
    the FFT size. *)
Record AnalyserNode := mkAnalyser { node_fftSize : nat }.

Definition frequencyBinCount (n : AnalyserNode) : nat := Nat.div2 (node_fftSize n).

(** A media-element source remembers the element it was created from
    (elements are compared by identity, here a number). *)
Record SourceNode := mkSource { mediaElement : nat }.

Record t := mkAnalyzer {
  audioContext : option AudioContext;
  analyser : option AnalyserNode;
  source : option SourceNode;
  dataArray : option (list R);
  config : AudioAnalyzerConfig
}.

(** [new AudioAnalyzer(config)]: every node is [null]. *)
Definition create (cfg : AudioAnalyzerConfig) : t :=
  mkAnalyzer None None None None cfg.

(** What the host answers during [initialize]: the context a fresh
    [new AudioContext()] would be, whether [resume()] is granted, and
    whether [createMediaElementSource] accepts the element. *)
Record HostAudio := mkHost {
  freshContext : AudioContext;
  resumeGranted : bool;
  sourceGranted : bool
}.

(** [initialize(audioElement)], run from its first line to its last with
    nothing in between, on a host that constructs the context and accepts
    the four settings of the analyser node.  The result is [inr] when a
    host call throws (the promise of [initialize] rejects; what was
    assigned before the throw stays in the object), [inl] otherwise.  The
    function split at its [await], with every call that can throw, is
    [initializeBegin], [initializeResume] and [initializeFinish] below. *)
Definition initialize (host : HostAudio) (audioElement : nat) (a : t) : t + t :=
  let ctx := match audioContext a with Some c => c | None => freshContext host end in
  match state ctx, resumeGranted host with
  | suspended, false =>
    inr (mkAnalyzer (Some ctx) (analyser a) (source a) (dataArray a) (config a))
  | _, _ =>
    let ctx' := match state ctx with
                | suspended => mkContext running (sampleRate ctx)
                | _ => ctx end in
    let node := mkAnalyser (fftSize (config a)) in
    let reuse := match source a with
                 | Some s => Nat.eqb (mediaElement s) audioElement
                 | None => false end in
    if reuse || sourceGranted host then
      inl (mkAnalyzer (Some ctx') (Some node) (Some (mkSource audioElement))
                      (Some (replicate (frequencyBinCount node) 0)) (config a))
    else
      inr (mkAnalyzer (Some ctx') (Some node) (source a) (dataArray a) (config a))
  end.

(** ** [initialize], call by call

    The body of the async function runs up to [await
    this.audioContext.resume()] (reached only for a suspended context) and
    continues when the host settles that promise; in between, other calls
    may change the object.  Every call that can throw is an exit:
    [new AudioContext()], [resume()], [this.audioContext.createAnalyser()]
    when the context has been set to [null] in the meantime, the four
    assignments to the analyser node, and [createMediaElementSource]. *)

(** What the host answers during one run: the answers of [HostAudio],
    whether [new AudioContext()] returns, and how many of the assignments
    to [fftSize], [smoothingTimeConstant], [minDecibels] and
    [maxDecibels] the node accepts before one throws (4 or more: none
    throws). *)
Record HostAnswers := mkAnswers {
  audio : HostAudio;
  contextGranted : bool;
  settingsApplied : nat
}.

(** How far a run of [initialize] has got: waiting at its [await], or
    settled (resolved or rejected). *)
Inductive Progress :=
| Suspended
| Settled (resolved : bool).

Definition withContext (c : AudioContext) (a : t) : t :=
  mkAnalyzer (Some c) (analyser a) (source a) (dataArray a) (config a).

(** Lines 48 to 69, from [createAnalyser()] to the allocation of the
    buffer; the boolean is whether the end was reached.  A new analyser
    node has [fftSize] 2048 until the first assignment is accepted. *)
Definition initializeFinish (host : HostAnswers) (audioElement : nat) (a : t) : t * bool :=
  match audioContext a with
  | None => (a, false)
  | Some ctx =>
    let node := mkAnalyser (if (1 <=? settingsApplied host)%nat
                            then fftSize (config a) else 2048%nat) in
    if (settingsApplied host <? 4)%nat then
      (mkAnalyzer (Some ctx) (Some node) (source a) (dataArray a) (config a), false)
    else
      let reuse := match source a with
                   | Some s => Nat.eqb (mediaElement s) audioElement
                   | None => false end in
      if reuse || sourceGranted (audio host) then
        (mkAnalyzer (Some ctx) (Some node) (Some (mkSource audioElement))
                    (Some (replicate (frequencyBinCount node) 0)) (config a), true)
      else
        (mkAnalyzer (Some ctx) (Some node) (source a) (dataArray a) (config a), false)
  end.

(** Lines 38 to 46 for a context that is there: the test of its state. *)
Definition initializeFrom (host : HostAnswers) (audioElement : nat) (ctx : AudioContext)
  (a : t) : t * Progress :=
  match state ctx with
  | suspended => (withContext ctx a, Suspended)
  | _ => let r := initializeFinish host audioElement (withContext ctx a) in
         (fst r, Settled (snd r))
  end.

(** [initialize] up to where it first waits or settles. *)
Definition initializeBegin (host : HostAnswers) (audioElement : nat) (a : t) : t * Progress :=
  match audioContext a with
  | Some ctx => initializeFrom host audioElement ctx a
  | None =>
    if contextGranted host then initializeFrom host audioElement (freshContext (audio host)) a
    else (a, Settled false)
  end.

(** The continuation of [initialize] when the awaited [resume()] has
    settled.  A granted [resume()] leaves the awaited context running;
    [sameContext] says whether [this.audioContext] still is that
    context. *)
Definition initializeResume (host : HostAnswers) (sameContext : bool) (audioElement : nat)
  (a : t) : t * bool :=
  if resumeGranted (audio host) then
    initializeFinish host audioElement
      (match audioContext a with
       | Some c => if sameContext then withContext (mkContext running (sampleRate c)) a else a
       | None => a
       end)
  else (a, false).

(** A run of [initialize] that nothing interrupts: the continuation
    follows the [await] at once. *)
Definition initializeRun (host : HostAnswers) (audioElement : nat) (a : t) : t * bool :=
  match initializeBegin host audioElement a with
  | (a1, Suspended) => initializeResume host true audioElement a1
  | (a1, Settled resolved) => (a1, resolved)
  end.

(** The loop of [analyze] that accumulates [sum] and [count]. *)
Fixpoint volumeLoop (cfg : AudioAnalyzerConfig) (data : list R) (sum : R) (count : nat)
  : R * nat :=
  match data with
  | [] => (sum, count)
  | x :: rest =>
    if Rgt_dec x (minDecibels cfg) then
      let normalized := (x - minDecibels cfg) / (maxDecibels cfg - minDecibels cfg) in
      volumeLoop cfg rest (sum + normalized * normalized) (S count)
    else volumeLoop cfg rest sum count
  end.

(** [const volume = count > 0 ? Math.sqrt(sum / count) : 0] *)
Definition volumeOf (cfg : AudioAnalyzerConfig) (data : list R) : R :=
  let '(sum, count) := volumeLoop cfg data 0 0%nat in
  if (0 <? count)%nat then sqrt (sum / INR count) else 0.

(** The loop that finds the dominant bin; [maxValue] starts at [-Infinity],
    here [None]. *)
Fixpoint maxLoop (data : list R) (i : nat) (maxValue : option R) (maxIndex : nat) : nat :=
  match data with
  | [] => maxIndex
  | x :: rest =>
    match maxValue with
    | None => maxLoop rest (S i) (Some x) i
    | Some m => if Rgt_dec x m then maxLoop rest (S i) (Some x) i
                else maxLoop rest (S i) maxValue maxIndex
    end
  end.

Definition dominantFrequencyOf (rate : R) (data : list R) : R :=
  let nyquist := rate / 2 in
  (INR (maxLoop data 0%nat None 0%nat) / INR (length data)) * nyquist.

(** The table [vowelFormants], in the order of the literal. *)
Definition vowelFormants : list (string * (R * R)) :=
  [("aa"%string, (700, 1220)); ("e"%string, (530, 1840));
   ("ih"%string, (390, 1990)); ("oh"%string, (570, 840));
   ("ou"%string, (370, 950))].

(** [1 / (1 + (f1Diff + f2Diff) / 1000)] *)
Definition proximity (dominantFreq : R) (formants : R * R) : R :=
  let f1Diff := Rabs (dominantFreq - fst formants) in
  let f2Diff := Rabs (dominantFreq - snd formants) in
  1 / (1 + (f1Diff + f2Diff) / 1000).

(** The first loop of [calculateVowelWeights]: one proximity per vowel,
    written into the zero vector. *)
Definition rawWeights (dominantFreq : R) : Vowel.Weights :=
  fold_left (fun w kv => Vowel.set (fst kv) (proximity dominantFreq (snd kv)) w)
            vowelFormants Vowel.zero.

(** The normalisation block: divide by the total when it is positive. *)
Definition normalize (w : Vowel.Weights) : Vowel.Weights :=
  let total := Vowel.total w in
  if Rgt_dec total 0 then
    fold_left (fun acc k =>
                 match Vowel.get k acc with
                 | Some x => Vowel.set k (x / total) acc
                 | None => acc end)
              (map fst (Vowel.entries w)) w
  else w.

Definition calculateVowelWeights (dominantFreq : R) : Vowel.Weights :=
  normalize (rawWeights dominantFreq).

Record AudioAnalysisResult := mkResult {
  volume : R;
  frequencies : list R;
  dominantFrequency : R;
  vowelWeights : Vowel.Weights
}.

(** [getFloatFrequencyData(array)]: the host copies the current spectrum
    into the array, as many bins as the array holds. *)
Definition getFloatFrequencyData (spectrum array : list R) : list R :=
  take (length array) spectrum ++ drop (length spectrum) array.

(** [analyze()], given the spectrum the host provides on this call.
    [None] is the source's [null].  The sample rate is read from the
    context, which is there whenever the analyser node is ([initialize]
    sets both and [dispose] clears the node with the context); the 0 of
    the other case is never used.  Bins at [-Infinity] (digital silence)
    have no counterpart in [R]: any value at or below the floor behaves as
    they do in both loops. *)
Definition analyze (spectrum : list R) (a : t) : option (t * AudioAnalysisResult) :=
  match analyser a, dataArray a with
  | Some _, Some arr =>
    let data := getFloatFrequencyData spectrum arr in
    let rate := match audioContext a with Some c => sampleRate c | None => 0 end in
    let freq := dominantFrequencyOf rate data in
    Some (mkAnalyzer (audioContext a) (analyser a) (source a) (Some data) (config a),
          mkResult (volumeOf (config a) data) data freq (calculateVowelWeights freq))
  | _, _ => None
  end.

(** [dispose()] *)
Definition dispose (a : t) : t :=
  let ctx := match audioContext a with
             | Some c => match state c with closed => Some c | _ => None end
             | None => None
             end in
  mkAnalyzer ctx None None None (config a).

Definition isInitialized (a : t) : bool :=
  match audioContext a, analyser a, source a with
  | Some _, Some _, Some _ => true
  | _, _, _ => false
  end.

(** The volume as the specification words it: the root mean square of the
    normalised magnitudes of the bins above the floor, and 0 when there is
    no such bin.  It is compared with [volumeOf] below. *)
Definition aboveFloor (cfg : AudioAnalyzerConfig) (x : R) : bool :=
  if Rgt_dec x (minDecibels cfg) then true else false.

Definition normalized (cfg : AudioAnalyzerConfig) (x : R) : R :=
  (x - minDecibels cfg) / (maxDecibels cfg - minDecibels cfg).

Definition sumOfSquares (xs : list R) : R := fold_right (fun x acc => x * x + acc) 0 xs.

Definition rmsAboveFloor (cfg : AudioAnalyzerConfig) (data : list R) : R :=
  let kept := map (normalized cfg) (List.filter (aboveFloor cfg) data) in
  match kept with
  | [] => 0
  | _ => sqrt (sumOfSquares kept / INR (length kept))
  end.

End AudioAnalyzer.

(* ===================================================================== *)
(** * Strings as the mapper uses them *)
(* ===================================================================== *)

Module Js.

(** [c.toLowerCase()] on one character; only the letters A to Z change
    (names of blend channels are ASCII in the model). *)
Definition lowerAscii (c : ascii) : ascii :=
  let n := nat_of_ascii c in
  if ((65 <=? n) && (n <=? 90))%nat then ascii_of_nat (n + 32) else c.

Fixpoint toLowerCase (s : string) : string :=
  match s with
  | EmptyString => EmptyString
  | String c rest => String (lowerAscii c) (toLowerCase rest)
  end.

(** [s.includes(pattern)]: [pattern] occurs in [s] at some position. *)
Fixpoint includes (pattern s : string) : bool :=
  String.prefix pattern s ||
  match s with
  | EmptyString => false
  | String _ rest => includes pattern rest
  end.

End Js.

(* ===================================================================== *)
(** * MorphMapper.ts *)
(* ===================================================================== *)

Module MorphMapper.

(** A scene object.  Only skinned meshes carry blend channels:
    [morphTargetDictionary] maps a channel name to an index and
    [morphTargetInfluences] is the array the renderer reads. *)
Record Mesh := mkMesh {
  isSkinnedMesh : bool;
  morphTargetDictionary : option (list (string * nat));
  morphTargetInfluences : option (gmap nat R)
}.

(** Calls made to the avatar library, in the order they were made. *)
Inductive Call :=
| ExprSetValue (name : string) (weight : R)
| ExprUpdate
| VrmUpdate (delta : R).

(** The avatar: the objects of its scene in traversal order, whether it
    has an [expressionManager], and the log of library calls. *)
Record VRM := mkVRM {
  scene : list Mesh;
  expressionManager : bool;
  calls : list Call
}.

Record MorphMapperConfig := mkConfig {
  useVRCMorphs : bool;
  useExpressions : bool
}.

(** [{ mesh, index }]: a mesh of the scene, by position, and an index into
    its influences. *)
Definition Target : Type := nat * nat.

Record t := mkMapper {
  vrm : option VRM;
  config : MorphMapperConfig;
  morphTargetMap : list (string * list Target)
}.

Definition vrcVowelMorphs : list string :=
  ["vrc.v_aa"; "vrc.v_e"; "vrc.v_ih"; "vrc.v_oh"; "vrc.v_ou"]%string.

Definition alternativeMorphPatterns : list string :=
  ["mouth"; "lip"; "jaw"; "teeth"; "tongue";
   "aa"; "ah"; "ch"; "dd"; "e"; "ee"; "ff"; "ih"; "kk";
   "nn"; "oh"; "ou"; "pp"; "rr"; "sil"; "ss"; "th"]%string.

(** [new MorphMapper(config)], with the defaults [?? true].  The field
    [customMappings] is stored by the constructor and read nowhere; it is
    left out. *)
Definition create (vrc expressions : option bool) : t :=
  mkMapper None (mkConfig (default true vrc) (default true expressions)) [].

(** Lookup in an association list: [object[key]], [map.get(key)]. *)
Fixpoint assoc {A} (key : string) (l : list (string * A)) : option A :=
  match l with
  | [] => None
  | (k, v) :: rest => if String.eqb k key then Some v else assoc key rest
  end.

(** [map.get(name).push(target)], after [map.set(name, [])] when the name
    is new: the entry keeps its place, a new name goes last. *)
Fixpoint pushTarget (name : string) (target : Target) (m : list (string * list Target))
  : list (string * list Target) :=
  match m with
  | [] => [(name, [target])]
  | (k, ts) :: rest =>
    if String.eqb k name then (k, ts ++ [target]) :: rest
    else (k, ts) :: pushTarget name target rest
  end.

(** The body of the [traverse] callback for the object at position [i]. *)
Definition visit (i : nat) (object : Mesh) (m : list (string * list Target))
  : list (string * list Target) :=
  if isSkinnedMesh object then
    match morphTargetDictionary object, morphTargetInfluences object with
    | Some dict, Some _ =>
      fold_left (fun acc entry => pushTarget (fst entry) (i, snd entry) acc) dict m
    | _, _ => m
    end
  else m.

Fixpoint traverse (i : nat) (objects : list Mesh) (m : list (string * list Target))
  : list (string * list Target) :=
  match objects with
  | [] => m
  | object :: rest => traverse (S i) rest (visit i object m)
  end.

(** [buildMorphTargetMap()] for a bound avatar. *)
Definition buildMorphTargetMap (v : VRM) : list (string * list Target) :=
  traverse 0 (scene v) [].

Definition setVRM (v : VRM) (mm : t) : t :=
  mkMapper (Some v) (config mm) (buildMorphTargetMap v).

(** [mesh.morphTargetInfluences[index] = weight], guarded by
    [if (mesh.morphTargetInfluences)]. *)
Definition writeInfluence (index : nat) (weight : R) (mesh : Mesh) : Mesh :=
  match morphTargetInfluences mesh with
  | Some infl => mkMesh (isSkinnedMesh mesh) (morphTargetDictionary mesh)
                        (Some (<[index := weight]> infl))
  | None => mesh
  end.

Definition hasInfluences (mesh : Mesh) : bool :=
  match morphTargetInfluences mesh with Some _ => true | None => false end.

(** [vrcVowelMorphs.some(m => mesh.morphTargetDictionary?.[m] !== undefined)] *)
Definition hasVrcMorphs (mesh : Mesh) : bool :=
  match morphTargetDictionary mesh with
  | Some dict => existsb (fun m => match assoc m dict with Some _ => true | None => false end)
                         vrcVowelMorphs
  | None => false
  end.

(** The current value of a sink. *)
Definition readSink (sc : list Mesh) (target : Target) : option R :=
  match sc !! fst target with
  | Some mesh => match morphTargetInfluences mesh with
                 | Some infl => infl !! snd target
                 | None => None end
  | None => None
  end.

Definition vrcMapping : list (string * string) :=
  [("aa", "vrc.v_aa"); ("e", "vrc.v_e"); ("ih", "vrc.v_ih");
   ("oh", "vrc.v_oh"); ("ou", "vrc.v_ou")]%string.

(** A target is a sink of the scene when its mesh is there and has an
    influences array. *)
Definition isSink (sc : list Mesh) (target : Target) : Prop :=
  exists mesh, sc !! fst target = Some mesh /\ hasInfluences mesh = true.

(** One guarded write through a target: the mesh is replaced, in the
    scene, by the mesh with the influence written. *)
Definition writeSink (value : R) (target : Target) (sc : list Mesh) : list Mesh :=
  match sc !! fst target with
  | Some mesh => <[fst target := writeInfluence (snd target) value mesh]> sc
  | None => sc
  end.

(** The innermost loop of [applyVRCMorphs]: the targets of one channel. *)
Fixpoint applyVRCTargets (weight : R) (targets : list Target) (sc : list Mesh) (applied : bool)
  : list Mesh * bool :=
  match targets with
  | [] => (sc, applied)
  | target :: rest =>
    match sc !! fst target with
    | Some mesh =>
      if hasVrcMorphs mesh && hasInfluences mesh then
        applyVRCTargets weight rest (writeSink weight target sc) true
      else applyVRCTargets weight rest sc applied
    | None => applyVRCTargets weight rest sc applied
    end
  end.

(** The outer loop of [applyVRCMorphs], over the entries of the weights. *)
Fixpoint applyVRCEntries (map : list (string * list Target)) (ws : list (string * R))
  (sc : list Mesh) (applied : bool) : list Mesh * bool :=
  match ws with
  | [] => (sc, applied)
  | (vowel, weight) :: rest =>
    match assoc vowel vrcMapping with
    | Some morphName =>
      match assoc morphName map with
      | Some targets =>
        let '(sc', applied') := applyVRCTargets weight targets sc applied in
        applyVRCEntries map rest sc' applied'
      | None => applyVRCEntries map rest sc applied
      end
    | None => applyVRCEntries map rest sc applied
    end
  end.

Definition applyVRCMorphs (map : list (string * list Target)) (vowelWeights : Vowel.Weights)
  (sc : list Mesh) : list Mesh * bool :=
  applyVRCEntries map (Vowel.entries vowelWeights) sc false.

Definition expressionMapping : list (string * string) :=
  [("aa", "aa"); ("e", "e"); ("ih", "i"); ("oh", "o"); ("ou", "u")]%string.

(** [applyExpressions]: the calls it makes, in order. *)
Definition applyExpressions (vowelWeights : Vowel.Weights) (v : VRM) : VRM :=
  if expressionManager v then
    let sets := omap (fun kv => match assoc (fst kv) expressionMapping with
                                | Some name => Some (ExprSetValue name (snd kv))
                                | None => None end)
                     (Vowel.entries vowelWeights) in
    mkVRM (scene v) (expressionManager v) (calls v ++ sets ++ [ExprUpdate])
  else v.

(** The targets of one channel, written with the same value (each write
    guarded by [if (mesh.morphTargetInfluences)]). *)
Fixpoint writeTargets (value : R) (targets : list Target) (sc : list Mesh) : list Mesh :=
  match targets with
  | [] => sc
  | target :: rest => writeTargets value rest (writeSink value target sc)
  end.

(** The body of the inner loop of [applyAlternativeMorphs] for one entry
    of the map. *)
Definition fallbackEntry (value : R) (pattern : string) (sc : list Mesh)
  (entry : string * list Target) : list Mesh :=
  if Js.includes pattern (Js.toLowerCase (fst entry))
  then writeTargets value (snd entry) sc
  else sc.

(** [applyAlternativeMorphs]: for every pattern, every channel of the map
    whose lower-cased name includes it. *)
Definition applyAlternativeMorphs (map : list (string * list Target))
  (vowelWeights : Vowel.Weights) (sc : list Mesh) : list Mesh :=
  let mouthValue := Vowel.maximum vowelWeights in
  fold_left (fun sc1 pattern => fold_left (fallbackEntry (mouthValue * (5/10)) pattern) map sc1)
            alternativeMorphPatterns sc.

(** [vrm.update(0.016)] *)
Definition update (v : VRM) : VRM :=
  mkVRM (scene v) (expressionManager v) (calls v ++ [VrmUpdate (16/1000)]).

Definition withScene (sc : list Mesh) (v : VRM) : VRM :=
  mkVRM sc (expressionManager v) (calls v).

Definition withVRM (v : VRM) (mm : t) : t :=
  mkMapper (Some v) (config mm) (morphTargetMap mm).

(** [applyVowelWeights(vowelWeights)] *)
Definition applyVowelWeights (vowelWeights : Vowel.Weights) (mm : t) : t :=
  match vrm mm with
  | None => mm
  | Some v =>
    let '(sc1, vrcMorphsApplied) :=
      if useVRCMorphs (config mm)
      then applyVRCMorphs (morphTargetMap mm) vowelWeights (scene v)
      else (scene v, false) in
    let v1 := withScene sc1 v in
    if vrcMorphsApplied then withVRM (update v1) mm
    else if useExpressions (config mm) && expressionManager v1 then
      withVRM (update (applyExpressions vowelWeights v1)) mm
    else
      withVRM (update (withScene
        (applyAlternativeMorphs (morphTargetMap mm) vowelWeights (scene v1)) v1)) mm
  end.

(** The first loop of [reset]: every target of every VRC channel name. *)
Definition resetMorphs (map : list (string * list Target)) (sc : list Mesh) : list Mesh :=
  fold_left (fun sc1 morphName =>
               match assoc morphName map with
               | Some targets => writeTargets 0 targets sc1
               | None => sc1 end)
            vrcVowelMorphs sc.

Definition resetExpressions (v : VRM) : VRM :=
  if expressionManager v then
    mkVRM (scene v) (expressionManager v)
          (calls v ++ map (fun expr => ExprSetValue expr 0) ["aa"; "e"; "i"; "o"; "u"]%string
                   ++ [ExprUpdate])
  else v.

(** [reset()] *)
Definition reset (mm : t) : t :=
  match vrm mm with
  | None => mm
  | Some v =>
    withVRM (update (resetExpressions (withScene (resetMorphs (morphTargetMap mm) (scene v)) v))) mm
  end.

Definition getAvailableMorphs (mm : t) : list string := map fst (morphTargetMap mm).

Definition hasVRCMorphs (mm : t) : bool :=
  existsb (fun morph => match assoc morph (morphTargetMap mm) with
                        | Some _ => true | None => false end) vrcVowelMorphs.

(** One round of the first loop of [reset]. *)
Definition resetStep (map : list (string * list Target)) (sc : list Mesh) (morphName : string)
  : list Mesh :=
  match assoc morphName map with
  | Some targets => writeTargets 0 targets sc
  | None => sc
  end.

(** A target that belongs to no channel with a VRC name is not written. *)
Definition outsideVrc (map : list (string * list Target)) (target : Target) : Prop :=
  forall morphName targets,
    In morphName vrcVowelMorphs -> assoc morphName map = Some targets -> ~ In target targets.

(** The calls [reset] makes to the avatar library. *)
Definition resetCalls (v : VRM) : list Call :=
  (if expressionManager v
   then [ExprSetValue "aa" 0; ExprSetValue "e" 0; ExprSetValue "i" 0;
         ExprSetValue "o" 0; ExprSetValue "u" 0; ExprUpdate]
   else []) ++ [VrmUpdate (16 / 1000)].

(** The mapper without the log of library calls: what it holds itself. *)
Definition forgetCalls (mm : t) : t :=
  mkMapper (option_map (fun v => mkVRM (scene v) (expressionManager v) []) (vrm mm))
           (config mm) (morphTargetMap mm).

(** Every sink of every channel with a VRC name reads 0. *)
Definition vrcZeroed (mm : t) : Prop :=
  forall v morphName targets target,
    vrm mm = Some v ->
    In morphName vrcVowelMorphs ->
    assoc morphName (morphTargetMap mm) = Some targets ->
    In target targets -> isSink (scene v) target ->
    readSink (scene v) target = Some 0.

(** [setMorphTarget(morphName, value)]: the value is clamped to [0, 1]
    and written to every sink of the channel; the result is whether the
    channel exists.  The meshes are those of the bound avatar; a map with
    entries and no avatar does not arise ([setVRM] sets both), and that
    case writes nothing here. *)
Definition setMorphTarget (morphName : string) (value : R) (mm : t) : t * bool :=
  match assoc morphName (morphTargetMap mm) with
  | None => (mm, false)
  | Some targets =>
    match vrm mm with
    | Some v =>
      (withVRM (update (withScene
                  (writeTargets (Rmax 0 (Rmin 1 value)) targets (scene v)) v)) mm, true)
    | None => (mm, true)
    end
  end.

(** The guard of the direct strategy holds for a target: its mesh is in
    the scene, has one of the VRC names in its dictionary and has an
    influences array. *)
Definition vrcWritable (sc : list Mesh) (target : Target) : Prop :=
  exists mesh, sc !! fst target = Some mesh /\
               hasVrcMorphs mesh = true /\ hasInfluences mesh = true.

(** [map.get(name) ?? []]: the targets recorded under a name. *)
Definition targetsOf (name : string) (m : list (string * list Target)) : list Target :=
  default [] (assoc name m).

(** The test [hasVrcMorphs && mesh.morphTargetInfluences] of the direct
    strategy, on the mesh of a target as the scene has it now. *)
Definition vrcGuard (sc : list Mesh) (target : Target) : bool :=
  match sc !! fst target with
  | Some mesh => hasVrcMorphs mesh && hasInfluences mesh
  | None => false
  end.

(** A dictionary entry that [buildMorphTargetMap] records: the object at
    [fst target] is a skinned mesh with a dictionary that maps [name] to
    [snd target], and with an influences array. *)
Definition recorded (sc : list Mesh) (name : string) (target : Target) : Prop :=
  exists object dict,
    sc !! fst target = Some object /\ isSkinnedMesh object = true /\
    morphTargetDictionary object = Some dict /\ hasInfluences object = true /\
    In (name, snd target) dict.

End MorphMapper.

(* ===================================================================== *)
(** * LipSyncEngine.ts *)
(* ===================================================================== *)

Module LipSyncEngine.

(** [Required<LipSyncConfig>].  The field [customMorphMappings] is handed
    to the mapper, which never reads it; it is left out. *)
Record LipSyncConfig := mkConfig {
  sensitivity : R;
  smoothing : R;
  minVolume : R;
  updateInterval : R
}.

(** [Partial<LipSyncConfig>]: the fields a caller provides. *)
Record PartialConfig := mkPartial {
  p_sensitivity : option R;
  p_smoothing : option R;
  p_minVolume : option R;
  p_updateInterval : option R
}.

(** [Object.assign(this.config, config)] *)
Definition assign (c : LipSyncConfig) (p : PartialConfig) : LipSyncConfig :=
  mkConfig (default (sensitivity c) (p_sensitivity p))
           (default (smoothing c) (p_smoothing p))
           (default (minVolume c) (p_minVolume p))
           (default (updateInterval c) (p_updateInterval p)).

(** The engine.  Its field [vrm] is only ever tested against [null]; the
    avatar object itself is the one the mapper holds, so here the field is
    the flag [vrmSet]. *)
Record t := mkEngine {
  vrmSet : bool;
  audioAnalyzer : AudioAnalyzer.t;
  morphMapper : MorphMapper.t;
  config : LipSyncConfig;
  animationFrame : nat;
  isRunning : bool;
  smoothedWeights : Vowel.Weights;
  lastUpdateTime : R
}.

Definition newAnalyzer (c : LipSyncConfig) : AudioAnalyzer.t :=
  AudioAnalyzer.create
    (AudioAnalyzer.makeConfig (Some 256%nat) (Some (smoothing c)) None None).

(** [new LipSyncEngine(config)], defaults 0.7, 0.8, 10 and 16. *)
Definition create (p : PartialConfig) : t :=
  let c := mkConfig (default (7/10) (p_sensitivity p)) (default (8/10) (p_smoothing p))
                    (default 10 (p_minVolume p)) (default 16 (p_updateInterval p)) in
  mkEngine false (newAnalyzer c) (MorphMapper.create (Some true) (Some true)) c
           0%nat false Vowel.zero 0.

Definition setVRM (v : MorphMapper.VRM) (en : t) : t :=
  mkEngine true (audioAnalyzer en) (MorphMapper.setVRM v (morphMapper en)) (config en)
           (animationFrame en) (isRunning en) (smoothedWeights en) (lastUpdateTime en).

(** [stop()] *)
Definition stop (en : t) : t :=
  mkEngine (vrmSet en)
           (AudioAnalyzer.dispose (audioAnalyzer en))
           (MorphMapper.reset (morphMapper en))
           (config en)
           0%nat
           false
           (fold_left (fun w key => Vowel.set key 0 w)
                      (map fst (Vowel.entries (smoothedWeights en))) (smoothedWeights en))
           (lastUpdateTime en).

(** [start + (end - start) * factor] *)
Definition lerp (start end_ factor : R) : R := start + (end_ - start) * factor.

(** The update of one entry of the smoothed vector towards [target]. *)
Definition smoothEntry (c : LipSyncConfig) (key : string) (target : R) (w : Vowel.Weights)
  : Vowel.Weights :=
  match Vowel.get key w with
  | Some current => Vowel.set key (lerp current target (1 - smoothing c)) w
  | None => w
  end.

(** The loop of [smoothToSilence] over the keys of the smoothed vector. *)
Definition decayWeights (c : LipSyncConfig) (w : Vowel.Weights) : Vowel.Weights :=
  fold_left (fun acc key => smoothEntry c key 0 acc) (map fst (Vowel.entries w)) w.

(** The loop of [processLipSync] over the entries of the frame's weights. *)
Definition blendWeights (c : LipSyncConfig) (scaledVolume : R)
  (vowelWeights w : Vowel.Weights) : Vowel.Weights :=
  fold_left (fun acc kv => smoothEntry c (fst kv) (snd kv * scaledVolume) acc)
            (Vowel.entries vowelWeights) w.

Definition withWeights (w : Vowel.Weights) (en : t) : t :=
  mkEngine (vrmSet en) (audioAnalyzer en)
           (MorphMapper.applyVowelWeights w (morphMapper en)) (config en)
           (animationFrame en) (isRunning en) w (lastUpdateTime en).

Definition smoothToSilence (en : t) : t :=
  withWeights (decayWeights (config en) (smoothedWeights en)) en.

Definition processLipSync (analysis : AudioAnalyzer.AudioAnalysisResult) (en : t) : t :=
  let volume := AudioAnalyzer.volume analysis in
  if Rlt_dec (volume * 100) (minVolume (config en)) then smoothToSilence en
  else
    let scaledVolume := Rmin 1 (volume * sensitivity (config en)) in
    withWeights (blendWeights (config en) scaledVolume
                   (AudioAnalyzer.vowelWeights analysis) (smoothedWeights en)) en.

(** What the host provides when a frame callback runs: the handle that
    [requestAnimationFrame] returns, [performance.now()], and the
    spectrum the analyser node would report. *)
Record Frame := mkFrame { handle : nat; now : R; spectrum : list R }.

(** [animate()] *)
Definition animate (f : Frame) (en : t) : t :=
  if negb (isRunning en) then en
  else
    if Rlt_dec (now f - lastUpdateTime en) (updateInterval (config en)) then
      mkEngine (vrmSet en) (audioAnalyzer en) (morphMapper en) (config en)
               (handle f) (isRunning en) (smoothedWeights en) (lastUpdateTime en)
    else
      match AudioAnalyzer.analyze (spectrum f) (audioAnalyzer en) with
      | None =>
        mkEngine (vrmSet en) (audioAnalyzer en) (morphMapper en) (config en)
                 (handle f) (isRunning en) (smoothedWeights en) (now f)
      | Some (analyzer', analysis) =>
        processLipSync analysis
          (mkEngine (vrmSet en) analyzer' (morphMapper en) (config en)
                    (handle f) (isRunning en) (smoothedWeights en) (now f))
      end.

(** [start(audioElement)], run from its first line to its last with
    nothing in between (see [initialize]); the boolean is the value the
    promise resolves to.  The first [animate()] runs inside [start], on
    frame [f].  The function split at its [await] is [startCall] and
    [startResume] below, and [act] lets other calls run in between. *)
Definition start (host : AudioAnalyzer.HostAudio) (audioElement : nat) (f : Frame) (en : t)
  : t * bool :=
  if negb (vrmSet en) then (en, false)
  else
    let en1 := if isRunning en then stop en else en in
    match AudioAnalyzer.initialize host audioElement (audioAnalyzer en1) with
    | inl analyzer' =>
      (animate f (mkEngine (vrmSet en1) analyzer' (morphMapper en1) (config en1)
                           (animationFrame en1) true (smoothedWeights en1)
                           (lastUpdateTime en1)), true)
    | inr analyzer' =>
      (mkEngine (vrmSet en1) analyzer' (morphMapper en1) (config en1)
                (animationFrame en1) (isRunning en1) (smoothedWeights en1)
                (lastUpdateTime en1), false)
    end.

(** [updateConfig(config)] *)
Definition updateConfig (p : PartialConfig) (en : t) : t :=
  let c := assign (config en) p in
  mkEngine (vrmSet en)
           (match p_smoothing p with
            | Some _ => newAnalyzer c
            | None => audioAnalyzer en end)
           (morphMapper en) c (animationFrame en) (isRunning en)
           (smoothedWeights en) (lastUpdateTime en).

(** [testVowel(vowel, weight)].  The test [vowel in weights] holds for the
    five keys of the literal; a name that the object inherits (such as
    "constructor") also passes it in the source and adds a sixth entry,
    which the five-entry vector does not hold: such names are outside the
    model. *)
Definition testVowel (vowel : string) (weight : R) (en : t) : t :=
  if negb (vrmSet en) then en
  else
    let weights := Vowel.set vowel weight Vowel.zero in
    mkEngine (vrmSet en) (audioAnalyzer en)
             (MorphMapper.applyVowelWeights weights (morphMapper en)) (config en)
             (animationFrame en) (isRunning en) (smoothedWeights en) (lastUpdateTime en).

(** ** [runTestSequence] as a resumable computation

    The body of the async function runs from one [await] to the next
    without interruption; between two awaits the host may run any other
    callback.  A step is what runs between two awaits. *)
Inductive TestStep :=
| StepVowel (vowel : string) (weight : R)
| StepReset.

(** [i <= 10 ? i / 10 : (20 - i) / 10] *)
Definition rampWeight (i : nat) : R :=
  if (i <=? 10)%nat then INR i / 10 else (20 - INR i) / 10.

Definition vowelSteps (vowel : string) : list TestStep :=
  map (fun i => StepVowel vowel (rampWeight i)) (seq 0 21) ++ [StepReset].

Definition testSequenceSteps : list TestStep :=
  flat_map vowelSteps ["aa"; "e"; "ih"; "oh"; "ou"]%string.

Definition runStep (s : TestStep) (en : t) : t :=
  match s with
  | StepVowel vowel weight => testVowel vowel weight en
  | StepReset =>
    mkEngine (vrmSet en) (audioAnalyzer en) (MorphMapper.reset (morphMapper en)) (config en)
             (animationFrame en) (isRunning en) (smoothedWeights en) (lastUpdateTime en)
  end.

(** ** The host's event loop

    One engine, and the steps that a suspended [runTestSequence] still has
    to run.  Events are the calls and callbacks the host can deliver, one
    at a time: a frame callback, a call of a public method, or the timer
    that resumes the test sequence.  Here [start] is one event, the run
    that nothing interrupts ([System] and [act] below split it at its
    awaits), and one test sequence is followed at a time (invoking it
    again restarts the list of steps). *)
Record World := mkWorld { engine : t; pendingSteps : list TestStep }.

Inductive Event :=
| EvFrame (f : Frame)
| EvStart (host : AudioAnalyzer.HostAudio) (audioElement : nat) (f : Frame)
| EvStop
| EvUpdateConfig (p : PartialConfig)
| EvTestVowel (vowel : string) (weight : R)
| EvRunTestSequence
| EvTimer.

Definition resume (w : World) : World :=
  match pendingSteps w with
  | [] => w
  | s :: rest => mkWorld (runStep s (engine w)) rest
  end.

Definition dispatch (w : World) (ev : Event) : World :=
  match ev with
  | EvFrame f => mkWorld (animate f (engine w)) (pendingSteps w)
  | EvStart host el f => mkWorld (fst (start host el f (engine w))) (pendingSteps w)
  | EvStop => mkWorld (stop (engine w)) (pendingSteps w)
  | EvUpdateConfig p => mkWorld (updateConfig p (engine w)) (pendingSteps w)
  | EvTestVowel vowel weight => mkWorld (testVowel vowel weight (engine w)) (pendingSteps w)
  | EvRunTestSequence => resume (mkWorld (engine w) testSequenceSteps)
  | EvTimer => resume w
  end.

Definition run (w : World) (evs : list Event) : World := fold_left dispatch evs w.

(** A frame is below the threshold of [processLipSync]. *)
Definition silent (c : LipSyncConfig) (analysis : AudioAnalyzer.AudioAnalysisResult) : Prop :=
  AudioAnalyzer.volume analysis * 100 < minVolume c.

(** Consecutive processed ticks, one per frame of the list. *)
Definition processFrames (frames : list AudioAnalyzer.AudioAnalysisResult) (en : t) : t :=
  fold_left (fun en1 analysis => processLipSync analysis en1) frames en.

(** The same frame held for [n] processed ticks. *)
Definition holdFrame (analysis : AudioAnalyzer.AudioAnalysisResult) (n : nat) (en : t) : t :=
  processFrames (replicate n analysis) en.

(** The engine without the log of library calls. *)
Definition forgetCalls (en : t) : t :=
  mkEngine (vrmSet en) (audioAnalyzer en) (MorphMapper.forgetCalls (morphMapper en))
           (config en) (animationFrame en) (isRunning en) (smoothedWeights en)
           (lastUpdateTime en).

(** The log of library calls of the bound avatar, if any. *)
Definition callsOf (en : t) : list MorphMapper.Call :=
  match MorphMapper.vrm (morphMapper en) with
  | Some v => MorphMapper.calls v
  | None => []
  end.

(** The value of a sink of the bound avatar, if any. *)
Definition sinkOf (en : t) (target : MorphMapper.Target) : option R :=
  match MorphMapper.vrm (morphMapper en) with
  | Some v => MorphMapper.readSink (MorphMapper.scene v) target
  | None => None
  end.

Definition isStart (ev : Event) : bool :=
  match ev with EvStart _ _ _ => true | _ => false end.

(** ** Status *)

Module LipSyncStatus.
Record t := mk {
  isActive : bool;
  currentVolume : R;
  currentVowel : string;
  vowelWeights : Vowel.Weights
}.
End LipSyncStatus.

(** The reducer of [getStatus]:
    [(max, [vowel, weight]) => weight > max.weight ? { vowel, weight } : max]. *)
Definition dominantStep (max : string * R) (entry : string * R) : string * R :=
  if Rgt_dec (snd entry) (snd max) then entry else max.

(** [getStatus()] *)
Definition getStatus (en : t) : LipSyncStatus.t :=
  LipSyncStatus.mk
    (isRunning en)
    (Vowel.total (smoothedWeights en))
    (fst (fold_left dominantStep (Vowel.entries (smoothedWeights en)) ("sil"%string, 0)))
    (smoothedWeights en).

(** [isActive()] *)
Definition isActive (en : t) : bool := isRunning en.

(** [getAvailableMorphs()] *)
Definition getAvailableMorphs (en : t) : list string :=
  MorphMapper.getAvailableMorphs (morphMapper en).

(** A frame as the analyzer can produce it: a volume that is not
    negative and weights between 0 and 1. *)
Definition wellFormed (analysis : AudioAnalyzer.AudioAnalysisResult) : Prop :=
  0 <= AudioAnalyzer.volume analysis /\ Vowel.inUnit (AudioAnalyzer.vowelWeights analysis).

(** The steps of a test sequence that are still pending, run to the end
    with nothing in between. *)
Definition runSteps (steps : list TestStep) (en : t) : t :=
  fold_left (fun en1 s => runStep s en1) steps en.

(** ** [start], call by call

    [start] waits once, at [await this.audioAnalyzer.initialize(...)]:
    everything before runs with the call, everything after runs when
    [initialize] has settled, and other calls of the engine may run in
    between. *)

Definition withAnalyzer (a : AudioAnalyzer.t) (en : t) : t :=
  mkEngine (vrmSet en) a (morphMapper en) (config en) (animationFrame en) (isRunning en)
           (smoothedWeights en) (lastUpdateTime en).

(** Lines 68 to 80, up to the [await]: [None] when [start] returns
    [false] at once (no avatar), otherwise how far [initialize] has got. *)
Definition startCall (host : AudioAnalyzer.HostAnswers) (audioElement : nat) (en : t)
  : t * option AudioAnalyzer.Progress :=
  if negb (vrmSet en) then (en, None)
  else
    let en1 := if isRunning en then stop en else en in
    let r := AudioAnalyzer.initializeBegin host audioElement (audioAnalyzer en1) in
    (withAnalyzer (fst r) en1, Some (snd r)).

(** Lines 82 to 90, once [initialize] has settled: on success the flag
    is set and the first [animate()] runs, on frame [f]; the boolean is the
    value [start] resolves to. *)
Definition startResume (resolved : bool) (f : Frame) (en : t) : t * bool :=
  if resolved then
    (animate f (mkEngine (vrmSet en) (audioAnalyzer en) (morphMapper en) (config en)
                         (animationFrame en) true (smoothedWeights en) (lastUpdateTime en)),
     true)
  else (en, false).

(** A call of [start] that nothing interrupts. *)
Definition startRun (host : AudioAnalyzer.HostAnswers) (audioElement : nat) (f : Frame) (en : t)
  : t * bool :=
  match startCall host audioElement en with
  | (en1, None) => (en1, false)
  | (en1, Some AudioAnalyzer.Suspended) =>
    let r := AudioAnalyzer.initializeResume host true audioElement (audioAnalyzer en1) in
    startResume (snd r) f (withAnalyzer (fst r) en1)
  | (en1, Some (AudioAnalyzer.Settled resolved)) => startResume resolved f en1
  end.

(** ** The engine with calls of [start] in flight

    A call of [start] that has not returned is either inside
    [initialize], at [await resume()], or past it, waiting to continue.
    [initialize] runs on the analyzer object the engine held when [start]
    was called.  [updateConfig] with a [smoothing] field puts a new object
    in the engine; the old one is then reachable only from the calls in
    flight, and is kept in [replaced].  [object] is [None] for the
    analyzer the engine holds and [Some i] for the [i]-th replaced one;
    [sameContext] is whether the object still holds the context whose
    [resume()] is awaited ([dispose] drops it). *)
Inductive StartStage :=
| AtResume (object : option nat) (sameContext : bool)
| AtInitialize (resolved : bool).

Record PendingStart := mkPending { audioElement : nat; stage : StartStage }.

Record System := mkSystem {
  world : World;
  replaced : list AudioAnalyzer.t;
  starts : list PendingStart
}.

(** What can happen next: a call of a public method, a callback of the
    host, or the continuation of the [k]-th call of [start] in flight. *)
Inductive Action :=
| ActSetVRM (v : MorphMapper.VRM)
| ActFrame (f : Frame)
| ActStop
| ActUpdateConfig (p : PartialConfig)
| ActTestVowel (vowel : string) (weight : R)
| ActRunTestSequence
| ActTimer
| ActStartCall (host : AudioAnalyzer.HostAnswers) (audioElement : nat)
| ActResumeSettles (k : nat) (host : AudioAnalyzer.HostAnswers)
| ActStartContinues (k : nat) (f : Frame).

Definition withEngine (en : t) (s : System) : System :=
  mkSystem (mkWorld en (pendingSteps (world s))) (replaced s) (starts s).

(** The context of the engine's analyzer has been dropped. *)
Definition dropContext (p : PendingStart) : PendingStart :=
  match stage p with
  | AtResume None _ => mkPending (audioElement p) (AtResume None false)
  | _ => p
  end.

(** The calls in flight once the engine's analyzer is [a]: when it holds
    no context, none of them awaits a context it holds. *)
Definition contextsAfter (a : AudioAnalyzer.t) (ps : list PendingStart) : list PendingStart :=
  match AudioAnalyzer.audioContext a with
  | Some _ => ps
  | None => map dropContext ps
  end.

(** The engine's analyzer has become the [i]-th replaced one. *)
Definition redirect (i : nat) (p : PendingStart) : PendingStart :=
  match stage p with
  | AtResume None same => mkPending (audioElement p) (AtResume (Some i) same)
  | _ => p
  end.

Definition act (s : System) (a : Action) : System :=
  let w := world s in
  let en := engine w in
  match a with
  | ActSetVRM v => withEngine (setVRM v en) s
  | ActFrame f => mkSystem (dispatch w (EvFrame f)) (replaced s) (starts s)
  | ActStop =>
    mkSystem (dispatch w EvStop) (replaced s)
             (contextsAfter (audioAnalyzer (stop en)) (starts s))
  | ActUpdateConfig p =>
    match p_smoothing p with
    | Some _ =>
      mkSystem (dispatch w (EvUpdateConfig p)) (replaced s ++ [audioAnalyzer en])
               (map (redirect (length (replaced s))) (starts s))
    | None => mkSystem (dispatch w (EvUpdateConfig p)) (replaced s) (starts s)
    end
  | ActTestVowel vowel weight =>
    mkSystem (dispatch w (EvTestVowel vowel weight)) (replaced s) (starts s)
  | ActRunTestSequence => mkSystem (dispatch w EvRunTestSequence) (replaced s) (starts s)
  | ActTimer => mkSystem (dispatch w EvTimer) (replaced s) (starts s)
  | ActStartCall host el =>
    let en1 := if vrmSet en && isRunning en then stop en else en in
    let before := contextsAfter (audioAnalyzer en1) (starts s) in
    match startCall host el en with
    | (en2, None) => s
    | (en2, Some AudioAnalyzer.Suspended) =>
      mkSystem (mkWorld en2 (pendingSteps w)) (replaced s)
               (before ++ [mkPending el (AtResume None true)])
    | (en2, Some (AudioAnalyzer.Settled resolved)) =>
      mkSystem (mkWorld en2 (pendingSteps w)) (replaced s)
               (before ++ [mkPending el (AtInitialize resolved)])
    end
  | ActResumeSettles k host =>
    match starts s !! k with
    | Some (mkPending el (AtResume None same)) =>
      let r := AudioAnalyzer.initializeResume host same el (audioAnalyzer en) in
      mkSystem (mkWorld (withAnalyzer (fst r) en) (pendingSteps w)) (replaced s)
               (<[k := mkPending el (AtInitialize (snd r))]> (starts s))
    | Some (mkPending el (AtResume (Some i) same)) =>
      match replaced s !! i with
      | Some old =>
        let r := AudioAnalyzer.initializeResume host same el old in
        mkSystem w (<[i := fst r]> (replaced s))
                 (<[k := mkPending el (AtInitialize (snd r))]> (starts s))
      | None => s
      end
    | _ => s
    end
  | ActStartContinues k f =>
    match starts s !! k with
    | Some (mkPending el (AtInitialize resolved)) =>
      mkSystem (mkWorld (fst (startResume resolved f en)) (pendingSteps w)) (replaced s)
               (delete k (starts s))
    | _ => s
    end
  end.

Definition perform (s : System) (actions : list Action) : System := fold_left act actions s.

(** [new LipSyncEngine(config)], nothing in flight. *)
Definition initial (p : PartialConfig) : System := mkSystem (mkWorld (create p) []) [] [].



(** Consecutive frame callbacks. *)
Definition ticks (fs : list Frame) (en : t) : t := fold_left (fun en1 f => animate f en1) fs en.


(** [analyze()] would return a frame: the node and the buffer are there. *)
Definition canAnalyze (a : AudioAnalyzer.t) : bool :=
  match AudioAnalyzer.analyser a, AudioAnalyzer.dataArray a with
  | Some _, Some _ => true
  | _, _ => false
  end.

(** A call of [start] in flight whose [initialize] waits on the engine's
    analyzer. *)
Definition awaitsEngine (p : PendingStart) : bool :=
  match stage p with
  | AtResume None _ => true
  | _ => false
  end.

Definition isStartCall (a : Action) : bool :=
  match a with ActStartCall _ _ => true | _ => false end.

(** The engine's analyzer cannot deliver a frame, and no call in flight
    is initialising it. *)
Definition deaf (s : System) : Prop :=
  canAnalyze (audioAnalyzer (engine (world s))) = false /\
  existsb awaitsEngine (starts s) = false.

(** The documented ranges of the configuration: [smoothing] between 0
    and 1, [sensitivity] not negative. *)
Definition inRange (c : LipSyncConfig) : Prop :=
  0 <= smoothing c <= 1 /\ 0 <= sensitivity c.

(** An action that does not take the configuration out of these ranges:
    any action but an [updateConfig] whose [smoothing] or [sensitivity]
    is outside them. *)
Definition keepsRange (a : Action) : Prop :=
  match a with
  | ActUpdateConfig p =>
    (forall x, p_smoothing p = Some x -> 0 <= x <= 1) /\
    (forall x, p_sensitivity p = Some x -> 0 <= x)
  | _ => True
  end.


End LipSyncEngine.

(* ===================================================================== *)
(** * VRMManager: the events and the lip-sync interface *)
(* ===================================================================== *)

Module VRMManager.

(** The manager owns the engine and notifies listeners.  Of the class,
    this is the part that calls the engine: the table of listeners with
    [on], [off] and [emit], the methods [start] and [stop] of the [lipSync]
    interface, and [onFrame].  Loading and the scene are outside the
    model; [vrmLoaded] says whether [this.vrm] is set, and when it is, the
    avatar is the one the engine's mapper holds ([initializeFeatures]
    passes it to [setVRM]) and the animation player exists.  A listener is
    a function known by its identity (a number); calling it is recorded as
    a delivery, and what it does is not modelled.  The calls of
    [animationPlayer.update(delta)], which forwards to the animation
    mixer, are recorded in [mixerUpdates]. *)

Inductive VRMEventType :=
| loaded | loading | error | lipSyncStart | lipSyncStop | lipSyncFrame
| animationStart | animationEnd.

#[global] Instance VRMEventType_eq_dec : EqDecision VRMEventType.
Proof. solve_decision. Defined.

(** The payloads of the lip-sync events: none, or [{ volume, vowel }]. *)
Inductive EventData :=
| NoData
| FrameData (volume : R) (vowel : string).

Record Delivery := mkDelivery {
  listener : nat;
  event : VRMEventType;
  data : EventData
}.

(** [eventListeners] is a [Map] from event types to [Set]s of listeners:
    entries in insertion order, a set as a list without repetition. *)
Record t := mkManager {
  vrmLoaded : bool;
  lipSyncEngine : LipSyncEngine.t;
  eventListeners : list (VRMEventType * list nat);
  delivered : list Delivery;
  mixerUpdates : list R
}.

(** [eventListeners.get(event)] *)
Fixpoint getListeners (ev : VRMEventType) (table : list (VRMEventType * list nat))
  : option (list nat) :=
  match table with
  | [] => None
  | (e, ls) :: rest => if decide (e = ev) then Some ls else getListeners ev rest
  end.

(** [set.add(listener)]: a listener already in the set is not added. *)
Definition setAdd (l : nat) (ls : list nat) : list nat :=
  if existsb (Nat.eqb l) ls then ls else ls ++ [l].

(** [set.delete(listener)] *)
Definition setDelete (l : nat) (ls : list nat) : list nat :=
  List.filter (fun l' => negb (Nat.eqb l' l)) ls.

(** The table after [if (!has(event)) set(event, new Set())] and
    [get(event).add(listener)]. *)
Fixpoint addListener (ev : VRMEventType) (l : nat) (table : list (VRMEventType * list nat))
  : list (VRMEventType * list nat) :=
  match table with
  | [] => [(ev, [l])]
  | (e, ls) :: rest =>
    if decide (e = ev) then (e, setAdd l ls) :: rest
    else (e, ls) :: addListener ev l rest
  end.

(** The table after [get(event)?.delete(listener)]. *)
Fixpoint removeListener (ev : VRMEventType) (l : nat) (table : list (VRMEventType * list nat))
  : list (VRMEventType * list nat) :=
  match table with
  | [] => []
  | (e, ls) :: rest =>
    if decide (e = ev) then (e, setDelete l ls) :: rest
    else (e, ls) :: removeListener ev l rest
  end.

(** [on(event, listener)] *)
Definition on (ev : VRMEventType) (l : nat) (m : t) : t :=
  mkManager (vrmLoaded m) (lipSyncEngine m) (addListener ev l (eventListeners m)) (delivered m)
            (mixerUpdates m).

(** [off(event, listener)] *)
Definition off (ev : VRMEventType) (l : nat) (m : t) : t :=
  mkManager (vrmLoaded m) (lipSyncEngine m) (removeListener ev l (eventListeners m))
            (delivered m) (mixerUpdates m).

(** The calls [listeners.forEach((listener) => listener(data))] makes. *)
Definition deliveries (ev : VRMEventType) (d : EventData) (m : t) : list Delivery :=
  match getListeners ev (eventListeners m) with
  | Some ls => map (fun l => mkDelivery l ev d) ls
  | None => []
  end.

(** [emit(event, data)] *)
Definition emit (ev : VRMEventType) (d : EventData) (m : t) : t :=
  mkManager (vrmLoaded m) (lipSyncEngine m) (eventListeners m)
            (delivered m ++ deliveries ev d m) (mixerUpdates m).

Definition withEngine (en : LipSyncEngine.t) (m : t) : t :=
  mkManager (vrmLoaded m) en (eventListeners m) (delivered m) (mixerUpdates m).

(** [lipSync.start(audioElement)] up to its [await]: the test of
    [self.vrm] and the part of the engine's [start] that runs with the
    call.  [None] when it returns [false] at once (no avatar loaded, the
    engine is not called); otherwise what the engine's [startCall]
    reports. *)
Definition lipSyncStartCall (host : AudioAnalyzer.HostAnswers) (audioElement : nat) (m : t)
  : t * option (option AudioAnalyzer.Progress) :=
  if negb (vrmLoaded m) then (m, None)
  else
    let r := LipSyncEngine.startCall host audioElement (lipSyncEngine m) in
    (withEngine (fst r) m, Some (snd r)).

(** The continuation of [lipSync.start] once the engine's [start] has
    resolved to [success]: [if (success) self.emit('lipSyncStart')], on
    the manager as it is by then. *)
Definition lipSyncStartReturn (success : bool) (m : t) : t * bool :=
  (if success then emit lipSyncStart NoData m else m, success).

(** [lipSync.stop()] *)
Definition lipSyncStopCall (m : t) : t :=
  emit lipSyncStop NoData (withEngine (LipSyncEngine.stop (lipSyncEngine m)) m).

(** [this.vrm.update(delta)] on the avatar the mapper of the engine
    holds. *)
Definition vrmUpdate (delta : R) (en : LipSyncEngine.t) : LipSyncEngine.t :=
  match MorphMapper.vrm (LipSyncEngine.morphMapper en) with
  | Some v =>
    LipSyncEngine.mkEngine
      (LipSyncEngine.vrmSet en) (LipSyncEngine.audioAnalyzer en)
      (MorphMapper.withVRM
         (MorphMapper.mkVRM (MorphMapper.scene v) (MorphMapper.expressionManager v)
                            (MorphMapper.calls v ++ [MorphMapper.VrmUpdate delta]))
         (LipSyncEngine.morphMapper en))
      (LipSyncEngine.config en) (LipSyncEngine.animationFrame en)
      (LipSyncEngine.isRunning en) (LipSyncEngine.smoothedWeights en)
      (LipSyncEngine.lastUpdateTime en)
  | None => en
  end.

(** [onFrame(delta)] *)
Definition onFrame (delta : R) (m : t) : t :=
  if negb (vrmLoaded m) then m
  else
    let m1 := mkManager (vrmLoaded m) (vrmUpdate delta (lipSyncEngine m)) (eventListeners m)
                        (delivered m) (mixerUpdates m ++ [delta]) in
    if LipSyncEngine.isActive (lipSyncEngine m1) then
      let status := LipSyncEngine.getStatus (lipSyncEngine m1) in
      emit lipSyncFrame
           (FrameData (LipSyncEngine.LipSyncStatus.currentVolume status)
                      (LipSyncEngine.LipSyncStatus.currentVowel status)) m1
    else m1.

(** Every set of the table is without repetition. *)
Definition setsWellFormed (m : t) : Prop :=
  forall ev ls, getListeners ev (eventListeners m) = Some ls -> List.NoDup ls.

(** The listeners of an event, none when the event has no entry. *)
Definition listenersOf (ev : VRMEventType) (m : t) : list nat :=
  default [] (getListeners ev (eventListeners m)).

End VRMManager.

(* ===================================================================== *)
(** * Concrete analyzers, avatars and engines used in the examples *)
(* ===================================================================== *)

Module Scenario.

(** An analyzer bound to a running context, with the default decibel
    range [-90, -10] and two frequency bins. *)
Definition boundAnalyzer : AudioAnalyzer.t :=
  AudioAnalyzer.mkAnalyzer
    (Some (AudioAnalyzer.mkContext AudioAnalyzer.running 48000))
    (Some (AudioAnalyzer.mkAnalyser 4))
    (Some (AudioAnalyzer.mkSource 0))
    (Some [0; 0])
    (AudioAnalyzer.makeConfig (Some 4%nat) None None None).

(** A frame at full volume whose weight is all on "aa". *)
Definition loudFrame : AudioAnalyzer.AudioAnalysisResult :=
  AudioAnalyzer.mkResult 1 [] 0 (Vowel.mk 1 0 0 0 0).

(** A frame at volume 0.05 (5 on the scale of [minVolume]) whose weight
    is all on "aa". *)
Definition quietFrame : AudioAnalyzer.AudioAnalysisResult :=
  AudioAnalyzer.mkResult (5 / 100) [] 0 (Vowel.mk 1 0 0 0 0).

Definition onlySmoothing (x : R) : LipSyncEngine.PartialConfig :=
  LipSyncEngine.mkPartial None (Some x) None None.

(** An engine created with the default configuration, after one loud
    tick. *)
Definition openEngine : LipSyncEngine.t :=
  LipSyncEngine.processLipSync loudFrame
    (LipSyncEngine.create (LipSyncEngine.mkPartial None None None None)).

(** Scenario A: one face mesh with the five VRC vowel channels and one
    more channel, "jaw_drop"; every influence starts at [start]. *)
Definition faceMesh (start : R) : MorphMapper.Mesh :=
  MorphMapper.mkMesh true
    (Some [("vrc.v_aa", 0); ("vrc.v_e", 1); ("vrc.v_ih", 2); ("vrc.v_oh", 3);
           ("vrc.v_ou", 4); ("jaw_drop", 5)]%string%nat)
    (Some (<[0%nat := start]> (<[1%nat := start]> (<[2%nat := start]> (<[3%nat := start]>
          (<[4%nat := start]> (<[5%nat := start]> ∅))))))).

Definition avatarA (start : R) : MorphMapper.VRM :=
  MorphMapper.mkVRM [faceMesh start] true [].

(** Scenario B: no recognised channel, a channel named "mouth_open". *)
Definition mouthMesh : MorphMapper.Mesh :=
  MorphMapper.mkMesh true (Some [("mouth_open"%string, 0%nat)]) (Some (<[0%nat := 0]> ∅)).

Definition avatarB (withExpressions : bool) : MorphMapper.VRM :=
  MorphMapper.mkVRM [mouthMesh] withExpressions [].

(** Scenario C: scenario B with one more channel, "blink", whose
    influence starts at 0.3. *)
Definition blinkMesh : MorphMapper.Mesh :=
  MorphMapper.mkMesh true (Some [("mouth_open"%string, 0%nat); ("blink"%string, 1%nat)])
                     (Some (<[0%nat := 0]> (<[1%nat := 3 / 10]> ∅))).

Definition avatarC : MorphMapper.VRM := MorphMapper.mkVRM [blinkMesh] false [].

Definition mapperFor (v : MorphMapper.VRM) (vrc expressions : option bool) : MorphMapper.t :=
  MorphMapper.setVRM v (MorphMapper.create vrc expressions).

(** Weights whose maximum is 0.8. *)
Definition weights08 : Vowel.Weights := Vowel.mk (8 / 10) (1 / 10) (1 / 10) 0 0.

Definition defaults : LipSyncEngine.PartialConfig :=
  LipSyncEngine.mkPartial None None None None.

(** An engine bound to scenario A, as [new LipSyncEngine()] followed by
    [setVRM] leaves it. *)
Definition idleEngine : LipSyncEngine.t :=
  LipSyncEngine.setVRM (avatarA 0) (LipSyncEngine.create defaults).

(** The same engine while running: analyzer bound, a frame scheduled. *)
Definition runningEngine : LipSyncEngine.t :=
  LipSyncEngine.mkEngine true boundAnalyzer (mapperFor (avatarA 0) None None)
    (LipSyncEngine.config idleEngine) 1%nat true Vowel.zero 0.


Definition frameAt (time : R) : LipSyncEngine.Frame :=
  LipSyncEngine.mkFrame 2%nat time [-50; -60].

(** [runTestSequence()] is invoked, three timers fire, then [stop()] is
    called. *)
Definition stoppedMidSequence : LipSyncEngine.World :=
  LipSyncEngine.run (LipSyncEngine.mkWorld idleEngine [])
    [LipSyncEngine.EvRunTestSequence; LipSyncEngine.EvTimer; LipSyncEngine.EvTimer;
     LipSyncEngine.EvTimer; LipSyncEngine.EvStop].

(** A manager with scenario A loaded, the idle engine, and listener 1
    registered for [lipSyncStart], listeners 1 and 2 for [lipSyncFrame]. *)
Definition loadedManager : VRMManager.t :=
  VRMManager.on VRMManager.lipSyncFrame 2
    (VRMManager.on VRMManager.lipSyncFrame 1
       (VRMManager.on VRMManager.lipSyncStart 1
          (VRMManager.mkManager true idleEngine [] [] []))).

Definition grantingHost : AudioAnalyzer.HostAudio :=
  AudioAnalyzer.mkHost (AudioAnalyzer.mkContext AudioAnalyzer.running 48000) true true.

(** A host that answers every call of [initialize] favourably, with a
    context that is running from the start. *)
Definition grantingAnswers : AudioAnalyzer.HostAnswers :=
  AudioAnalyzer.mkAnswers grantingHost true 4.

(** The same host, with a context that starts suspended. *)
Definition gestureAnswers : AudioAnalyzer.HostAnswers :=
  AudioAnalyzer.mkAnswers
    (AudioAnalyzer.mkHost (AudioAnalyzer.mkContext AudioAnalyzer.suspended 48000) true true)
    true 4.

(** Spectra of 128 bins, as the engine's analyser node reports them
    ([fftSize] 256): every bin at the ceiling of the decibel range, and
    every bin below its floor. *)
Definition loudSpectrum : list R := replicate 128 (-10).


(** A new engine bound to scenario A, with a call of [start] in flight:
    the context is suspended and [initialize] waits for [resume()]. *)
Definition waitingSystem : LipSyncEngine.System :=
  LipSyncEngine.perform (LipSyncEngine.initial defaults)
    [LipSyncEngine.ActSetVRM (avatarA 0);
     LipSyncEngine.ActStartCall gestureAnswers 0].

(** A new engine bound to scenario A and started on a host that grants
    everything; the first tick, inside [start], hears the loud
    spectrum. *)
Definition spokenSystem : LipSyncEngine.System :=
  LipSyncEngine.perform (LipSyncEngine.initial defaults)
    [LipSyncEngine.ActSetVRM (avatarA 0);
     LipSyncEngine.ActStartCall grantingAnswers 0;
     LipSyncEngine.ActStartContinues 0 (LipSyncEngine.mkFrame 1 100 loudSpectrum)].

End Scenario.

(* ===================================================================== *)
(** * Properties of the vowel vector *)
(* ===================================================================== *)

Module VowelFacts.

(** A successful read names one of the five fields. *)
Lemma get_cases key w x :
  Vowel.get key w = Some x ->
  (key = "aa"%string /\ x = Vowel.aa w) \/ (key = "e"%string /\ x = Vowel.e w) \/
  (key = "ih"%string /\ x = Vowel.ih w) \/ (key = "oh"%string /\ x = Vowel.oh w) \/
  (key = "ou"%string /\ x = Vowel.ou w).
Proof.
  unfold Vowel.get.
  destruct (String.eqb_spec key "aa"); [intros [= <-]; auto |].
  destruct (String.eqb_spec key "e"); [intros [= <-]; auto |].
  destruct (String.eqb_spec key "ih"); [intros [= <-]; auto 6 |].
  destruct (String.eqb_spec key "oh"); [intros [= <-]; auto 6 |].
  destruct (String.eqb_spec key "ou"); [intros [= <-]; auto 7 |].
  discriminate.
Qed.

Lemma get_total key w : In key (map fst (Vowel.entries w)) -> is_Some (Vowel.get key w).
Proof.
  simpl. intros [<- | [<- | [<- | [<- | [<- | []]]]]]; eexists; reflexivity.
Qed.

Lemma total_sum w :
  Vowel.total w = Vowel.aa w + Vowel.e w + Vowel.ih w + Vowel.oh w + Vowel.ou w.
Proof. unfold Vowel.total. simpl. ring. Qed.

Lemma maximum_upper w key x : Vowel.get key w = Some x -> x <= Vowel.maximum w.
Proof.
  intros H. unfold Vowel.maximum.
  destruct (get_cases _ _ _ H) as [[_ ->] | [[_ ->] | [[_ ->] | [[_ ->] | [_ ->]]]]];
    unfold Rmax; repeat destruct (Rle_dec _ _); lra.
Qed.

End VowelFacts.

(* ===================================================================== *)
(** * Properties of the analyzer *)
(* ===================================================================== *)

Module AnalyzerFacts.
Import AudioAnalyzer.

Lemma proximity_pos f formants : 0 < proximity f formants.
Proof.
  unfold proximity.
  pose proof (Rabs_pos (f - fst formants)).
  pose proof (Rabs_pos (f - snd formants)).
  apply Rdiv_lt_0_compat; lra.
Qed.

Lemma rawWeights_fields f :
  rawWeights f =
  Vowel.mk (proximity f (700, 1220)) (proximity f (530, 1840)) (proximity f (390, 1990))
           (proximity f (570, 840)) (proximity f (370, 950)).
Proof. reflexivity. Qed.

Lemma normalize_fields w :
  Vowel.total w > 0 ->
  normalize w =
  Vowel.mk (Vowel.aa w / Vowel.total w) (Vowel.e w / Vowel.total w)
           (Vowel.ih w / Vowel.total w) (Vowel.oh w / Vowel.total w)
           (Vowel.ou w / Vowel.total w).
Proof.
  intros H. unfold normalize. destruct (Rgt_dec _ _); [reflexivity | lra].
Qed.

Lemma normalize_skip w : ~ Vowel.total w > 0 -> normalize w = w.
Proof.
  intros H. unfold normalize. destruct (Rgt_dec _ _); [contradiction | reflexivity].
Qed.

(** Normalising a vector with positive total gives total one. *)
Lemma normalize_total w : Vowel.total w > 0 -> Vowel.total (normalize w) = 1.
Proof.
  intros H. rewrite (normalize_fields w H), VowelFacts.total_sum. simpl.
  rewrite VowelFacts.total_sum in *. field. lra.
Qed.

(** On scores that are not negative, the normalised vector vanishes only
    if the scores do. *)
Lemma normalize_zero_only w :
  Vowel.nonneg w ->
  (forall key x, Vowel.get key (normalize w) = Some x -> x = 0) ->
  forall key x, Vowel.get key w = Some x -> x = 0.
Proof.
  intros (Ha & He & Hi & Ho & Hu) Hz.
  destruct (Rgt_dec (Vowel.total w) 0) as [Hpos | Hnot].
  - exfalso. pose proof (normalize_total w Hpos) as Ht.
    rewrite VowelFacts.total_sum in Ht.
    rewrite (Hz "aa"%string _ eq_refl), (Hz "e"%string _ eq_refl),
            (Hz "ih"%string _ eq_refl), (Hz "oh"%string _ eq_refl),
            (Hz "ou"%string _ eq_refl) in Ht.
    lra.
  - rewrite (normalize_skip w Hnot) in Hz. exact Hz.
Qed.

Lemma rawWeights_nonneg f : Vowel.nonneg (rawWeights f).
Proof.
  rewrite rawWeights_fields. unfold Vowel.nonneg. simpl.
  repeat split; apply Rlt_le, proximity_pos.
Qed.

Lemma rawWeights_total_pos f : Vowel.total (rawWeights f) > 0.
Proof.
  rewrite VowelFacts.total_sum, rawWeights_fields. simpl.
  pose proof (proximity_pos f (700, 1220)). pose proof (proximity_pos f (530, 1840)).
  pose proof (proximity_pos f (390, 1990)). pose proof (proximity_pos f (570, 840)).
  pose proof (proximity_pos f (370, 950)). lra.
Qed.

(** C6.  For every dominant frequency: if some vowel's proximity score is
    not zero the weights computed by [calculateVowelWeights] sum to one,
    and the weights are all zero only if the five scores are all zero. *)
Theorem vowel_weights_distribution (dominantFreq : R) :
  ((exists key x, Vowel.get key (rawWeights dominantFreq) = Some x /\ x <> 0) ->
   Vowel.total (calculateVowelWeights dominantFreq) = 1) /\
  ((forall key x, Vowel.get key (calculateVowelWeights dominantFreq) = Some x -> x = 0) ->
   forall key x, Vowel.get key (rawWeights dominantFreq) = Some x -> x = 0).
Proof.
  split.
  - intros (key & x & Hget & Hx). unfold calculateVowelWeights.
    apply normalize_total.
    pose proof (rawWeights_nonneg dominantFreq) as (Ha & He & Hi & Ho & Hu).
    rewrite VowelFacts.total_sum.
    destruct (VowelFacts.get_cases _ _ _ Hget)
      as [[_ ->] | [[_ ->] | [[_ ->] | [[_ ->] | [_ ->]]]]];
      destruct (Rdichotomy _ _ Hx); lra.
  - unfold calculateVowelWeights. apply normalize_zero_only, rawWeights_nonneg.
Qed.

(** At 700 Hz the score of "aa" is not zero, and the weights sum to one. *)
Lemma vowel_weights_distribution_witness :
  Vowel.total (calculateVowelWeights 700) = 1.
Proof.
  apply (proj1 (vowel_weights_distribution 700)).
  exists "aa"%string, (proximity 700 (700, 1220)). split; [reflexivity |].
  pose proof (proximity_pos 700 (700, 1220)). lra.
Defined.

(** The scores are in fact never zero, so the sum is one at every
    frequency and no weight vanishes. *)
Lemma vowel_weights_total (dominantFreq : R) :
  Vowel.total (calculateVowelWeights dominantFreq) = 1.
Proof. apply normalize_total, rawWeights_total_pos. Qed.

(** ** Volume *)

Lemma div_le_1 a b : 0 < b -> a <= b -> a / b <= 1.
Proof.
  intros Hb Hab. unfold Rdiv. replace 1 with (b * / b) by (apply Rinv_r; lra).
  apply Rmult_le_compat_r; [left; apply Rinv_0_lt_compat; lra | lra].
Qed.

Lemma sumOfSquares_nonneg xs : 0 <= sumOfSquares xs.
Proof. induction xs as [| x xs IH]; simpl; [lra | nra]. Qed.

Lemma sumOfSquares_le_length xs :
  Forall (fun x => 0 <= x <= 1) xs -> sumOfSquares xs <= INR (length xs).
Proof.
  induction 1 as [| x xs Hx _ IH]; [simpl; lra |].
  change (length (x :: xs)) with (S (length xs)). rewrite S_INR. simpl.
  destruct Hx as [H0 H1]. assert (x * x <= 1) by nra. lra.
Qed.

Lemma aboveFloor_true cfg x : x > minDecibels cfg -> aboveFloor cfg x = true.
Proof. intros H. unfold aboveFloor. destruct (Rgt_dec _ _); [reflexivity | contradiction]. Qed.

Lemma aboveFloor_false cfg x : ~ x > minDecibels cfg -> aboveFloor cfg x = false.
Proof. intros H. unfold aboveFloor. destruct (Rgt_dec _ _); [contradiction | reflexivity]. Qed.

(** The loop adds, to the accumulators it starts from, the squares and
    the number of the bins above the floor. *)
Lemma volumeLoop_spec cfg data sum count :
  volumeLoop cfg data sum count =
  (sum + sumOfSquares (map (normalized cfg) (List.filter (aboveFloor cfg) data)),
   (count + length (map (normalized cfg) (List.filter (aboveFloor cfg) data)))%nat).
Proof.
  revert sum count. induction data as [| x rest IH]; intros sum count; simpl.
  - f_equal; [lra | lia].
  - destruct (Rgt_dec x (minDecibels cfg)) as [Hgt | Hle].
    + rewrite (aboveFloor_true _ _ Hgt), IH. simpl.
      f_equal; [unfold normalized; ring | lia].
    + rewrite (aboveFloor_false _ _ Hle), IH. reflexivity.
Qed.

(** The accumulating loop computes the root mean square of the text. *)
Lemma volumeOf_rms cfg data : volumeOf cfg data = rmsAboveFloor cfg data.
Proof.
  unfold volumeOf, rmsAboveFloor. rewrite volumeLoop_spec.
  destruct (map (normalized cfg) (List.filter (aboveFloor cfg) data)) as [| y ys]; simpl length.
  - reflexivity.
  - replace (0 <? 0 + S (length ys))%nat with true by (symmetry; apply Nat.ltb_lt; lia).
    rewrite Rplus_0_l. reflexivity.
Qed.

Lemma volumeOf_nonneg cfg data : 0 <= volumeOf cfg data.
Proof.
  unfold volumeOf. destruct (volumeLoop cfg data 0 0) as [sum count].
  destruct (0 <? count)%nat; [apply sqrt_pos | lra].
Qed.

Lemma normalized_unit cfg x :
  minDecibels cfg < maxDecibels cfg ->
  minDecibels cfg < x <= maxDecibels cfg -> 0 <= normalized cfg x <= 1.
Proof.
  intros Hc Hx. unfold normalized. split.
  - apply Rlt_le, Rdiv_lt_0_compat; lra.
  - apply div_le_1; lra.
Qed.

Lemma kept_unit cfg data :
  minDecibels cfg < maxDecibels cfg ->
  Forall (fun x => x <= maxDecibels cfg) data ->
  Forall (fun x => 0 <= x <= 1) (map (normalized cfg) (List.filter (aboveFloor cfg) data)).
Proof.
  intros Hc. induction 1 as [| x rest Hx _ IH]; simpl; [constructor |].
  destruct (Rgt_dec x (minDecibels cfg)) as [Hgt | Hle].
  - rewrite (aboveFloor_true _ _ Hgt). simpl.
    constructor; [apply normalized_unit; lra | exact IH].
  - rewrite (aboveFloor_false _ _ Hle). exact IH.
Qed.

Lemma volumeOf_le_1 cfg data :
  minDecibels cfg < maxDecibels cfg ->
  Forall (fun x => x <= maxDecibels cfg) data ->
  volumeOf cfg data <= 1.
Proof.
  intros Hc Hall. rewrite volumeOf_rms. unfold rmsAboveFloor.
  pose proof (kept_unit cfg data Hc Hall) as Hunit.
  pose proof (sumOfSquares_le_length _ Hunit) as Hle.
  pose proof (sumOfSquares_nonneg (map (normalized cfg) (List.filter (aboveFloor cfg) data))).
  destruct (map (normalized cfg) (List.filter (aboveFloor cfg) data)) as [| y ys] eqn:E; [lra |].
  rewrite <- sqrt_1. apply sqrt_le_1_alt.
  assert (0 < INR (length (y :: ys))) by (apply lt_0_INR; simpl; lia).
  apply div_le_1; lra.
Qed.

Lemma volumeOf_silent cfg data :
  Forall (fun x => x <= minDecibels cfg) data -> volumeOf cfg data = 0.
Proof.
  intros Hall. rewrite volumeOf_rms. unfold rmsAboveFloor.
  replace (List.filter (aboveFloor cfg) data) with (@nil R); [reflexivity |].
  induction Hall as [| x rest Hx _ IH]; simpl; [reflexivity |].
  rewrite aboveFloor_false by lra. exact IH.
Qed.

(** What [analyze] returns, when it returns a frame. *)
Lemma analyze_Some spectrum a a' r :
  analyze spectrum a = Some (a', r) ->
  exists arr, dataArray a = Some arr /\
    frequencies r = getFloatFrequencyData spectrum arr /\
    volume r = volumeOf (config a) (frequencies r) /\
    vowelWeights r = calculateVowelWeights (dominantFrequency r).
Proof.
  unfold analyze. destruct (analyser a); [| discriminate].
  destruct (dataArray a) as [arr |]; [| discriminate].
  intros [= <- <-]. exists arr. simpl. auto.
Qed.

(** C2, as the code has it.  Whenever [analyze] returns a frame, its
    volume is the root mean square of the normalised magnitudes of the
    bins strictly above the floor [minDecibels], the other bins counting
    neither in the sum nor in the number of bins; it is never negative; it
    is 0 when no bin exceeds the floor; and it is at most 1 when the floor
    is below [maxDecibels] and no bin exceeds [maxDecibels]. *)
Theorem analyze_volume spectrum a a' r :
  analyze spectrum a = Some (a', r) ->
  volume r = rmsAboveFloor (config a) (frequencies r) /\
  0 <= volume r /\
  (Forall (fun x => x <= minDecibels (config a)) (frequencies r) -> volume r = 0) /\
  (minDecibels (config a) < maxDecibels (config a) ->
   Forall (fun x => x <= maxDecibels (config a)) (frequencies r) -> volume r <= 1).
Proof.
  intros H. destruct (analyze_Some _ _ _ _ H) as (arr & _ & _ & Hv & _).
  rewrite Hv. split; [apply volumeOf_rms |].
  split; [apply volumeOf_nonneg |].
  split; [apply volumeOf_silent | apply volumeOf_le_1].
Qed.

(** A frame with one bin at -50 dB and one below the floor. *)
Lemma analyze_volume_witness :
  exists a' r,
    analyze [-50; -100] Scenario.boundAnalyzer = Some (a', r) /\ 0 <= volume r <= 1.
Proof.
  eexists _, _. split; [reflexivity |].
  pose proof (analyze_volume [-50; -100] Scenario.boundAnalyzer _ _ eq_refl)
    as (_ & H0 & _ & H1).
  split; [exact H0 |]. apply H1; simpl; [lra |].
  repeat constructor; lra.
Defined.

(** C2 as worded fails: the spectrum is in decibels and is not clipped to
    [maxDecibels].  With the default range [-90, -10], a bin at 0 dB has
    the normalised magnitude 90/80 and the volume is 9/8. *)
Lemma analyze_volume_counterexample :
  exists a' r,
    analyze [0; -100] Scenario.boundAnalyzer = Some (a', r) /\
    volume r = 9 / 8 /\ ~ (0 <= volume r <= 1).
Proof.
  eexists _, _. split; [reflexivity |].
  assert (Hv : volumeOf (config Scenario.boundAnalyzer) [0; -100] = 9 / 8).
  { rewrite volumeOf_rms. unfold rmsAboveFloor. simpl.
    rewrite aboveFloor_true by (simpl; lra).
    rewrite aboveFloor_false by (simpl; lra). simpl.
    unfold normalized. simpl.
    replace (_ / 1) with (9 / 8 * (9 / 8)) by field.
    apply sqrt_square. lra. }
  split; [exact Hv |]. intros [_ H].
  change (volumeOf (config Scenario.boundAnalyzer) [0; -100] <= 1) in H.
  rewrite Hv in H. lra.
Qed.

End AnalyzerFacts.

(* ===================================================================== *)
(** * Properties of the smoothing *)
(* ===================================================================== *)

Module SmoothingFacts.
Import LipSyncEngine.

Lemma decayWeights_fields c w :
  decayWeights c w =
  Vowel.mk (lerp (Vowel.aa w) 0 (1 - smoothing c)) (lerp (Vowel.e w) 0 (1 - smoothing c))
           (lerp (Vowel.ih w) 0 (1 - smoothing c)) (lerp (Vowel.oh w) 0 (1 - smoothing c))
           (lerp (Vowel.ou w) 0 (1 - smoothing c)).
Proof. reflexivity. Qed.

Lemma blendWeights_fields c scaledVolume v w :
  blendWeights c scaledVolume v w =
  Vowel.mk (lerp (Vowel.aa w) (Vowel.aa v * scaledVolume) (1 - smoothing c))
           (lerp (Vowel.e w) (Vowel.e v * scaledVolume) (1 - smoothing c))
           (lerp (Vowel.ih w) (Vowel.ih v * scaledVolume) (1 - smoothing c))
           (lerp (Vowel.oh w) (Vowel.oh v * scaledVolume) (1 - smoothing c))
           (lerp (Vowel.ou w) (Vowel.ou v * scaledVolume) (1 - smoothing c)).
Proof. reflexivity. Qed.


(** Reading one key after the blending loop. *)
Lemma blendWeights_get c scaledVolume key v w raw x :
  Vowel.get key v = Some raw -> Vowel.get key w = Some x ->
  Vowel.get key (blendWeights c scaledVolume v w)
  = Some (lerp x (raw * scaledVolume) (1 - smoothing c)).
Proof.
  intros Hv Hw. rewrite blendWeights_fields.
  destruct (VowelFacts.get_cases _ _ _ Hv)
    as [[-> ->] | [[-> ->] | [[-> ->] | [[-> ->] | [-> ->]]]]];
    injection Hw as <-; reflexivity.
Qed.

Lemma processLipSync_config analysis en : config (processLipSync analysis en) = config en.
Proof. unfold processLipSync. destruct (Rlt_dec _ _); reflexivity. Qed.

Lemma processLipSync_silent analysis en :
  silent (config en) analysis -> processLipSync analysis en = smoothToSilence en.
Proof.
  unfold silent, processLipSync. intros H. destruct (Rlt_dec _ _); [reflexivity | contradiction].
Qed.

Lemma processLipSync_loud analysis en :
  ~ silent (config en) analysis ->
  smoothedWeights (processLipSync analysis en)
  = blendWeights (config en)
      (Rmin 1 (AudioAnalyzer.volume analysis * sensitivity (config en)))
      (AudioAnalyzer.vowelWeights analysis) (smoothedWeights en).
Proof.
  unfold silent, processLipSync. intros H. destruct (Rlt_dec _ _); [contradiction | reflexivity].
Qed.

Lemma smoothToSilence_weights en :
  smoothedWeights (smoothToSilence en) = decayWeights (config en) (smoothedWeights en).
Proof. reflexivity. Qed.

Lemma processFrames_config frames en : config (processFrames frames en) = config en.
Proof.
  revert en. induction frames as [| a rest IH]; intros en; [reflexivity |].
  simpl. unfold processFrames in IH. rewrite IH. apply processLipSync_config.
Qed.

Lemma processFrames_snoc frames analysis en :
  processFrames (frames ++ [analysis]) en = processLipSync analysis (processFrames frames en).
Proof. unfold processFrames. rewrite fold_left_app. reflexivity. Qed.

Lemma holdFrame_S analysis n en :
  holdFrame analysis (S n) en = processLipSync analysis (holdFrame analysis n en).
Proof.
  unfold holdFrame. rewrite <- processFrames_snoc. f_equal.
  change (replicate (S n) analysis) with ([analysis] ++ replicate n analysis).
  induction n as [| n IH]; [reflexivity |]. simpl in *. f_equal. exact IH.
Qed.

Lemma decay_nonneg c w :
  0 <= smoothing c <= 1 -> Vowel.nonneg w -> Vowel.nonneg (decayWeights c w).
Proof.
  intros Hs (Ha & He & Hi & Ho & Hu). rewrite decayWeights_fields.
  unfold Vowel.nonneg, lerp. simpl. repeat split; nra.
Qed.

(** Silent ticks keep the smoothed vector non-negative. *)
Lemma silent_frames_nonneg frames en :
  0 <= smoothing (config en) <= 1 ->
  Vowel.nonneg (smoothedWeights en) ->
  Forall (silent (config en)) frames ->
  Vowel.nonneg (smoothedWeights (processFrames frames en)).
Proof.
  intros Hs Hn Hall. revert en Hs Hn Hall.
  induction frames as [| a rest IH]; intros en Hs Hn Hall; [exact Hn |].
  inversion Hall as [| ? ? Ha Hrest]; subst. simpl.
  change (Vowel.nonneg (smoothedWeights (processFrames rest (processLipSync a en)))).
  apply IH; rewrite ?processLipSync_config; try assumption.
  rewrite (processLipSync_silent _ _ Ha). simpl. apply decay_nonneg; assumption.
Qed.

(** A loud tick keeps the smoothed vector non-negative when the frame and
    the configuration are in their documented ranges. *)
Lemma loud_tick_nonneg analysis en :
  0 <= smoothing (config en) <= 1 -> 0 <= sensitivity (config en) ->
  0 <= AudioAnalyzer.volume analysis ->
  Vowel.nonneg (AudioAnalyzer.vowelWeights analysis) ->
  Vowel.nonneg (smoothedWeights en) ->
  ~ silent (config en) analysis ->
  Vowel.nonneg (smoothedWeights (processLipSync analysis en)).
Proof.
  intros Hs Hsens Hvol (Ha & He & Hi & Ho & Hu) (Ha' & He' & Hi' & Ho' & Hu') Hloud.
  rewrite (processLipSync_loud _ _ Hloud), blendWeights_fields.
  set (sv := Rmin 1 (AudioAnalyzer.volume analysis * sensitivity (config en))).
  assert (Hsv : 0 <= sv).
  { unfold sv, Rmin. destruct (Rle_dec _ _); [lra | nra]. }
  unfold Vowel.nonneg, lerp. cbn [Vowel.aa Vowel.e Vowel.ih Vowel.oh Vowel.ou].
  assert (forall x t, 0 <= x -> 0 <= t ->
            0 <= x + (t * sv - x) * (1 - smoothing (config en))) as Hstep.
  { intros x t Hx Ht. assert (0 <= t * sv) by nra.
    replace (x + (t * sv - x) * (1 - smoothing (config en)))
      with (x * smoothing (config en) + t * sv * (1 - smoothing (config en))) by ring.
    assert (0 <= x * smoothing (config en)) by nra.
    assert (0 <= t * sv * (1 - smoothing (config en))) by nra. lra. }
  repeat split; apply Hstep; assumption.
Qed.

(** ** A frame held constant *)

Lemma holdFrame_config analysis n en : config (holdFrame analysis n en) = config en.
Proof. apply processFrames_config. Qed.

(** One interpolation step moves the distance to the target by the
    factor [smoothing]. *)
Lemma lerp_distance x target s : lerp x target (1 - s) - target = s * (x - target).
Proof. unfold lerp. ring. Qed.

(** The value of one entry after [n] ticks on the same loud frame. *)
Lemma holdFrame_get analysis en key raw x0 n :
  ~ silent (config en) analysis ->
  Vowel.get key (AudioAnalyzer.vowelWeights analysis) = Some raw ->
  Vowel.get key (smoothedWeights en) = Some x0 ->
  let target := raw * Rmin 1 (AudioAnalyzer.volume analysis * sensitivity (config en)) in
  Vowel.get key (smoothedWeights (holdFrame analysis n en))
  = Some (target + smoothing (config en) ^ n * (x0 - target)).
Proof.
  intros Hloud Hraw Hx0 target. induction n as [| n IH].
  - change (holdFrame analysis 0 en) with en. rewrite Hx0. f_equal. simpl. ring.
  - rewrite holdFrame_S, processLipSync_loud by (rewrite holdFrame_config; exact Hloud).
    rewrite (blendWeights_get _ _ _ _ _ _ _ Hraw IH), holdFrame_config.
    f_equal. fold target. unfold lerp. simpl. ring.
Qed.

Lemma geometric_vanishes s d eps :
  0 <= s < 1 -> 0 < eps ->
  exists N : nat, forall n, (N <= n)%nat -> Rabs (s ^ n * d) < eps.
Proof.
  intros Hs Heps. destruct (Req_dec d 0) as [-> | Hd].
  - exists 0%nat. intros n _. rewrite Rmult_0_r, Rabs_R0. exact Heps.
  - pose proof (Rabs_pos_lt d Hd) as Hpos.
    destruct (pow_lt_1_zero s) with (y := eps / Rabs d) as [N HN].
    + rewrite Rabs_right; lra.
    + apply Rdiv_lt_0_compat; assumption.
    + exists N. intros n Hn. rewrite Rabs_mult.
      specialize (HN n Hn).
      apply Rmult_lt_compat_r with (r := Rabs d) in HN; [| exact Hpos].
      replace (eps / Rabs d * Rabs d) with eps in HN by (field; lra).
      exact HN.
Qed.

(** C5, as the code has it.  Hold one non-silent frame for any number of
    processed ticks, with [smoothing] in [0, 1).  For every vowel, with
    [target = rawWeight * min(1, volume * sensitivity)]: each tick replaces
    the smoothed weight by its interpolation towards the target with
    factor [1 - smoothing]; the weight never crosses the target and never
    moves away from it; and it converges to the target. *)
Theorem smoothing_convergence analysis en key raw x0 :
  0 <= smoothing (config en) < 1 ->
  ~ silent (config en) analysis ->
  Vowel.get key (AudioAnalyzer.vowelWeights analysis) = Some raw ->
  Vowel.get key (smoothedWeights en) = Some x0 ->
  let scaledVolume := Rmin 1 (AudioAnalyzer.volume analysis * sensitivity (config en)) in
  let target := raw * scaledVolume in
  exists x : nat -> R,
    (forall n, Vowel.get key (smoothedWeights (holdFrame analysis n en)) = Some (x n)) /\
    x 0%nat = x0 /\
    (forall n, x (S n) = lerp (x n) target (1 - smoothing (config en))) /\
    (forall n, (x n <= target -> x n <= x (S n) <= target) /\
               (target <= x n -> target <= x (S n) <= x n)) /\
    (forall eps, 0 < eps -> exists N : nat, forall n, (N <= n)%nat -> Rabs (x n - target) < eps).
Proof.
  intros Hs Hloud Hraw Hx0 scaledVolume target.
  exists (fun n => target + smoothing (config en) ^ n * (x0 - target)).
  assert (Hstep : forall n,
    target + smoothing (config en) ^ S n * (x0 - target)
    = lerp (target + smoothing (config en) ^ n * (x0 - target)) target
           (1 - smoothing (config en))) by (intros n; unfold lerp; simpl; ring).
  split; [intros n; apply holdFrame_get; assumption |].
  split; [simpl; ring |].
  split; [exact Hstep |].
  split.
  - intros n. rewrite Hstep.
    pose proof (lerp_distance (target + smoothing (config en) ^ n * (x0 - target)) target
                  (smoothing (config en))) as Hd.
    split; intros Hside; split; nra.
  - intros eps Heps.
    destruct (geometric_vanishes (smoothing (config en)) (x0 - target) eps Hs Heps) as [N HN].
    exists N. intros n Hn.
    replace (target + smoothing (config en) ^ n * (x0 - target) - target)
      with (smoothing (config en) ^ n * (x0 - target)) by ring.
    apply HN, Hn.
Qed.

(** The default engine (sensitivity 0.7, smoothing 0.8) on a loud frame:
    the weight of "aa" starts at 0 and tends to 0.7. *)
Lemma smoothing_convergence_witness :
  exists x : nat -> R,
    x 0%nat = 0 /\
    (forall n, Vowel.get "aa" (smoothedWeights
       (holdFrame Scenario.loudFrame n
          (create (mkPartial None None None None)))) = Some (x n)) /\
    (forall eps, 0 < eps -> exists N : nat, forall n, (N <= n)%nat -> Rabs (x n - 7 / 10) < eps).
Proof.
  destruct (smoothing_convergence Scenario.loudFrame
              (create (mkPartial None None None None)) "aa"%string 1 0)
    as (x & Hget & H0 & _ & _ & Hlim).
  - simpl. lra.
  - unfold silent. simpl. lra.
  - reflexivity.
  - reflexivity.
  - exists x. split; [exact H0 |]. split; [exact Hget |].
    intros eps Heps. destruct (Hlim eps Heps) as [N HN]. exists N. intros n Hn.
    specialize (HN n Hn). simpl in HN.
    replace (7 / 10) with (1 * Rmin 1 (1 * (7 / 10))); [exact HN |].
    unfold Rmin. destruct (Rle_dec _ _); lra.
Defined.

(** C5 as worded fails at [smoothing = 1], a value the configuration
    allows: the interpolation factor is 0, and under a constant loud frame
    whose target for "aa" is 0.7 the smoothed weight stays at 0 for ever. *)
Lemma smoothing_convergence_counterexample :
  let en := create (Scenario.onlySmoothing 1) in
  ~ silent (config en) Scenario.loudFrame /\
  Vowel.aa (AudioAnalyzer.vowelWeights Scenario.loudFrame)
    * Rmin 1 (AudioAnalyzer.volume Scenario.loudFrame * sensitivity (config en)) = 7 / 10 /\
  (forall n, Vowel.get "aa" (smoothedWeights (holdFrame Scenario.loudFrame n en)) = Some 0) /\
  ~ (exists N : nat, forall n x, (N <= n)%nat ->
       Vowel.get "aa" (smoothedWeights (holdFrame Scenario.loudFrame n en)) = Some x ->
       Rabs (x - 7 / 10) < 1 / 10).
Proof.
  intros en.
  assert (Hloud : ~ silent (config en) Scenario.loudFrame) by (unfold silent; simpl; lra).
  assert (Hstay : forall n,
    Vowel.get "aa" (smoothedWeights (holdFrame Scenario.loudFrame n en)) = Some 0).
  { intros n.
    rewrite (holdFrame_get Scenario.loudFrame en "aa" 1 0 n Hloud eq_refl eq_refl).
    f_equal. simpl. rewrite pow1. ring. }
  split; [exact Hloud |]. split; [| split; [exact Hstay |]].
  - simpl. unfold Rmin. destruct (Rle_dec _ _); lra.
  - intros [N HN]. specialize (HN N 0 (Nat.le_refl N) (Hstay N)).
    replace (0 - 7 / 10) with (- (7 / 10)) in HN by ring.
    rewrite Rabs_Ropp, Rabs_right in HN; lra.
Qed.

End SmoothingFacts.

(* ===================================================================== *)
(** * Properties of the mapper *)
(* ===================================================================== *)

Module MapperFacts.
Import MorphMapper.

(** ** Loops as folds *)

Section Folds.
Context {A B : Type} (f : A -> B -> A).

(** A property kept by every step is kept by the loop. *)
Lemma fold_left_preserves (Inv : A -> Prop) (l : list B) (a : A) :
  (forall a y, In y l -> Inv a -> Inv (f a y)) -> Inv a -> Inv (fold_left f l a).
Proof.
  revert a. induction l as [| y l IH]; intros a Hstep Ha; [exact Ha |].
  simpl. apply IH.
  - intros a' y' Hy'. apply Hstep. right. exact Hy'.
  - apply Hstep; [left; reflexivity | exact Ha].
Qed.

(** A property that one step establishes and no step destroys holds
    after the loop. *)
Lemma fold_left_establishes (Inv Goal : A -> Prop) (l : list B) (x : B) (a : A) :
  (forall a y, Inv a -> Inv (f a y)) ->
  (forall a y, Goal a -> Goal (f a y)) ->
  (forall a, Inv a -> Goal (f a x)) ->
  In x l -> Inv a -> Goal (fold_left f l a).
Proof.
  intros Hinv Hgoal Hx. revert a. induction l as [| y l IH]; intros a Hin Ha; [destruct Hin |].
  simpl. destruct Hin as [-> | Hin].
  - apply fold_left_preserves; [intros; apply Hgoal; assumption | apply Hx, Ha].
  - apply IH; [exact Hin | apply Hinv, Ha].
Qed.

End Folds.

(** ** One write *)

Lemma writeInfluence_hasInfluences i value mesh :
  hasInfluences (writeInfluence i value mesh) = hasInfluences mesh.
Proof.
  unfold writeInfluence, hasInfluences.
  destruct (morphTargetInfluences mesh) eqn:E; simpl; rewrite ?E; reflexivity.
Qed.

Lemma writeInfluence_dictionary i value mesh :
  morphTargetDictionary (writeInfluence i value mesh) = morphTargetDictionary mesh.
Proof. unfold writeInfluence. destruct (morphTargetInfluences mesh) eqn:E; reflexivity. Qed.

Lemma writeInfluence_hasVrcMorphs i value mesh :
  hasVrcMorphs (writeInfluence i value mesh) = hasVrcMorphs mesh.
Proof. unfold hasVrcMorphs. rewrite writeInfluence_dictionary. reflexivity. Qed.

(** The meshes of the scene after a write. *)
Lemma lookup_writeSink value target sc m :
  writeSink value target sc !! m
  = (if decide (fst target = m) then writeInfluence (snd target) value else fun mesh => mesh)
    <$> (sc !! m).
Proof.
  unfold writeSink. destruct (sc !! fst target) as [mesh |] eqn:E.
  - destruct (decide (fst target = m)) as [<- | Hne].
    + rewrite list_lookup_insert_eq by (eapply lookup_lt_Some; exact E).
      rewrite E. reflexivity.
    + rewrite list_lookup_insert_ne by exact Hne.
      destruct (sc !! m); reflexivity.
  - destruct (decide (fst target = m)) as [<- | Hne].
    + rewrite E. reflexivity.
    + destruct (sc !! m); reflexivity.
Qed.

Lemma isSink_writeSink value u sc target :
  isSink (writeSink value u sc) target <-> isSink sc target.
Proof.
  unfold isSink. rewrite lookup_writeSink. split.
  - intros (mesh & Hl & Hh). destruct (sc !! fst target) as [mesh0 |]; [| discriminate].
    exists mesh0. split; [reflexivity |].
    simpl in Hl. injection Hl as <-.
    destruct (decide _); [rewrite writeInfluence_hasInfluences in Hh |]; exact Hh.
  - intros (mesh & Hl & Hh). rewrite Hl. simpl. eexists. split; [reflexivity |].
    destruct (decide _); [rewrite writeInfluence_hasInfluences |]; exact Hh.
Qed.

Lemma readSink_writeSink_same value target sc :
  isSink sc target -> readSink (writeSink value target sc) target = Some value.
Proof.
  intros (mesh & Hl & Hh). unfold readSink. rewrite lookup_writeSink, Hl. simpl.
  rewrite decide_True by reflexivity.
  unfold writeInfluence, hasInfluences in *.
  destruct (morphTargetInfluences mesh) eqn:E; [| discriminate]. simpl.
  apply lookup_insert_eq.
Qed.

Lemma readSink_writeSink_other value u target sc :
  u <> target -> readSink (writeSink value u sc) target = readSink sc target.
Proof.
  intros Hne. unfold readSink. rewrite lookup_writeSink.
  destruct (sc !! fst target) as [mesh |]; [| reflexivity]. simpl.
  destruct (decide (fst u = fst target)) as [Hm | _]; [| reflexivity].
  unfold writeInfluence. destruct (morphTargetInfluences mesh) eqn:E; simpl; rewrite ?E;
    [| reflexivity].
  apply lookup_insert_ne. intros Hi. apply Hne.
  destruct u, target. simpl in *. congruence.
Qed.

Lemma readSink_isSink sc target x : readSink sc target = Some x -> isSink sc target.
Proof.
  unfold readSink, isSink, hasInfluences.
  destruct (sc !! fst target) as [mesh |]; [| discriminate].
  destruct (morphTargetInfluences mesh) eqn:E; [| discriminate].
  intros _. exists mesh. rewrite E. auto.
Qed.

(** Writing a value keeps the sinks that already hold it. *)
Lemma readSink_writeSink_keep value u target sc :
  readSink sc target = Some value -> readSink (writeSink value u sc) target = Some value.
Proof.
  intros H. destruct (decide (u = target)) as [-> | Hne].
  - apply readSink_writeSink_same. eapply readSink_isSink, H.
  - rewrite readSink_writeSink_other; assumption.
Qed.

(** ** The targets of one channel *)

Lemma writeTargets_fold value targets sc :
  writeTargets value targets sc = fold_left (fun sc1 t => writeSink value t sc1) targets sc.
Proof. revert sc. induction targets as [| t rest IH]; intros sc; [reflexivity | apply IH]. Qed.

Lemma isSink_writeTargets value targets sc target :
  isSink (writeTargets value targets sc) target <-> isSink sc target.
Proof.
  revert sc. induction targets as [| t rest IH]; intros sc; [reflexivity |].
  simpl. rewrite IH. apply isSink_writeSink.
Qed.

Lemma readSink_writeTargets_keep value targets sc target :
  readSink sc target = Some value -> readSink (writeTargets value targets sc) target = Some value.
Proof.
  revert sc. induction targets as [| t rest IH]; intros sc H; [exact H |].
  simpl. apply IH, readSink_writeSink_keep, H.
Qed.

Lemma readSink_writeTargets_in value targets sc target :
  In target targets -> isSink sc target ->
  readSink (writeTargets value targets sc) target = Some value.
Proof.
  revert sc. induction targets as [| t rest IH]; intros sc Hin Hs; [destruct Hin |].
  simpl. destruct Hin as [-> | Hin].
  - apply readSink_writeTargets_keep, readSink_writeSink_same, Hs.
  - apply IH; [exact Hin | apply isSink_writeSink, Hs].
Qed.

Lemma readSink_writeTargets_out value targets sc target :
  ~ In target targets -> readSink (writeTargets value targets sc) target = readSink sc target.
Proof.
  revert sc. induction targets as [| t rest IH]; intros sc Hout; [reflexivity |].
  simpl. rewrite IH by (intros H; apply Hout; right; exact H).
  apply readSink_writeSink_other. intros ->. apply Hout. left. reflexivity.
Qed.

(** ** The map built by [setVRM] *)

Lemma pushTarget_Forall (P : Target -> Prop) name target m :
  P target -> Forall (fun entry => Forall P (snd entry)) m ->
  Forall (fun entry => Forall P (snd entry)) (pushTarget name target m).
Proof.
  intros Ht. induction 1 as [| [k ts] rest Hts Hrest IH]; simpl.
  - repeat constructor. exact Ht.
  - destruct (String.eqb k name); constructor; simpl in *; try assumption.
    apply Forall_app. split; [exact Hts | repeat constructor; exact Ht].
Qed.

Lemma visit_Forall (P : Target -> Prop) i object m :
  (isSkinnedMesh object = true -> hasInfluences object = true -> forall index, P (i, index)) ->
  Forall (fun entry => Forall P (snd entry)) m ->
  Forall (fun entry => Forall P (snd entry)) (visit i object m).
Proof.
  intros HP Hm. unfold visit. destruct (isSkinnedMesh object) eqn:Hskin; [| exact Hm].
  destruct (morphTargetDictionary object) as [dict |]; [| exact Hm].
  unfold hasInfluences in HP.
  destruct (morphTargetInfluences object); [| exact Hm].
  specialize (HP eq_refl eq_refl). revert m Hm.
  induction dict as [| [name index] dict IH]; intros m Hm; [exact Hm |].
  simpl. apply IH, pushTarget_Forall; [apply HP | exact Hm].
Qed.

Lemma traverse_Forall (P : Target -> Prop) objects i m :
  (forall j object, objects !! j = Some object -> isSkinnedMesh object = true ->
                    hasInfluences object = true -> forall index, P ((i + j)%nat, index)) ->
  Forall (fun entry => Forall P (snd entry)) m ->
  Forall (fun entry => Forall P (snd entry)) (traverse i objects m).
Proof.
  revert i m. induction objects as [| object rest IH]; intros i m HP Hm; [exact Hm |].
  simpl. apply IH.
  - intros j obj Hj Hskin Hinfl index.
    replace (S i + j)%nat with (i + S j)%nat by lia. apply (HP (S j) obj); assumption.
  - apply visit_Forall; [| exact Hm].
    intros Hskin Hinfl index. replace i with (i + 0)%nat by lia.
    apply (HP 0%nat object); [reflexivity | assumption | assumption].
Qed.

(** Every target of the map built from an avatar is a sink of its scene. *)
Lemma buildMorphTargetMap_sinks v name targets target :
  In (name, targets) (buildMorphTargetMap v) -> In target targets ->
  isSink (scene v) target.
Proof.
  intros Hentry Htarget.
  assert (H : Forall (fun entry => Forall (isSink (scene v)) (snd entry))
                     (buildMorphTargetMap v)).
  { apply traverse_Forall; [| constructor].
    intros j object Hj _ Hinfl index. exists object. split; [exact Hj | exact Hinfl]. }
  rewrite Forall_forall in H. specialize (H _ (proj2 (list_elem_of_In _ _) Hentry)).
  rewrite Forall_forall in H. apply H, list_elem_of_In, Htarget.
Qed.

(** ** [reset] *)

Lemma resetMorphs_fold map sc :
  resetMorphs map sc = fold_left (resetStep map) vrcVowelMorphs sc.
Proof. reflexivity. Qed.

Lemma isSink_resetStep map sc morphName target :
  isSink (resetStep map sc morphName) target <-> isSink sc target.
Proof.
  unfold resetStep. destruct (assoc morphName map); [apply isSink_writeTargets | reflexivity].
Qed.

Lemma isSink_resetMorphs map sc target :
  isSink (resetMorphs map sc) target <-> isSink sc target.
Proof.
  rewrite resetMorphs_fold. generalize vrcVowelMorphs. intros names. revert sc.
  induction names as [| name names IH]; intros sc; [reflexivity |].
  simpl. rewrite IH. apply isSink_resetStep.
Qed.

(** Every sink of a channel with a VRC name reads 0 after the loop. *)
Lemma resetMorphs_zero map sc morphName targets target :
  In morphName vrcVowelMorphs -> assoc morphName map = Some targets ->
  In target targets -> isSink sc target ->
  readSink (resetMorphs map sc) target = Some 0.
Proof.
  intros Hname Hassoc Hin Hsink. rewrite resetMorphs_fold.
  apply (fold_left_establishes (resetStep map)
           (fun sc1 => isSink sc1 target) (fun sc1 => readSink sc1 target = Some 0)
           vrcVowelMorphs morphName sc).
  - intros sc1 name H. apply isSink_resetStep, H.
  - intros sc1 name H. unfold resetStep.
    destruct (assoc name map); [apply readSink_writeTargets_keep, H | exact H].
  - intros sc1 H. unfold resetStep. rewrite Hassoc.
    apply readSink_writeTargets_in; assumption.
  - exact Hname.
  - exact Hsink.
Qed.

Lemma resetMorphs_other map sc target :
  outsideVrc map target -> readSink (resetMorphs map sc) target = readSink sc target.
Proof.
  intros Hout. rewrite resetMorphs_fold.
  apply (fold_left_preserves (resetStep map)
           (fun sc1 => readSink sc1 target = readSink sc target)); [| reflexivity].
  intros sc1 name Hname H. unfold resetStep.
  destruct (assoc name map) as [targets |] eqn:E; [| exact H].
  rewrite readSink_writeTargets_out; [exact H | eapply Hout; eassumption].
Qed.

Lemma reset_vrm mm v :
  vrm mm = Some v ->
  vrm (reset mm)
  = Some (mkVRM (resetMorphs (morphTargetMap mm) (scene v)) (expressionManager v)
                (calls v ++ resetCalls v)).
Proof.
  intros Hv. unfold reset. rewrite Hv. unfold withVRM, update, resetExpressions, resetCalls.
  simpl. destruct (expressionManager v) eqn:E; simpl; rewrite ?E; f_equal; f_equal;
    rewrite <- ?app_assoc; reflexivity.
Qed.

(** C7.  On a mapper bound to an avatar, [reset()] leaves 0 in every sink
    of every channel that carries one of the five VRC names; sets the five
    expressions "aa", "e", "i", "o", "u" to 0 and updates the expression
    manager when the avatar has one; asks the avatar to recompute; and
    leaves every sink outside the channels with VRC names, hence every
    sink only the keyword fallback writes, as it was. *)
Theorem reset_effect mm v :
  vrm mm = Some v ->
  exists v',
    vrm (reset mm) = Some v' /\
    (forall morphName targets target,
        In morphName vrcVowelMorphs -> assoc morphName (morphTargetMap mm) = Some targets ->
        In target targets -> isSink (scene v) target ->
        readSink (scene v') target = Some 0) /\
    calls v' = calls v ++ resetCalls v /\
    (expressionManager v = true ->
     exists before, calls v' = before ++ [ExprSetValue "aa" 0; ExprSetValue "e" 0;
                                          ExprSetValue "i" 0; ExprSetValue "o" 0;
                                          ExprSetValue "u" 0; ExprUpdate;
                                          VrmUpdate (16 / 1000)]) /\
    (exists before, calls v' = before ++ [VrmUpdate (16 / 1000)]) /\
    (forall target, outsideVrc (morphTargetMap mm) target ->
                    readSink (scene v') target = readSink (scene v) target).
Proof.
  intros Hv. eexists. split; [apply reset_vrm, Hv |]. cbn [scene calls].
  split; [intros; eapply resetMorphs_zero; eassumption |].
  split; [reflexivity |].
  split.
  - intros He. exists (calls v). unfold resetCalls. rewrite He. reflexivity.
  - split.
    + exists (calls v ++ if expressionManager v
                         then [ExprSetValue "aa" 0; ExprSetValue "e" 0; ExprSetValue "i" 0;
                               ExprSetValue "o" 0; ExprSetValue "u" 0; ExprUpdate]
                         else []).
      unfold resetCalls. rewrite app_assoc. reflexivity.
    + intros target Hout. apply resetMorphs_other, Hout.
Qed.

(** Scenario A with every influence at 1/2: after [reset] the sink of
    "vrc.v_aa" reads 0 and the sink of "jaw_drop" still reads 1/2. *)
Lemma reset_effect_witness :
  exists v',
    vrm (reset (Scenario.mapperFor (Scenario.avatarA (1 / 2)) None None)) = Some v' /\
    readSink (scene v') (0%nat, 0%nat) = Some 0 /\
    readSink (scene v') (0%nat, 5%nat) = Some (1 / 2).
Proof.
  destruct (reset_effect (Scenario.mapperFor (Scenario.avatarA (1 / 2)) None None)
              (Scenario.avatarA (1 / 2)) eq_refl)
    as (v' & Hv' & Hzero & _ & _ & _ & Hother).
  exists v'. split; [exact Hv' |]. split.
  - apply (Hzero "vrc.v_aa"%string [(0%nat, 0%nat)] (0%nat, 0%nat)).
    + left. reflexivity.
    + reflexivity.
    + left. reflexivity.
    + eexists. split; reflexivity.
  - rewrite Hother; [reflexivity |].
    intros name targets Hname Hassoc Hin.
    simpl in Hname.
    destruct Hname as [<- | [<- | [<- | [<- | [<- | []]]]]];
      injection Hassoc as <-; destruct Hin as [[=] | []].
Defined.

(** ** The order of the strategies *)

(** Once a write has happened the flag stays up. *)
Lemma applyVRCTargets_flag weight targets sc :
  snd (applyVRCTargets weight targets sc true) = true.
Proof.
  revert sc. induction targets as [| t rest IH]; intros sc; [reflexivity |].
  simpl. destruct (sc !! fst t) as [mesh |]; [| apply IH].
  destruct (hasVrcMorphs mesh && hasInfluences mesh); apply IH.
Qed.

(** A loop that reports no write has made none. *)
Lemma applyVRCTargets_unapplied weight targets sc applied :
  snd (applyVRCTargets weight targets sc applied) = false ->
  applyVRCTargets weight targets sc applied = (sc, false).
Proof.
  revert sc applied. induction targets as [| t rest IH]; intros sc applied H.
  - simpl in *. subst. reflexivity.
  - simpl in *. destruct (sc !! fst t) as [mesh |]; [| apply IH, H].
    destruct (hasVrcMorphs mesh && hasInfluences mesh); [| apply IH, H].
    rewrite applyVRCTargets_flag in H. discriminate.
Qed.

Lemma applyVRCEntries_flag map ws sc : snd (applyVRCEntries map ws sc true) = true.
Proof.
  revert sc. induction ws as [| [vowel weight] rest IH]; intros sc; [reflexivity |].
  cbn [applyVRCEntries]. destruct (assoc vowel vrcMapping) as [morphName |]; [| apply IH].
  destruct (assoc morphName map) as [targets |]; [| apply IH].
  pose proof (applyVRCTargets_flag weight targets sc) as Hflag.
  destruct (applyVRCTargets weight targets sc true) as [sc1 applied1].
  simpl in Hflag. subst. apply IH.
Qed.

Lemma applyVRCEntries_unapplied map ws sc applied :
  snd (applyVRCEntries map ws sc applied) = false ->
  applyVRCEntries map ws sc applied = (sc, false).
Proof.
  revert sc applied. induction ws as [| [vowel weight] rest IH]; intros sc applied H.
  - simpl in *. subst. reflexivity.
  - cbn [applyVRCEntries] in *.
    destruct (assoc vowel vrcMapping) as [morphName |]; [| apply IH, H].
    destruct (assoc morphName map) as [targets |]; [| apply IH, H].
    destruct (applyVRCTargets weight targets sc applied) as [sc1 applied1] eqn:E.
    destruct applied1.
    + rewrite applyVRCEntries_flag in H. discriminate.
    + assert (E' : applyVRCTargets weight targets sc applied = (sc, false))
        by (apply applyVRCTargets_unapplied; rewrite E; reflexivity).
      rewrite E in E'. injection E' as ->. apply IH, H.
Qed.

Lemma applyVRCMorphs_unapplied map vowelWeights sc :
  snd (applyVRCMorphs map vowelWeights sc) = false ->
  fst (applyVRCMorphs map vowelWeights sc) = sc.
Proof.
  intros H. unfold applyVRCMorphs in *. rewrite (applyVRCEntries_unapplied _ _ _ _ H).
  reflexivity.
Qed.

(** The calls of the expression strategy, in order. *)
Lemma applyExpressions_calls vowelWeights v :
  expressionManager v = true ->
  calls (applyExpressions vowelWeights v)
  = calls v ++ [ExprSetValue "aa" (Vowel.aa vowelWeights); ExprSetValue "e" (Vowel.e vowelWeights);
                ExprSetValue "i" (Vowel.ih vowelWeights); ExprSetValue "o" (Vowel.oh vowelWeights);
                ExprSetValue "u" (Vowel.ou vowelWeights); ExprUpdate].
Proof. intros H. unfold applyExpressions. rewrite H. reflexivity. Qed.

(** C3, as the code has it.  In one call of [applyVowelWeights] on a bound
    mapper: if the VRC strategy is enabled and reports a write, the scene
    is exactly the one that strategy leaves and the only library call is
    the recompute (no expression is set and no fallback write is made);
    and if the avatar has an expression manager, [useExpressions] is on
    and the VRC strategy made no write, the scene is untouched (the
    fallback does not run) and the calls are the five [setValue], the
    manager's [update] and the recompute. *)
Theorem strategy_short_circuit vowelWeights mm v :
  vrm mm = Some v ->
  exists v',
    vrm (applyVowelWeights vowelWeights mm) = Some v' /\
    (useVRCMorphs (config mm) = true ->
     snd (applyVRCMorphs (morphTargetMap mm) vowelWeights (scene v)) = true ->
     scene v' = fst (applyVRCMorphs (morphTargetMap mm) vowelWeights (scene v)) /\
     calls v' = calls v ++ [VrmUpdate (16 / 1000)]) /\
    (expressionManager v = true -> useExpressions (config mm) = true ->
     useVRCMorphs (config mm) = false \/
     snd (applyVRCMorphs (morphTargetMap mm) vowelWeights (scene v)) = false ->
     scene v' = scene v /\
     calls v' = calls v ++
       [ExprSetValue "aa" (Vowel.aa vowelWeights); ExprSetValue "e" (Vowel.e vowelWeights);
        ExprSetValue "i" (Vowel.ih vowelWeights); ExprSetValue "o" (Vowel.oh vowelWeights);
        ExprSetValue "u" (Vowel.ou vowelWeights); ExprUpdate; VrmUpdate (16 / 1000)]).
Proof.
  intros Hv. unfold applyVowelWeights. rewrite Hv.
  destruct (useVRCMorphs (config mm)) eqn:Hvrc.
  - destruct (applyVRCMorphs (morphTargetMap mm) vowelWeights (scene v)) as [sc1 applied] eqn:E.
    destruct applied.
    + eexists. split; [reflexivity |]. split.
      * intros _ _. split; reflexivity.
      * intros _ _ [H | H]; discriminate.
    + assert (Hsc : sc1 = scene v).
      { rewrite <- (applyVRCMorphs_unapplied (morphTargetMap mm) vowelWeights (scene v));
          rewrite E; reflexivity. }
      subst sc1. cbn [withScene expressionManager].
      destruct (useExpressions (config mm) && expressionManager v) eqn:Hexp.
      * eexists. split; [reflexivity |]. split; [intros _ H; discriminate |].
        intros He _ _. split; [unfold applyExpressions; simpl; rewrite He; reflexivity |].
        unfold update. cbn [calls]. rewrite applyExpressions_calls by exact He.
        rewrite <- app_assoc. reflexivity.
      * eexists. split; [reflexivity |]. split; [intros _ H; discriminate |].
        intros He Hu _. rewrite He, Hu in Hexp. discriminate.
  - cbn [withScene expressionManager].
    destruct (useExpressions (config mm) && expressionManager v) eqn:Hexp.
    + eexists. split; [reflexivity |]. split; [intros H; discriminate |].
      intros He _ _. split; [unfold applyExpressions; simpl; rewrite He; reflexivity |].
      unfold update. cbn [calls]. rewrite applyExpressions_calls by exact He.
      rewrite <- app_assoc. reflexivity.
    + eexists. split; [reflexivity |]. split; [intros H; discriminate |].
      intros He Hu _. rewrite He, Hu in Hexp. discriminate.
Qed.

(** Scenario A with the one-hot input for "aa": the VRC strategy writes,
    the sink of "vrc.v_aa" reads 1, and the only call is the recompute. *)
Lemma strategy_short_circuit_witness :
  exists v',
    vrm (applyVowelWeights (Vowel.mk 1 0 0 0 0)
           (Scenario.mapperFor (Scenario.avatarA 0) None None)) = Some v' /\
    readSink (scene v') (0%nat, 0%nat) = Some 1 /\
    calls v' = [VrmUpdate (16 / 1000)].
Proof.
  destruct (strategy_short_circuit (Vowel.mk 1 0 0 0 0)
              (Scenario.mapperFor (Scenario.avatarA 0) None None)
              (Scenario.avatarA 0) eq_refl) as (v' & Hv' & Hvrc & _).
  destruct (Hvrc eq_refl eq_refl) as [Hscene Hcalls].
  exists v'. split; [exact Hv' |]. split.
  - rewrite Hscene. reflexivity.
  - exact Hcalls.
Defined.

(** C3 as worded fails in its second half when the mapper is built with
    [useExpressions: false]: on scenario B with an expression manager, no
    expression is set, the fallback runs, and "mouth_open" goes from 0 to
    0.4. *)
Lemma strategy_short_circuit_counterexample :
  let mm := Scenario.mapperFor (Scenario.avatarB true) None (Some false) in
  exists v v',
    vrm mm = Some v /\ expressionManager v = true /\
    readSink (scene v) (0%nat, 0%nat) = Some 0 /\
    vrm (applyVowelWeights Scenario.weights08 mm) = Some v' /\
    readSink (scene v') (0%nat, 0%nat) = Some (4 / 10) /\
    readSink (scene v') (0%nat, 0%nat) <> readSink (scene v) (0%nat, 0%nat) /\
    calls v' = [VrmUpdate (16 / 1000)].
Proof.
  intros mm. eexists _, _. split; [reflexivity |]. split; [reflexivity |].
  split; [reflexivity |]. split; [reflexivity |].
  assert (Hmax : Vowel.maximum Scenario.weights08 = 8 / 10).
  { unfold Vowel.maximum, Scenario.weights08. simpl.
    unfold Rmax. repeat destruct (Rle_dec _ _); lra. }
  assert (Hread : Some (Vowel.maximum Scenario.weights08 * (5 / 10)) = Some (4 / 10))
    by (rewrite Hmax; f_equal; lra).
  split; [exact Hread |]. split; [| reflexivity].
  change (Some (Vowel.maximum Scenario.weights08 * (5 / 10)) <> Some 0).
  rewrite Hread. intros [= H]. lra.
Qed.

(** ** The keyword fallback *)

Lemma prefix_lower pattern s :
  String.prefix pattern s = true ->
  String.prefix (Js.toLowerCase pattern) (Js.toLowerCase s) = true.
Proof.
  revert s. induction pattern as [| a pattern IH]; intros s H; [destruct s; reflexivity |].
  destruct s as [| b s]; [discriminate |]. simpl in *.
  destruct (ascii_dec a b) as [-> | Hne]; [| discriminate].
  destruct (ascii_dec (Js.lowerAscii b) (Js.lowerAscii b)); [apply IH, H | contradiction].
Qed.

(** A name that includes a pattern still includes it, lower-cased, after
    [toLowerCase]. *)
Lemma includes_lower pattern s :
  Js.includes pattern s = true ->
  Js.includes (Js.toLowerCase pattern) (Js.toLowerCase s) = true.
Proof.
  induction s as [| c s IH]; intros H.
  - simpl in *. rewrite orb_false_r in *. apply (prefix_lower pattern ""), H.
  - change (String.prefix pattern (String c s) || Js.includes pattern s = true) in H.
    change (String.prefix (Js.toLowerCase pattern) (Js.toLowerCase (String c s))
            || Js.includes (Js.toLowerCase pattern) (Js.toLowerCase s) = true).
    apply orb_true_iff in H. apply orb_true_iff. destruct H as [H | H].
    + left. apply prefix_lower, H.
    + right. apply IH, H.
Qed.

(** The patterns are lower case already. *)
Lemma patterns_lower pattern :
  In pattern alternativeMorphPatterns -> Js.toLowerCase pattern = pattern.
Proof.
  unfold alternativeMorphPatterns. simpl.
  intros H. repeat (destruct H as [<- | H]; [reflexivity |]). destruct H.
Qed.

Lemma isSink_fallbackEntry value pattern sc entry target :
  isSink (fallbackEntry value pattern sc entry) target <-> isSink sc target.
Proof.
  unfold fallbackEntry. destruct (Js.includes _ _); [apply isSink_writeTargets | reflexivity].
Qed.

Lemma readSink_fallbackEntry_keep value pattern sc entry target :
  readSink sc target = Some value ->
  readSink (fallbackEntry value pattern sc entry) target = Some value.
Proof.
  intros H. unfold fallbackEntry.
  destruct (Js.includes _ _); [apply readSink_writeTargets_keep, H | exact H].
Qed.

Lemma isSink_fallbackRound value pattern map sc target :
  isSink (fold_left (fallbackEntry value pattern) map sc) target <-> isSink sc target.
Proof.
  revert sc. induction map as [| entry map IH]; intros sc; [reflexivity |].
  simpl. rewrite IH. apply isSink_fallbackEntry.
Qed.

Lemma readSink_fallbackRound_keep value pattern map sc target :
  readSink sc target = Some value ->
  readSink (fold_left (fallbackEntry value pattern) map sc) target = Some value.
Proof.
  intros H.
  apply (fold_left_preserves (fallbackEntry value pattern)
           (fun sc1 => readSink sc1 target = Some value)); [| exact H].
  intros sc1 entry _ H1. apply readSink_fallbackEntry_keep, H1.
Qed.

(** Every sink of every channel whose lower-cased name includes one of the
    patterns holds the attenuated maximum after the fallback. *)
Lemma applyAlternativeMorphs_read map vowelWeights sc name targets pattern target :
  In (name, targets) map -> In pattern alternativeMorphPatterns ->
  Js.includes pattern (Js.toLowerCase name) = true ->
  In target targets -> isSink sc target ->
  readSink (applyAlternativeMorphs map vowelWeights sc) target
  = Some (Vowel.maximum vowelWeights * (5 / 10)).
Proof.
  intros Hentry Hpattern Hinc Htarget Hsink. unfold applyAlternativeMorphs.
  set (value := Vowel.maximum vowelWeights * (5 / 10)).
  apply (fold_left_establishes
           (fun sc1 p => fold_left (fallbackEntry value p) map sc1)
           (fun sc1 => isSink sc1 target) (fun sc1 => readSink sc1 target = Some value)
           alternativeMorphPatterns pattern sc).
  - intros sc1 p H. apply isSink_fallbackRound, H.
  - intros sc1 p H. apply readSink_fallbackRound_keep, H.
  - intros sc1 H.
    apply (fold_left_establishes (fallbackEntry value pattern)
             (fun sc2 => isSink sc2 target) (fun sc2 => readSink sc2 target = Some value)
             map (name, targets) sc1).
    + intros sc2 entry H2. apply isSink_fallbackEntry, H2.
    + intros sc2 entry H2. apply readSink_fallbackEntry_keep, H2.
    + intros sc2 H2. unfold fallbackEntry. cbn [fst snd]. rewrite Hinc.
      apply readSink_writeTargets_in; assumption.
    + exact Hentry.
    + exact H.
  - exact Hpattern.
  - exact Hsink.
Qed.

(** Without a channel of a VRC name in the map, the first strategy makes
    no write. *)
Lemma applyVRCMorphs_none mm vowelWeights sc :
  hasVRCMorphs mm = false ->
  applyVRCMorphs (morphTargetMap mm) vowelWeights sc = (sc, false).
Proof.
  unfold hasVRCMorphs, vrcVowelMorphs. cbn [existsb]. intros H.
  unfold applyVRCMorphs, Vowel.entries. cbn [applyVRCEntries assoc vrcMapping String.eqb Ascii.eqb Bool.eqb].
  destruct (assoc "vrc.v_aa" (morphTargetMap mm)); [discriminate |].
  destruct (assoc "vrc.v_e" (morphTargetMap mm)); [discriminate |].
  destruct (assoc "vrc.v_ih" (morphTargetMap mm)); [discriminate |].
  destruct (assoc "vrc.v_oh" (morphTargetMap mm)); [discriminate |].
  destruct (assoc "vrc.v_ou" (morphTargetMap mm)); [discriminate |].
  reflexivity.
Qed.

(** What [applyVowelWeights] does when only the fallback is left. *)
Lemma applyVowelWeights_fallback vowelWeights mm v :
  vrm mm = Some v -> expressionManager v = false -> hasVRCMorphs mm = false ->
  vrm (applyVowelWeights vowelWeights mm)
  = Some (update (withScene
            (applyAlternativeMorphs (morphTargetMap mm) vowelWeights (scene v)) v)).
Proof.
  intros Hv He Hnone. unfold applyVowelWeights. rewrite Hv.
  rewrite (applyVRCMorphs_none mm vowelWeights (scene v) Hnone).
  destruct (useVRCMorphs (config mm)); cbn [withScene expressionManager];
    rewrite He, andb_false_r; reflexivity.
Qed.

Lemma maximum_weights08 : Vowel.maximum Scenario.weights08 = 8 / 10.
Proof.
  unfold Vowel.maximum, Scenario.weights08. simpl.
  unfold Rmax. repeat destruct (Rle_dec _ _); lra.
Qed.

(** C9.  On an avatar with no channel of a VRC name and no expression
    manager, [applyVowelWeights] leaves [max(vowelWeights) * 0.5] in every
    sink of every channel whose name includes one of the keyword patterns;
    and on scenario B, for any input whose largest weight is 0.8, the sink
    of "mouth_open" reads 0.4. *)
Theorem heuristic_fallback :
  (forall vowelWeights mm v name targets pattern target,
      vrm mm = Some v -> expressionManager v = false -> hasVRCMorphs mm = false ->
      In (name, targets) (morphTargetMap mm) ->
      In pattern alternativeMorphPatterns -> Js.includes pattern name = true ->
      In target targets -> isSink (scene v) target ->
      exists v', vrm (applyVowelWeights vowelWeights mm) = Some v' /\
                 readSink (scene v') target = Some (Vowel.maximum vowelWeights * (5 / 10))) /\
  (forall vowelWeights,
      Vowel.maximum vowelWeights = 8 / 10 ->
      exists v', vrm (applyVowelWeights vowelWeights
                        (Scenario.mapperFor (Scenario.avatarB false) None None)) = Some v' /\
                 readSink (scene v') (0%nat, 0%nat) = Some (4 / 10)).
Proof.
  assert (General : forall vowelWeights mm v name targets pattern target,
      vrm mm = Some v -> expressionManager v = false -> hasVRCMorphs mm = false ->
      In (name, targets) (morphTargetMap mm) ->
      In pattern alternativeMorphPatterns -> Js.includes pattern name = true ->
      In target targets -> isSink (scene v) target ->
      exists v', vrm (applyVowelWeights vowelWeights mm) = Some v' /\
                 readSink (scene v') target = Some (Vowel.maximum vowelWeights * (5 / 10))).
  { intros vowelWeights mm v name targets pattern target Hv He Hnone Hentry Hp Hinc Ht Hs.
    eexists. split; [apply (applyVowelWeights_fallback _ _ v); assumption |].
    cbn [update withScene scene].
    apply (applyAlternativeMorphs_read _ _ _ name targets pattern); try assumption.
    rewrite <- (patterns_lower pattern Hp). apply includes_lower, Hinc. }
  split; [exact General |].
  intros vowelWeights Hmax.
  destruct (General vowelWeights (Scenario.mapperFor (Scenario.avatarB false) None None)
              (Scenario.avatarB false) "mouth_open"%string [(0%nat, 0%nat)] "mouth"%string
              (0%nat, 0%nat)) as (v' & Hv' & Hread); try reflexivity.
  - left. reflexivity.
  - left. reflexivity.
  - left. reflexivity.
  - eexists. split; reflexivity.
  - exists v'. split; [exact Hv' |]. rewrite Hread, Hmax. f_equal. lra.
Qed.

(** Scenario B with the weights (0.8, 0.1, 0.1, 0, 0). *)
Lemma heuristic_fallback_witness :
  exists v', vrm (applyVowelWeights Scenario.weights08
                    (Scenario.mapperFor (Scenario.avatarB false) None None)) = Some v' /\
             readSink (scene v') (0%nat, 0%nat) = Some (4 / 10).
Proof. exact (proj2 heuristic_fallback Scenario.weights08 maximum_weights08). Defined.

End MapperFacts.

(* ===================================================================== *)
(** * Properties of the engine's lifecycle *)
(* ===================================================================== *)

Module EngineFacts.
Import LipSyncEngine.

(** ** [dispose] and [reset] applied twice *)

Lemma dispose_released a :
  AudioAnalyzer.analyser (AudioAnalyzer.dispose a) = None /\
  AudioAnalyzer.source (AudioAnalyzer.dispose a) = None /\
  AudioAnalyzer.dataArray (AudioAnalyzer.dispose a) = None.
Proof. repeat split. Qed.


Lemma analyze_unbound spectrum a :
  AudioAnalyzer.analyser a = None -> AudioAnalyzer.analyze spectrum a = None.
Proof. intros H. unfold AudioAnalyzer.analyze. rewrite H. reflexivity. Qed.





(** ** [stop] *)

Lemma stop_weights en : smoothedWeights (stop en) = Vowel.zero.
Proof. reflexivity. Qed.

Lemma reset_vrcZeroed mm : MorphMapper.vrcZeroed (MorphMapper.reset mm).
Proof.
  intros v1 name targets target Hv1 Hname Hassoc Hin Hsink.
  destruct (MorphMapper.vrm mm) as [v |] eqn:Hv.
  - rewrite (MapperFacts.reset_vrm mm v Hv) in Hv1. injection Hv1 as <-.
    assert (Hmap : MorphMapper.morphTargetMap (MorphMapper.reset mm) = MorphMapper.morphTargetMap mm)
      by (unfold MorphMapper.reset; rewrite Hv; reflexivity).
    rewrite Hmap in Hassoc. cbn [MorphMapper.scene] in *.
    apply (MapperFacts.resetMorphs_zero _ _ name targets); try assumption.
    apply MapperFacts.isSink_resetMorphs in Hsink. exact Hsink.
  - unfold MorphMapper.reset in Hv1. rewrite Hv in Hv1. congruence.
Qed.




(** ** A replaced analyzer *)

(** The analyzer built by [updateConfig] has no analyser node. *)
Lemma newAnalyzer_unbound c : AudioAnalyzer.analyser (newAnalyzer c) = None.
Proof. reflexivity. Qed.

(** A tick on an engine whose analyzer has no analyser node touches
    neither the smoothed vector nor the mapper nor the analyzer. *)
Lemma animate_unbound f en :
  AudioAnalyzer.analyser (audioAnalyzer en) = None ->
  smoothedWeights (animate f en) = smoothedWeights en /\
  morphMapper (animate f en) = morphMapper en /\
  audioAnalyzer (animate f en) = audioAnalyzer en.
Proof.
  intros H. unfold animate. destruct (negb (isRunning en)); [auto |].
  destruct (Rlt_dec _ _); [auto |].
  rewrite (analyze_unbound _ _ H). auto.
Qed.

Lemma runStep_analyzer s en : audioAnalyzer (runStep s en) = audioAnalyzer en.
Proof.
  destruct s as [vowel weight |]; [| reflexivity].
  unfold runStep, testVowel. destruct (negb (vrmSet en)); reflexivity.
Qed.

Lemma resume_analyzer w : audioAnalyzer (engine (resume w)) = audioAnalyzer (engine w).
Proof.
  unfold resume. destruct (pendingSteps w) as [| s rest]; [reflexivity |].
  apply runStep_analyzer.
Qed.

(** Every event but [start] keeps an analyzer without analyser node as
    it is. *)
Lemma dispatch_unbound w ev :
  isStart ev = false ->
  AudioAnalyzer.analyser (audioAnalyzer (engine w)) = None ->
  AudioAnalyzer.analyser (audioAnalyzer (engine (dispatch w ev))) = None.
Proof.
  intros Hev H. destruct ev as [f | host el f | | p | vowel weight | |];
    cbn [dispatch engine isStart] in *.
  - destruct (animate_unbound f (engine w) H) as (_ & _ & ->). exact H.
  - discriminate.
  - reflexivity.
  - unfold updateConfig. cbn [audioAnalyzer]. destruct (p_smoothing p); [reflexivity | exact H].
  - unfold testVowel. destruct (negb (vrmSet (engine w))); exact H.
  - rewrite resume_analyzer. exact H.
  - rewrite resume_analyzer. exact H.
Qed.

Lemma run_unbound evs w :
  forallb (fun ev => negb (isStart ev)) evs = true ->
  AudioAnalyzer.analyser (audioAnalyzer (engine w)) = None ->
  AudioAnalyzer.analyser (audioAnalyzer (engine (run w evs))) = None.
Proof.
  revert w. induction evs as [| ev evs IH]; intros w Hevs H; [exact H |].
  simpl in Hevs. apply andb_true_iff in Hevs as [Hev Hevs].
  apply (IH (dispatch w ev) Hevs). apply dispatch_unbound; [| exact H].
  destruct (isStart ev); [discriminate | reflexivity].
Qed.

(** C10.  [updateConfig] with a [smoothing] field puts a new analyzer in
    the engine, one that was never initialised.  From then on, through any
    events other than [start], [analyze()] returns nothing and a tick
    changes neither the smoothed vector nor the mapper (so no channel is
    written by it). *)
Theorem updateConfig_starves_ticks en p x pending evs f :
  isRunning en = true ->
  p_smoothing p = Some x ->
  forallb (fun ev => negb (isStart ev)) evs = true ->
  let w := run (mkWorld (updateConfig p en) pending) evs in
  audioAnalyzer (updateConfig p en) = newAnalyzer (assign (config en) p) /\
  AudioAnalyzer.isInitialized (audioAnalyzer (updateConfig p en)) = false /\
  AudioAnalyzer.analyze (spectrum f) (audioAnalyzer (engine w)) = None /\
  smoothedWeights (animate f (engine w)) = smoothedWeights (engine w) /\
  morphMapper (animate f (engine w)) = morphMapper (engine w).
Proof.
  intros _ Hp Hevs w.
  assert (Hnew : audioAnalyzer (updateConfig p en) = newAnalyzer (assign (config en) p))
    by (unfold updateConfig; rewrite Hp; reflexivity).
  assert (Hw : AudioAnalyzer.analyser (audioAnalyzer (engine w)) = None).
  { apply run_unbound; [exact Hevs |]. simpl. rewrite Hp. reflexivity. }
  split; [exact Hnew |]. split; [rewrite Hnew; reflexivity |].
  split; [apply analyze_unbound, Hw |].
  destruct (animate_unbound f (engine w) Hw) as (Hs & Hm & _). auto.
Qed.

(** The running engine of scenario A: the configuration is updated with
    [smoothing: 0.5], then a frame, a manual [testVowel] and another frame
    are delivered; the next tick still finds no analysis and leaves the
    smoothed vector alone. *)
Lemma updateConfig_starves_ticks_witness :
  let w := run (mkWorld (updateConfig (Scenario.onlySmoothing (1 / 2)) Scenario.runningEngine) [])
               [EvFrame (Scenario.frameAt 20); EvTestVowel "aa" 1; EvFrame (Scenario.frameAt 40)] in
  AudioAnalyzer.analyze (spectrum (Scenario.frameAt 60)) (audioAnalyzer (engine w)) = None /\
  smoothedWeights (animate (Scenario.frameAt 60) (engine w)) = smoothedWeights (engine w).
Proof.
  intros w.
  destruct (updateConfig_starves_ticks Scenario.runningEngine
              (Scenario.onlySmoothing (1 / 2)) (1 / 2) []
              [EvFrame (Scenario.frameAt 20); EvTestVowel "aa" 1; EvFrame (Scenario.frameAt 40)]
              (Scenario.frameAt 60) eq_refl eq_refl eq_refl) as (_ & _ & Hnone & Hweights & _).
  split; [exact Hnone | exact Hweights].
Defined.

(** ** The analyzer across a tick *)

Lemma processLipSync_analyzer analysis en :
  audioAnalyzer (processLipSync analysis en) = audioAnalyzer en.
Proof. unfold processLipSync. destruct (Rlt_dec _ _); reflexivity. Qed.

Lemma animate_analyser f en :
  AudioAnalyzer.analyser (audioAnalyzer (animate f en))
  = AudioAnalyzer.analyser (audioAnalyzer en).
Proof.
  unfold animate. destruct (negb (isRunning en)); [reflexivity |].
  destruct (Rlt_dec _ _); [reflexivity |].
  destruct (AudioAnalyzer.analyze (spectrum f) (audioAnalyzer en)) as [[a' r] |] eqn:E;
    [| reflexivity].
  rewrite processLipSync_analyzer. cbn [audioAnalyzer].
  unfold AudioAnalyzer.analyze in E.
  destruct (AudioAnalyzer.analyser (audioAnalyzer en)); [| discriminate].
  destruct (AudioAnalyzer.dataArray (audioAnalyzer en)); [| discriminate].
  injection E as <- _. reflexivity.
Qed.

(** ** [stop] and the test sequence *)

(** A frame callback on a stopped engine does nothing. *)
Lemma animate_stopped f en : isRunning en = false -> animate f en = en.
Proof. intros H. unfold animate. rewrite H. reflexivity. Qed.

Lemma frames_stopped frames w :
  isRunning (engine w) = false -> run w (map EvFrame frames) = w.
Proof.
  revert w. induction frames as [| f frames IH]; intros w H; [reflexivity |].
  assert (Hw : dispatch w (EvFrame f) = w)
    by (cbn [dispatch]; rewrite (animate_stopped f _ H); destruct w; reflexivity).
  change (run (dispatch w (EvFrame f)) (map EvFrame frames) = w).
  rewrite Hw. apply IH, H.
Qed.

(** A test step calls [testVowel], which looks at the avatar only. *)
Lemma runStep_vowel vowel weight en :
  vrmSet en = true ->
  morphMapper (runStep (StepVowel vowel weight) en)
  = MorphMapper.applyVowelWeights (Vowel.set vowel weight Vowel.zero) (morphMapper en).
Proof. intros H. unfold runStep, testVowel. rewrite H. reflexivity. Qed.

(** C1, as the code has it.  [stop()] turns [isRunning] off, clears the
    scheduled frame, zeroes the smoothed vector and has the mapper's
    [reset()] leave 0 in every sink of the VRC channels; after it no frame
    callback does anything.  The test sequence is not cancelled: [stop()]
    leaves its remaining steps pending, and the step that runs at the next
    timer calls [testVowel] and applies its one-hot vector through the
    mapper, whatever [isRunning] is. *)
Theorem stop_cancels_ticks_only w :
  let w1 := dispatch w EvStop in
  isRunning (engine w1) = false /\
  animationFrame (engine w1) = 0%nat /\
  smoothedWeights (engine w1) = Vowel.zero /\
  MorphMapper.vrcZeroed (morphMapper (engine w1)) /\
  (forall frames, run w1 (map EvFrame frames) = w1) /\
  pendingSteps w1 = pendingSteps w /\
  (forall vowel weight rest,
      pendingSteps w = StepVowel vowel weight :: rest -> vrmSet (engine w) = true ->
      morphMapper (engine (dispatch w1 EvTimer))
      = MorphMapper.applyVowelWeights (Vowel.set vowel weight Vowel.zero)
          (morphMapper (engine w1)) /\
      pendingSteps (dispatch w1 EvTimer) = rest).
Proof.
  intros w1. split; [reflexivity |]. split; [reflexivity |]. split; [reflexivity |].
  split; [apply reset_vrcZeroed |].
  split; [intros frames; apply frames_stopped; reflexivity |].
  split; [reflexivity |].
  intros vowel weight rest Hpending Hvrm.
  unfold w1. cbn [dispatch]. unfold resume. cbn [pendingSteps engine]. rewrite Hpending.
  cbn [engine pendingSteps]. split; [| reflexivity].
  apply runStep_vowel. exact Hvrm.
Qed.

Lemma rampWeight_4 : rampWeight 4 = 4 / 10.
Proof. unfold rampWeight. simpl. lra. Qed.

(** C1 as worded fails: the loop of [runTestSequence] never reads
    [isRunning].  On scenario A, after [stop()] is called in the middle of
    the sequence the sink of "vrc.v_aa" reads 0; the next timer still runs
    [testVowel("aa", 0.4)], which writes 0.4 there and asks for a
    recompute. *)
Lemma stop_cancels_ticks_only_counterexample :
  let w1 := Scenario.stoppedMidSequence in
  let w2 := dispatch w1 EvTimer in
  isRunning (engine w1) = false /\
  sinkOf (engine w1) (0%nat, 0%nat) = Some 0 /\
  sinkOf (engine w2) (0%nat, 0%nat) = Some (4 / 10) /\
  sinkOf (engine w2) (0%nat, 0%nat) <> sinkOf (engine w1) (0%nat, 0%nat) /\
  callsOf (engine w2) = callsOf (engine w1) ++ [MorphMapper.VrmUpdate (16 / 1000)].
Proof.
  intros w1 w2.
  assert (H1 : sinkOf (engine w1) (0%nat, 0%nat) = Some 0) by (vm_compute; reflexivity).
  assert (H2 : sinkOf (engine w2) (0%nat, 0%nat) = Some (4 / 10))
    by (rewrite <- rampWeight_4; vm_compute; reflexivity).
  split; [vm_compute; reflexivity |]. split; [exact H1 |]. split; [exact H2 |]. split.
  - rewrite H1, H2. intros [= H]. lra.
  - vm_compute. reflexivity.
Qed.

End EngineFacts.

(* ===================================================================== *)
(** * More on the analyzer: dominant bin, buffer, initialisation *)
(* ===================================================================== *)

Module AnalyzerMore.
Import AudioAnalyzer.

(** ** The dominant bin *)

(** The loop, started after the bins [pre] with the running maximum [m]
    found at [maxIndex], ends on the first bin that holds the maximum of
    all the bins. *)
Lemma maxLoop_running pre data m maxIndex :
  pre !! maxIndex = Some m ->
  (forall j x, pre !! j = Some x -> x <= m) ->
  (forall j x, (j < maxIndex)%nat -> pre !! j = Some x -> x < m) ->
  exists m',
    (pre ++ data) !! maxLoop data (length pre) (Some m) maxIndex = Some m' /\
    (forall j x, (pre ++ data) !! j = Some x -> x <= m') /\
    (forall j x, (j < maxLoop data (length pre) (Some m) maxIndex)%nat ->
                 (pre ++ data) !! j = Some x -> x < m').
Proof.
  revert pre m maxIndex. induction data as [| y rest IH]; intros pre m maxIndex Hat Hall Hbefore.
  - simpl. rewrite app_nil_r. exists m. auto.
  - cbn [maxLoop].
    assert (Hlen : length (pre ++ [y]) = S (length pre)) by (rewrite length_app; simpl; lia).
    replace (pre ++ y :: rest) with ((pre ++ [y]) ++ rest) by (rewrite <- app_assoc; reflexivity).
    destruct (Rgt_dec y m) as [Hgt | Hle]; rewrite <- Hlen.
    + apply IH.
      * apply list_lookup_middle. reflexivity.
      * intros j x Hj. apply lookup_app_Some in Hj as [Hj | [_ Hj]].
        -- specialize (Hall j x Hj). lra.
        -- apply list_lookup_singleton_Some in Hj as [_ <-]. lra.
      * intros j x Hlt Hj.
        rewrite lookup_app_l in Hj by lia. specialize (Hall j x Hj). lra.
    + apply IH.
      * rewrite lookup_app_l; [exact Hat | eapply lookup_lt_Some; exact Hat].
      * intros j x Hj. apply lookup_app_Some in Hj as [Hj | [_ Hj]].
        -- apply (Hall j x Hj).
        -- apply list_lookup_singleton_Some in Hj as [_ <-]. lra.
      * intros j x Hlt Hj.
        rewrite lookup_app_l in Hj
          by (apply lookup_lt_Some in Hat; lia).
        apply (Hbefore j x Hlt Hj).
Qed.

(** The search of [analyze] for the dominant bin returns the first index
    that holds the largest magnitude.  On an empty array it returns 0. *)
Theorem dominant_bin_first_maximum (data : list R) :
  data <> [] ->
  exists m,
    data !! maxLoop data 0%nat None 0%nat = Some m /\
    (forall j x, data !! j = Some x -> x <= m) /\
    (forall j x, (j < maxLoop data 0%nat None 0%nat)%nat -> data !! j = Some x -> x < m).
Proof.
  destruct data as [| y rest]; [congruence |]. intros _.
  cbn [maxLoop].
  apply (maxLoop_running [y] rest y 0%nat).
  - reflexivity.
  - intros j x Hj. apply list_lookup_singleton_Some in Hj as [_ <-]. lra.
  - intros j x Hlt. lia.
Qed.

(** Among the bins -40, -20, -20 the dominant one is the second. *)
Lemma dominant_bin_first_maximum_witness :
  exists m, [-40; -20; -20] !! maxLoop [-40; -20; -20] 0%nat None 0%nat = Some m /\
            (forall j x, [-40; -20; -20] !! j = Some x -> x <= m).
Proof.
  destruct (dominant_bin_first_maximum [-40; -20; -20]) as (m & Hat & Hall & _);
    [discriminate |].
  exists m. split; [exact Hat | exact Hall].
Defined.

Lemma maxLoop_in_range (data : list R) :
  data <> [] -> (maxLoop data 0%nat None 0%nat < length data)%nat.
Proof.
  destruct data as [| y rest]; [congruence |]. intros _. cbn [maxLoop].
  destruct (maxLoop_running [y] rest y 0%nat) as (m & Hat & _).
  - reflexivity.
  - intros j x Hj. apply list_lookup_singleton_Some in Hj as [_ <-]. lra.
  - intros j x Hlt. lia.
  - eapply lookup_lt_Some. exact Hat.
Qed.

(** The dominant frequency lies in [0, sampleRate / 2): the bin index is
    below the number of bins. *)
Theorem dominant_frequency_below_nyquist spectrum a a' r c :
  analyze spectrum a = Some (a', r) ->
  audioContext a = Some c -> 0 < sampleRate c -> frequencies r <> [] ->
  0 <= dominantFrequency r < sampleRate c / 2.
Proof.
  unfold analyze. destruct (analyser a); [| discriminate].
  destruct (dataArray a) as [arr |]; [| discriminate].
  intros [= <- <-] Hc Hrate Hdata. cbn [dominantFrequency frequencies] in *.
  rewrite Hc. unfold dominantFrequencyOf.
  set (data := getFloatFrequencyData spectrum arr) in *.
  pose proof (maxLoop_in_range data Hdata) as Hlt.
  assert (Hlen : 0 < INR (length data)) by (apply lt_0_INR; lia).
  assert (Hk : 0 <= INR (maxLoop data 0 None 0)) by apply pos_INR.
  assert (Hk' : INR (maxLoop data 0 None 0) < INR (length data)) by (apply lt_INR; exact Hlt).
  assert (Hq : 0 <= INR (maxLoop data 0 None 0) / INR (length data) < 1).
  { split.
    - apply Rmult_le_pos; [exact Hk | left; apply Rinv_0_lt_compat; exact Hlen].
    - apply (Rmult_lt_reg_r (INR (length data))); [exact Hlen |].
      unfold Rdiv. rewrite Rmult_assoc, Rinv_l by lra. lra. }
  split; nra.
Qed.

Lemma dominant_frequency_below_nyquist_witness :
  exists a' r,
    analyze [-50; -100] Scenario.boundAnalyzer = Some (a', r) /\
    0 <= dominantFrequency r < 48000 / 2.
Proof.
  eexists _, _. split; [reflexivity |].
  apply (dominant_frequency_below_nyquist [-50; -100] Scenario.boundAnalyzer _ _
           (mkContext running 48000) eq_refl eq_refl).
  - simpl. lra.
  - discriminate.
Defined.

(** ** [initialize] *)



(** ** [initialize], call by call *)

(** [initialize] is the run that nothing interrupts, on a host that
    constructs the context and accepts the settings. *)
Lemma initialize_uninterrupted host audioElement a :
  contextGranted host = true -> (4 <= settingsApplied host)%nat ->
  initialize (audio host) audioElement a
  = match initializeRun host audioElement a with
    | (a', true) => inl a'
    | (a', false) => inr a'
    end.
Proof.
  intros Hc Hs.
  assert (H1 : (1 <=? settingsApplied host)%nat = true) by (apply Nat.leb_le; lia).
  assert (H4 : (settingsApplied host <? 4)%nat = false) by (apply Nat.ltb_ge; lia).
  unfold initialize, initializeRun, initializeBegin, initializeFrom, initializeResume,
    initializeFinish, withContext.
  rewrite Hc.
  destruct (audioContext a) as [c |]; cbn [audioContext analyser source dataArray config].
  - destruct (state c) eqn:E; cbn [fst snd audioContext analyser source dataArray config];
      rewrite ?H1, ?H4; cbn [sampleRate].
    + destruct (resumeGranted (audio host));
        destruct (_ || sourceGranted (audio host)); reflexivity.
    + destruct (resumeGranted (audio host)); cbn [audioContext analyser source dataArray config];
        rewrite ?H1, ?H4; [destruct (_ || sourceGranted (audio host)); reflexivity | reflexivity].
    + destruct (resumeGranted (audio host));
        destruct (_ || sourceGranted (audio host)); reflexivity.
  - destruct (state (freshContext (audio host))) eqn:E;
      cbn [fst snd audioContext analyser source dataArray config];
      rewrite ?H1, ?H4; cbn [sampleRate].
    + destruct (resumeGranted (audio host));
        destruct (_ || sourceGranted (audio host)); reflexivity.
    + destruct (resumeGranted (audio host)); cbn [audioContext analyser source dataArray config];
        rewrite ?H1, ?H4; [destruct (_ || sourceGranted (audio host)); reflexivity | reflexivity].
    + destruct (resumeGranted (audio host));
        destruct (_ || sourceGranted (audio host)); reflexivity.
Qed.

(** What the last part of [initialize] changes when it does not reach
    its end. *)
Lemma initializeFinish_rejected host audioElement a a' :
  initializeFinish host audioElement a = (a', false) ->
  dataArray a' = dataArray a /\ source a' = source a /\ config a' = config a /\
  audioContext a' = audioContext a /\
  (is_Some (analyser a) -> is_Some (analyser a')).
Proof.
  unfold initializeFinish. destruct (audioContext a) as [c |] eqn:Hc.
  - destruct (settingsApplied host <? 4)%nat.
    + intros [= <-]. cbn. repeat split; eauto.
    + destruct (_ || sourceGranted (audio host)); [discriminate |].
      intros [= <-]. cbn. repeat split; eauto.
  - intros [= <-]. rewrite Hc. repeat split; auto.
Qed.

(** What it leaves when it reaches its end. *)
Lemma initializeFinish_resolved host audioElement a a' :
  initializeFinish host audioElement a = (a', true) ->
  is_Some (analyser a') /\ is_Some (dataArray a') /\
  source a' = Some (mkSource audioElement) /\ config a' = config a /\
  audioContext a' = audioContext a.
Proof.
  unfold initializeFinish. destruct (audioContext a) as [c |] eqn:Hc; [| discriminate].
  destruct (settingsApplied host <? 4)%nat; [discriminate |].
  destruct (_ || sourceGranted (audio host)); [| discriminate].
  intros [= <-]. cbn. repeat split; eauto.
Qed.

(** Whenever [initialize] rejects, at whichever call it throws (the
    context cannot be constructed, [resume()] is refused, the context was
    dropped while [initialize] waited, the node refuses a setting, or the
    source cannot be created), the buffer, the source and the
    configuration are as before, and an analyser node that was there has
    at most been exchanged for a new one.  So [analyze()] goes on
    returning nothing when there was no buffer, and goes on returning
    frames when it did. *)
Theorem initialize_rejected host audioElement same a a' :
  initializeBegin host audioElement a = (a', Settled false) \/
  initializeResume host same audioElement a = (a', false) ->
  dataArray a' = dataArray a /\ source a' = source a /\ config a' = config a /\
  (is_Some (analyser a) -> is_Some (analyser a')) /\
  (dataArray a = None -> forall spectrum, analyze spectrum a' = None) /\
  (forall spectrum, is_Some (analyze spectrum a) -> is_Some (analyze spectrum a')).
Proof.
  intros H.
  assert (Hframe : dataArray a' = dataArray a /\ source a' = source a /\
                   config a' = config a /\ (is_Some (analyser a) -> is_Some (analyser a'))).
  { destruct H as [H | H].
    - unfold initializeBegin in H.
      assert (Hfrom : forall c, initializeFrom host audioElement c a = (a', Settled false) ->
                dataArray a' = dataArray a /\ source a' = source a /\
                config a' = config a /\ (is_Some (analyser a) -> is_Some (analyser a'))).
      { intros c. unfold initializeFrom.
        destruct (state c); try discriminate;
          destruct (initializeFinish host audioElement (withContext c a)) as [a1 ok] eqn:E;
          cbn [fst snd]; intros [= <- ->];
          destruct (initializeFinish_rejected _ _ _ _ E) as (H1 & H2 & H3 & _ & H5);
          auto. }
      destruct (audioContext a) as [c |]; [exact (Hfrom c H) |].
      destruct (contextGranted host); [exact (Hfrom _ H) |].
      injection H as <-. auto.
    - unfold initializeResume in H.
      destruct (resumeGranted (audio host)); [| injection H as <-; auto].
      destruct (initializeFinish_rejected _ _ _ _ H) as (H1 & H2 & H3 & _ & H5).
      destruct (audioContext a) as [c |]; [destruct same |]; auto. }
  destruct Hframe as (Hd & Hs & Hc & Hn).
  split; [exact Hd |]. split; [exact Hs |]. split; [exact Hc |]. split; [exact Hn |].
  split.
  - intros Hnone spectrum. unfold analyze. rewrite Hd, Hnone.
    destruct (analyser a'); reflexivity.
  - intros spectrum. unfold analyze. rewrite Hd.
    destruct (analyser a) as [n |]; [| intros [x Hx]; discriminate].
    destruct (Hn ltac:(eauto)) as [n' ->].
    destruct (dataArray a); [eauto | intros [x Hx]; discriminate].
Qed.

(** A new analyzer on a host whose analyser node refuses the third
    setting: [initialize] rejects, a node is left in the object, and
    [analyze()] still returns nothing. *)
Lemma initialize_rejected_witness :
  exists a',
    initializeBegin (mkAnswers (mkHost (mkContext running 44100) true true) true 2) 7
                    (create (makeConfig None None None None)) = (a', Settled false) /\
    is_Some (analyser a') /\
    forall spectrum, analyze spectrum a' = None.
Proof.
  eexists. split; [reflexivity |]. split; [eexists; reflexivity |].
  destruct (initialize_rejected (mkAnswers (mkHost (mkContext running 44100) true true) true 2)
              7 true (create (makeConfig None None None None)) _ (or_introl eq_refl))
    as (_ & _ & _ & _ & Hnone & _).
  apply Hnone. reflexivity.
Defined.

(** A source created for an element is reused for that element: with a
    context that needs no resuming, [initialize] on the same element
    resolves whatever the host would answer to a new request. *)
Theorem initialize_reuses_source host audioElement a c :
  audioContext a = Some c -> state c <> suspended ->
  source a = Some (mkSource audioElement) ->
  exists a', initialize host audioElement a = inl a' /\ audioContext a' = Some c.
Proof.
  intros Hc Hstate Hsrc. unfold initialize. rewrite Hc, Hsrc. cbn.
  rewrite Nat.eqb_refl. cbn.
  destruct (state c) eqn:E, (resumeGranted host); try congruence;
    eexists; (split; [reflexivity |]); cbn; rewrite ?E; reflexivity.
Qed.

Lemma initialize_reuses_source_witness :
  exists a',
    initialize (mkHost (mkContext running 8000) false false) 0 Scenario.boundAnalyzer = inl a'.
Proof.
  destruct (initialize_reuses_source (mkHost (mkContext running 8000) false false) 0
              Scenario.boundAnalyzer (mkContext running 48000) eq_refl) as (a' & H & _).
  - discriminate.
  - reflexivity.
  - exists a'. exact H.
Defined.

(** ** The buffer of [analyze] *)

Lemma getFloatFrequencyData_length spectrum array :
  length (getFloatFrequencyData spectrum array) = length array.
Proof.
  unfold getFloatFrequencyData.
  rewrite length_app, length_take, length_drop. lia.
Qed.

(** A call of [analyze()] that returns a frame keeps the nodes, the
    context and the configuration, replaces the buffer by the frame's
    frequencies, which has the length of the old buffer and starts with
    the bins the host reported, and leaves an analyzer on which
    [analyze()] returns a frame again. *)
Theorem analyze_keeps_buffer spectrum a a' r :
  analyze spectrum a = Some (a', r) ->
  exists array,
    dataArray a = Some array /\
    dataArray a' = Some (frequencies r) /\
    length (frequencies r) = length array /\
    (forall i, (i < length array)%nat -> (i < length spectrum)%nat ->
               frequencies r !! i = spectrum !! i) /\
    analyser a' = analyser a /\ audioContext a' = audioContext a /\
    source a' = source a /\ config a' = config a /\
    (forall spectrum', is_Some (analyze spectrum' a')).
Proof.
  unfold analyze. destruct (analyser a) as [node |] eqn:Hn; [| discriminate].
  destruct (dataArray a) as [array |] eqn:Hd; [| discriminate].
  intros [= <- <-]. exists array. cbn.
  split; [reflexivity |]. split; [reflexivity |].
  split; [apply getFloatFrequencyData_length |].
  split.
  - intros i Hi Hs. unfold getFloatFrequencyData.
    rewrite lookup_app_l by (rewrite length_take; lia).
    apply lookup_take_lt. exact Hi.
  - repeat split; try reflexivity; try (symmetry; assumption).
    intros spectrum'. eexists. reflexivity.
Qed.

Lemma analyze_keeps_buffer_witness :
  exists a' r,
    analyze [-50; -60; -70] Scenario.boundAnalyzer = Some (a', r) /\
    length (frequencies r) = 2%nat.
Proof.
  eexists _, _. split; [reflexivity |].
  destruct (analyze_keeps_buffer [-50; -60; -70] Scenario.boundAnalyzer _ _ eq_refl)
    as (array & Harr & _ & Hlen & _).
  injection Harr as <-. exact Hlen.
Defined.

(** ** [dispose] *)

(** After [dispose()], on any analyzer: [analyze()] returns nothing, the
    analyzer is not initialised, the configuration is kept, and a second
    [dispose()] changes nothing.  A context is kept only if it was closed
    already. *)
Theorem dispose_releases a :
  (forall spectrum, analyze spectrum (dispose a) = None) /\
  isInitialized (dispose a) = false /\
  config (dispose a) = config a /\
  dispose (dispose a) = dispose a /\
  (forall c, audioContext (dispose a) = Some c -> state c = closed).
Proof.
  split; [reflexivity |]. split.
  - unfold isInitialized, dispose. cbn.
    destruct (audioContext a) as [c |]; [destruct (state c) |]; reflexivity.
  - split; [reflexivity |]. split.
    + unfold dispose. cbn. destruct (audioContext a) as [c |]; [| reflexivity].
      destruct (state c) eqn:E; cbn; rewrite ?E; reflexivity.
    + intros c. unfold dispose. cbn. destruct (audioContext a) as [c0 |]; [| discriminate].
      destruct (state c0) eqn:E; try discriminate. intros [= <-]. exact E.
Qed.

(** ** Vowel weights *)

Lemma calculateVowelWeights_get dominantFreq key formants :
  MorphMapper.assoc key vowelFormants = Some formants ->
  Vowel.get key (calculateVowelWeights dominantFreq)
  = Some (proximity dominantFreq formants / Vowel.total (rawWeights dominantFreq)).
Proof.
  unfold calculateVowelWeights.
  rewrite (AnalyzerFacts.normalize_fields _ (AnalyzerFacts.rawWeights_total_pos dominantFreq)).
  rewrite AnalyzerFacts.rawWeights_fields at 1 2 3 4 5.
  unfold vowelFormants. cbn [MorphMapper.assoc].
  destruct (String.eqb_spec "aa" key) as [<- | _]; [intros [= <-]; reflexivity |].
  destruct (String.eqb_spec "e" key) as [<- | _]; [intros [= <-]; reflexivity |].
  destruct (String.eqb_spec "ih" key) as [<- | _]; [intros [= <-]; reflexivity |].
  destruct (String.eqb_spec "oh" key) as [<- | _]; [intros [= <-]; reflexivity |].
  destruct (String.eqb_spec "ou" key) as [<- | _]; [intros [= <-]; reflexivity |].
  discriminate.
Qed.

Lemma proximity_le_1 f formants : proximity f formants <= 1.
Proof.
  unfold proximity.
  pose proof (Rabs_pos (f - fst formants)). pose proof (Rabs_pos (f - snd formants)).
  apply AnalyzerFacts.div_le_1; lra.
Qed.

(** The closer the dominant frequency is to a vowel's two formants (by
    the sum of the two distances), the larger the weight of that vowel;
    and every weight is positive and at most 1. *)
Theorem closer_formants_weigh_more dominantFreq key1 key2 formants1 formants2 :
  MorphMapper.assoc key1 vowelFormants = Some formants1 ->
  MorphMapper.assoc key2 vowelFormants = Some formants2 ->
  Rabs (dominantFreq - fst formants1) + Rabs (dominantFreq - snd formants1)
  <= Rabs (dominantFreq - fst formants2) + Rabs (dominantFreq - snd formants2) ->
  exists x1 x2,
    Vowel.get key1 (calculateVowelWeights dominantFreq) = Some x1 /\
    Vowel.get key2 (calculateVowelWeights dominantFreq) = Some x2 /\
    x2 <= x1 /\ 0 < x2 /\ x1 <= 1.
Proof.
  intros H1 H2 Hd.
  pose proof (AnalyzerFacts.rawWeights_total_pos dominantFreq) as Ht.
  set (total := Vowel.total (rawWeights dominantFreq)) in *.
  exists (proximity dominantFreq formants1 / total), (proximity dominantFreq formants2 / total).
  split; [apply calculateVowelWeights_get, H1 |].
  split; [apply calculateVowelWeights_get, H2 |].
  pose proof (AnalyzerFacts.proximity_pos dominantFreq formants1) as Hp1.
  pose proof (AnalyzerFacts.proximity_pos dominantFreq formants2) as Hp2.
  pose proof (Rabs_pos (dominantFreq - fst formants1)).
  pose proof (Rabs_pos (dominantFreq - snd formants1)).
  pose proof (Rabs_pos (dominantFreq - fst formants2)).
  pose proof (Rabs_pos (dominantFreq - snd formants2)).
  assert (Hle : proximity dominantFreq formants2 <= proximity dominantFreq formants1).
  { unfold proximity. cbv zeta. unfold Rdiv at 1 3. rewrite !Rmult_1_l.
    apply Rinv_le_contravar; lra. }
  assert (Hinv : 0 < / total) by (apply Rinv_0_lt_compat; exact Ht).
  split; [unfold Rdiv; nra |].
  split; [apply Rdiv_lt_0_compat; assumption |].
  apply AnalyzerFacts.div_le_1; [exact Ht |].
  (* one proximity is at most the sum of the five *)
  unfold total. rewrite VowelFacts.total_sum.
  pose proof (AnalyzerFacts.rawWeights_nonneg dominantFreq) as (Ha & He & Hi & Ho & Hu).
  assert (Hget : Vowel.get key1 (rawWeights dominantFreq)
                 = Some (proximity dominantFreq formants1)).
  { rewrite AnalyzerFacts.rawWeights_fields. revert H1.
    unfold vowelFormants. cbn [MorphMapper.assoc].
    destruct (String.eqb_spec "aa" key1) as [<- | _]; [intros [= <-]; reflexivity |].
    destruct (String.eqb_spec "e" key1) as [<- | _]; [intros [= <-]; reflexivity |].
    destruct (String.eqb_spec "ih" key1) as [<- | _]; [intros [= <-]; reflexivity |].
    destruct (String.eqb_spec "oh" key1) as [<- | _]; [intros [= <-]; reflexivity |].
    destruct (String.eqb_spec "ou" key1) as [<- | _]; [intros [= <-]; reflexivity |].
    discriminate. }
  destruct (VowelFacts.get_cases _ _ _ Hget)
    as [[_ ->] | [[_ ->] | [[_ ->] | [[_ ->] | [_ ->]]]]]; lra.
Qed.

(** At 600 Hz, "oh" (570, 840) is closer than "ih" (390, 1990). *)
Lemma closer_formants_weigh_more_witness :
  exists x1 x2,
    Vowel.get "oh" (calculateVowelWeights 600) = Some x1 /\
    Vowel.get "ih" (calculateVowelWeights 600) = Some x2 /\ x2 <= x1.
Proof.
  destruct (closer_formants_weigh_more 600 "oh" "ih" (570, 840) (390, 1990) eq_refl eq_refl)
    as (x1 & x2 & H1 & H2 & Hle & _).
  - cbn [fst snd].
    rewrite (Rabs_right (600 - 570)), (Rabs_left (600 - 840)),
            (Rabs_right (600 - 390)), (Rabs_left (600 - 1990)); lra.
  - exists x1, x2. auto.
Defined.

End AnalyzerMore.

(* ===================================================================== *)
(** * More on the mapper: the map, the direct strategy, manual writes *)
(* ===================================================================== *)

Module MapperMore.
Import MorphMapper.

(** ** Association lists *)

Lemma assoc_In {A} key (l : list (string * A)) v : assoc key l = Some v -> In (key, v) l.
Proof.
  induction l as [| [k x] rest IH]; [discriminate |]. cbn [assoc].
  destruct (String.eqb_spec k key) as [-> | _].
  - intros [= ->]. left. reflexivity.
  - intros H. right. apply IH, H.
Qed.

Lemma assoc_is_Some {A} key (l : list (string * A)) :
  is_Some (assoc key l) <-> In key (map fst l).
Proof.
  induction l as [| [k x] rest IH]; cbn [assoc map fst In].
  - split; [intros [? [=]] | intros []].
  - destruct (String.eqb_spec k key) as [-> | Hne].
    + split; [left; reflexivity | eexists; reflexivity].
    + rewrite IH. split; [right; assumption | intros [H | H]; [contradiction | exact H]].
Qed.

(** ** The map built by [setVRM] *)

Lemma targetsOf_pushTarget name n target m :
  targetsOf name (pushTarget n target m)
  = if String.eqb n name then targetsOf name m ++ [target] else targetsOf name m.
Proof.
  unfold targetsOf. induction m as [| [k ts] rest IH]; cbn [pushTarget assoc].
  - destruct (String.eqb n name); reflexivity.
  - destruct (String.eqb_spec k n) as [-> | Hkn]; cbn [assoc].
    + destruct (String.eqb n name); reflexivity.
    + destruct (String.eqb_spec k name) as [-> | Hk].
      * destruct (String.eqb_spec n name) as [-> | _]; [contradiction | reflexivity].
      * exact IH.
Qed.

Lemma targetsOf_dictionary name i dict m target :
  In target (targetsOf name
               (fold_left (fun acc entry => pushTarget (fst entry) (i, snd entry) acc) dict m))
  <-> In target (targetsOf name m) \/ (fst target = i /\ In (name, snd target) dict).
Proof.
  destruct target as [tm ti]. cbn [fst snd].
  revert m. induction dict as [| [n index] dict IH]; intros m; cbn [fold_left].
  - split; [auto | intros [H | [_ []]]; exact H].
  - rewrite IH, targetsOf_pushTarget. cbn [fst snd In].
    destruct (String.eqb_spec n name) as [-> | Hne].
    + rewrite in_app_iff. cbn [In]. split.
      * intros [[H | [[= <- <-] | []]] | [Hi Hd]]; auto.
      * intros [H | [Hi [[= <-] | Hd]]]; subst; auto.
    + split.
      * intros [H | [Hi Hd]]; auto.
      * intros [H | [Hi [[= Hn _] | Hd]]]; auto. contradiction.
Qed.

Lemma targetsOf_visit name i object m target :
  In target (targetsOf name (visit i object m))
  <-> In target (targetsOf name m) \/
      (fst target = i /\ isSkinnedMesh object = true /\ hasInfluences object = true /\
       exists dict, morphTargetDictionary object = Some dict /\ In (name, snd target) dict).
Proof.
  unfold visit, hasInfluences. destruct (isSkinnedMesh object).
  - destruct (morphTargetDictionary object) as [dict |].
    + destruct (morphTargetInfluences object).
      * rewrite targetsOf_dictionary. split.
        -- intros [H | [Hi Hd]]; [auto |]. right. repeat split; auto. exists dict. auto.
        -- intros [H | (Hi & _ & _ & d & [= <-] & Hd)]; auto.
      * split; [auto | intros [H | (_ & _ & [=] & _)]; exact H].
    + split; [auto | intros [H | (_ & _ & _ & d & [=] & _)]; exact H].
  - split; [auto | intros [H | (_ & [=] & _)]; exact H].
Qed.

Lemma targetsOf_traverse name objects i m target :
  In target (targetsOf name (traverse i objects m))
  <-> In target (targetsOf name m) \/
      exists j object dict,
        objects !! j = Some object /\ fst target = (i + j)%nat /\
        isSkinnedMesh object = true /\ morphTargetDictionary object = Some dict /\
        hasInfluences object = true /\ In (name, snd target) dict.
Proof.
  revert i m. induction objects as [| object rest IH]; intros i m; cbn [traverse].
  - split; [auto | intros [H | (j & o & d & [=] & _)]; exact H].
  - rewrite IH, targetsOf_visit. split.
    + intros [[H | (Hi & Hs & Hh & d & Hd & Hin)] | (j & o & d & Hj & Hi & Hs & Hd & Hh & Hin)].
      * auto.
      * right. exists 0%nat, object, d. repeat split; auto. lia.
      * right. exists (S j), o, d. repeat split; auto. lia.
    + intros [H | (j & o & d & Hj & Hi & Hs & Hd & Hh & Hin)]; [auto |].
      destruct j as [| j]; cbn in Hj.
      * injection Hj as <-. left. right. repeat split; auto; [lia |]. exists d. auto.
      * right. exists j, o, d. repeat split; auto. lia.
Qed.

(** After [setVRM], the map lists under a name exactly the targets
    [(mesh, index)] whose mesh is a skinned mesh of the scene with an
    influences array and a dictionary that maps the name to the index. *)
Theorem bound_map_round_trip v mm name target :
  In target (targetsOf name (morphTargetMap (setVRM v mm))) <-> recorded (scene v) name target.
Proof.
  cbn [setVRM morphTargetMap]. unfold buildMorphTargetMap, recorded.
  rewrite targetsOf_traverse. cbn [targetsOf assoc default In]. split.
  - intros [[] | (j & o & d & Hj & Hi & Hs & Hd & Hh & Hin)].
    exists o, d. rewrite Hi. repeat split; auto.
  - intros (o & d & Hj & Hs & Hd & Hh & Hin). right.
    exists (fst target), o, d. repeat split; auto.
Qed.

(** Names of the map. *)
Lemma pushTarget_names n target m k :
  In k (map fst (pushTarget n target m)) -> k = n \/ In k (map fst m).
Proof.
  induction m as [| [k0 ts] rest IH]; cbn [pushTarget map fst In].
  - intros [<- | []]. auto.
  - destruct (String.eqb k0 n); cbn [map fst In].
    + intros [H | H]; auto.
    + intros [H | H]; [auto |]. destruct (IH H); auto.
Qed.

Lemma pushTarget_NoDup n target m :
  List.NoDup (map fst m) -> List.NoDup (map fst (pushTarget n target m)).
Proof.
  induction m as [| [k ts] rest IH]; cbn [pushTarget map fst]; intros H.
  - repeat constructor. intros [].
  - inversion H as [| ? ? Hk Hrest]; subst.
    destruct (String.eqb_spec k n) as [-> | Hne]; cbn [map fst].
    + constructor; assumption.
    + constructor; [| apply IH, Hrest].
      intros Hin. apply pushTarget_names in Hin as [-> | Hin]; contradiction.
Qed.

Lemma visit_NoDup i object m : List.NoDup (map fst m) -> List.NoDup (map fst (visit i object m)).
Proof.
  unfold visit. destruct (isSkinnedMesh object); [| auto].
  destruct (morphTargetDictionary object) as [dict |]; [| auto].
  destruct (morphTargetInfluences object); [| auto].
  revert m. induction dict as [| entry dict IH]; intros m H; [exact H |].
  cbn [fold_left]. apply IH, pushTarget_NoDup, H.
Qed.

Lemma traverse_NoDup objects i m :
  List.NoDup (map fst m) -> List.NoDup (map fst (traverse i objects m)).
Proof.
  revert i m. induction objects as [| object rest IH]; intros i m H; [exact H |].
  cbn [traverse]. apply IH, visit_NoDup, H.
Qed.

(** After [setVRM], no channel name is listed twice by
    [getAvailableMorphs()], and [hasVRCMorphs()] holds exactly when one of
    the five VRC names is listed. *)
Theorem bound_map_names v mm :
  List.NoDup (getAvailableMorphs (setVRM v mm)) /\
  (hasVRCMorphs (setVRM v mm) = true <->
   exists name, In name vrcVowelMorphs /\ In name (getAvailableMorphs (setVRM v mm))).
Proof.
  split.
  - unfold getAvailableMorphs. cbn [setVRM morphTargetMap]. unfold buildMorphTargetMap.
    apply traverse_NoDup. constructor.
  - unfold hasVRCMorphs, getAvailableMorphs. rewrite existsb_exists. split.
    + intros (name & Hname & H). exists name. split; [exact Hname |].
      apply assoc_is_Some. destruct (assoc name _); [eexists; reflexivity | discriminate].
    + intros (name & Hname & H). exists name. split; [exact Hname |].
      apply assoc_is_Some in H as [ts ->]. reflexivity.
Qed.

(** ** The direct strategy *)

Lemma vrcGuard_writable sc target : vrcGuard sc target = true <-> vrcWritable sc target.
Proof.
  unfold vrcGuard, vrcWritable. destruct (sc !! fst target) as [mesh |].
  - rewrite andb_true_iff. split.
    + intros [H1 H2]. exists mesh. auto.
    + intros (m & [= <-] & H1 & H2). auto.
  - split; [discriminate | intros (m & [=] & _)].
Qed.

Lemma applyVRCTargets_cons weight target rest sc applied :
  applyVRCTargets weight (target :: rest) sc applied
  = if vrcGuard sc target
    then applyVRCTargets weight rest (writeSink weight target sc) true
    else applyVRCTargets weight rest sc applied.
Proof.
  cbn [applyVRCTargets]. unfold vrcGuard. destruct (sc !! fst target); reflexivity.
Qed.

Lemma vrcWritable_writeSink value u sc target :
  vrcWritable (writeSink value u sc) target <-> vrcWritable sc target.
Proof.
  unfold vrcWritable. rewrite MapperFacts.lookup_writeSink. split.
  - intros (mesh & Hl & Hv & Hh). destruct (sc !! fst target) as [mesh0 |]; [| discriminate].
    exists mesh0. split; [reflexivity |]. cbn in Hl. injection Hl as <-.
    destruct (decide _);
      rewrite ?MapperFacts.writeInfluence_hasVrcMorphs,
              ?MapperFacts.writeInfluence_hasInfluences in *; auto.
  - intros (mesh & Hl & Hv & Hh). rewrite Hl. cbn. eexists. split; [reflexivity |].
    destruct (decide _);
      rewrite ?MapperFacts.writeInfluence_hasVrcMorphs,
              ?MapperFacts.writeInfluence_hasInfluences; auto.
Qed.

Lemma vrcWritable_isSink sc target : vrcWritable sc target -> isSink sc target.
Proof. intros (mesh & Hl & _ & Hh). exists mesh. auto. Qed.

Lemma vrcWritable_applyVRCTargets weight targets sc applied target :
  vrcWritable (fst (applyVRCTargets weight targets sc applied)) target <-> vrcWritable sc target.
Proof.
  revert sc applied. induction targets as [| u rest IH]; intros sc applied; [reflexivity |].
  rewrite applyVRCTargets_cons. destruct (vrcGuard sc u); rewrite IH;
    [apply vrcWritable_writeSink | reflexivity].
Qed.

Lemma isSink_applyVRCTargets weight targets sc applied target :
  isSink (fst (applyVRCTargets weight targets sc applied)) target <-> isSink sc target.
Proof.
  revert sc applied. induction targets as [| u rest IH]; intros sc applied; [reflexivity |].
  rewrite applyVRCTargets_cons. destruct (vrcGuard sc u); rewrite IH;
    [apply MapperFacts.isSink_writeSink | reflexivity].
Qed.

Lemma applyVRCTargets_out weight targets sc applied target :
  ~ In target targets ->
  readSink (fst (applyVRCTargets weight targets sc applied)) target = readSink sc target.
Proof.
  revert sc applied. induction targets as [| u rest IH]; intros sc applied Hout; [reflexivity |].
  rewrite applyVRCTargets_cons.
  assert (Hrest : ~ In target rest) by (intros H; apply Hout; right; exact H).
  destruct (vrcGuard sc u); rewrite (IH _ _ Hrest); [| reflexivity].
  apply MapperFacts.readSink_writeSink_other. intros ->. apply Hout. left. reflexivity.
Qed.

Lemma applyVRCTargets_keep weight targets sc applied target :
  readSink sc target = Some weight ->
  readSink (fst (applyVRCTargets weight targets sc applied)) target = Some weight.
Proof.
  revert sc applied. induction targets as [| u rest IH]; intros sc applied H; [exact H |].
  rewrite applyVRCTargets_cons. destruct (vrcGuard sc u); apply IH; [| exact H].
  apply MapperFacts.readSink_writeSink_keep, H.
Qed.

(** A target of the list that passes the guard is written, and the loop
    reports a write. *)
Lemma applyVRCTargets_in weight targets sc applied target :
  In target targets -> vrcWritable sc target ->
  readSink (fst (applyVRCTargets weight targets sc applied)) target = Some weight /\
  snd (applyVRCTargets weight targets sc applied) = true.
Proof.
  revert sc applied. induction targets as [| u rest IH]; intros sc applied Hin Hw; [destruct Hin |].
  rewrite applyVRCTargets_cons. destruct Hin as [-> | Hin].
  - rewrite (proj2 (vrcGuard_writable sc target) Hw). split.
    + apply applyVRCTargets_keep, MapperFacts.readSink_writeSink_same, vrcWritable_isSink, Hw.
    + apply MapperFacts.applyVRCTargets_flag.
  - destruct (vrcGuard sc u); apply IH; try assumption.
    apply vrcWritable_writeSink, Hw.
Qed.

(** A mesh without any VRC name in its dictionary is left as it is. *)
Lemma applyVRCTargets_other_mesh weight targets sc applied m mesh :
  sc !! m = Some mesh -> hasVrcMorphs mesh = false ->
  fst (applyVRCTargets weight targets sc applied) !! m = Some mesh.
Proof.
  revert sc applied. induction targets as [| u rest IH]; intros sc applied Hm Hv; [exact Hm |].
  rewrite applyVRCTargets_cons. destruct (vrcGuard sc u) eqn:Hg; apply IH; try assumption.
  rewrite MapperFacts.lookup_writeSink, Hm. cbn.
  destruct (decide (fst u = m)) as [<- | _]; [| reflexivity].
  unfold vrcGuard in Hg. rewrite Hm, Hv in Hg. discriminate.
Qed.

Lemma applyVRCEntries_cons map vowel weight rest sc applied :
  applyVRCEntries map ((vowel, weight) :: rest) sc applied
  = match assoc vowel vrcMapping with
    | Some morphName =>
      match assoc morphName map with
      | Some targets =>
        applyVRCEntries map rest (fst (applyVRCTargets weight targets sc applied))
                        (snd (applyVRCTargets weight targets sc applied))
      | None => applyVRCEntries map rest sc applied
      end
    | None => applyVRCEntries map rest sc applied
    end.
Proof.
  cbn [applyVRCEntries]. destruct (assoc vowel vrcMapping) as [morphName |]; [| reflexivity].
  destruct (assoc morphName map) as [targets |]; [| reflexivity].
  destruct (applyVRCTargets weight targets sc applied). reflexivity.
Qed.

(** A property of the scene that every inner loop keeps is kept by the
    outer loop. *)
Lemma applyVRCEntries_preserves (Q : list Mesh -> Prop) map ws sc applied :
  (forall vowel weight morphName targets sc1 applied1,
      In (vowel, weight) ws -> assoc vowel vrcMapping = Some morphName ->
      assoc morphName map = Some targets -> Q sc1 ->
      Q (fst (applyVRCTargets weight targets sc1 applied1))) ->
  Q sc -> Q (fst (applyVRCEntries map ws sc applied)).
Proof.
  revert sc applied. induction ws as [| [vowel weight] rest IH]; intros sc applied Hstep HQ;
    [exact HQ |].
  assert (Hrest : forall vowel weight morphName targets sc1 applied1,
             In (vowel, weight) rest -> assoc vowel vrcMapping = Some morphName ->
             assoc morphName map = Some targets -> Q sc1 ->
             Q (fst (applyVRCTargets weight targets sc1 applied1)))
    by (intros; eapply Hstep; eauto; right; assumption).
  rewrite applyVRCEntries_cons.
  destruct (assoc vowel vrcMapping) as [morphName |] eqn:E1; [| apply IH; assumption].
  destruct (assoc morphName map) as [targets |] eqn:E2; [| apply IH; assumption].
  apply IH; [exact Hrest |]. eapply Hstep; eauto. left. reflexivity.
Qed.

(** The table of VRC names. *)
Lemma vrcMapping_cases vowel morphName :
  assoc vowel vrcMapping = Some morphName ->
  In (vowel, morphName)
     [("aa", "vrc.v_aa"); ("e", "vrc.v_e"); ("ih", "vrc.v_ih");
      ("oh", "vrc.v_oh"); ("ou", "vrc.v_ou")]%string.
Proof. apply assoc_In. Qed.

Lemma vrcMapping_range vowel morphName :
  assoc vowel vrcMapping = Some morphName -> In morphName vrcVowelMorphs.
Proof.
  intros H. apply vrcMapping_cases in H. cbn in H |- *.
  destruct H as [[= _ <-] | [[= _ <-] | [[= _ <-] | [[= _ <-] | [[= _ <-] | []]]]]]; auto 6.
Qed.

Lemma vrcMapping_injective vowel1 vowel2 morphName :
  assoc vowel1 vrcMapping = Some morphName -> assoc vowel2 vrcMapping = Some morphName ->
  vowel1 = vowel2.
Proof.
  intros H1 H2. apply vrcMapping_cases in H1, H2. cbn in H1, H2.
  destruct H1 as [[= <- <-] | [[= <- <-] | [[= <- <-] | [[= <- <-] | [[= <- <-] | []]]]]];
    destruct H2 as [[= <-] | [[= <-] | [[= <-] | [[= <-] | [[= <-] | []]]]]];
    reflexivity.
Qed.

(** The frame of the direct strategy: a sink outside the channels with
    VRC names is not written, and a mesh whose dictionary has none of the
    VRC names is not touched at all. *)
Theorem direct_strategy_frame map vowelWeights sc :
  (forall target, outsideVrc map target ->
     readSink (fst (applyVRCMorphs map vowelWeights sc)) target = readSink sc target) /\
  (forall m mesh, sc !! m = Some mesh -> hasVrcMorphs mesh = false ->
     fst (applyVRCMorphs map vowelWeights sc) !! m = Some mesh).
Proof.
  unfold applyVRCMorphs. split.
  - intros target Hout.
    apply (applyVRCEntries_preserves (fun sc1 => readSink sc1 target = readSink sc target));
      [| reflexivity].
    intros vowel weight morphName targets sc1 applied1 _ Hname Htargets HQ.
    rewrite applyVRCTargets_out; [exact HQ |].
    apply (Hout morphName targets); [eapply vrcMapping_range; exact Hname | exact Htargets].
  - intros m mesh Hm Hv.
    apply (applyVRCEntries_preserves (fun sc1 => sc1 !! m = Some mesh)); [| exact Hm].
    intros vowel weight morphName targets sc1 applied1 _ _ _ HQ.
    apply applyVRCTargets_other_mesh; assumption.
Qed.

(** The outer loop writes the weight of a vowel to a sink of its channel,
    when no other VRC channel shares that sink. *)
Lemma applyVRCEntries_writes map ws sc applied vowel weight morphName targets target :
  List.NoDup (List.map fst ws) -> In (vowel, weight) ws ->
  assoc vowel vrcMapping = Some morphName -> assoc morphName map = Some targets ->
  In target targets -> vrcWritable sc target ->
  (forall morphName' targets',
      In morphName' vrcVowelMorphs -> morphName' <> morphName ->
      assoc morphName' map = Some targets' -> ~ In target targets') ->
  readSink (fst (applyVRCEntries map ws sc applied)) target = Some weight /\
  snd (applyVRCEntries map ws sc applied) = true.
Proof.
  intros Hnodup Hin Hname Htargets Htarget Hw Halone.
  revert sc applied Hw.
  induction ws as [| [k y] rest IH]; intros sc applied Hw; [destruct Hin |].
  inversion Hnodup as [| ? ? Hk Hrest]; subst.
  rewrite applyVRCEntries_cons. destruct Hin as [[= -> ->] | Hin].
  - rewrite Hname, Htargets.
    destruct (applyVRCTargets_in weight targets sc applied target Htarget Hw) as [Hread Hflag].
    rewrite Hflag. split; [| apply MapperFacts.applyVRCEntries_flag].
    apply (applyVRCEntries_preserves (fun sc1 => readSink sc1 target = Some weight));
      [| exact Hread].
    intros k' y' name' targets' sc1 applied1 Hin' Hname' Htargets' HQ.
    rewrite applyVRCTargets_out; [exact HQ |].
    apply (Halone name' targets'); [eapply vrcMapping_range; exact Hname' | | exact Htargets'].
    intros ->. apply Hk.
    rewrite (vrcMapping_injective _ _ _ Hname Hname').
    apply (in_map fst) in Hin'. exact Hin'.
  - destruct (assoc k vrcMapping) as [name' |] eqn:E1; [| apply IH; assumption].
    destruct (assoc name' map) as [targets' |] eqn:E2; [| apply IH; assumption].
    apply IH; try assumption. apply vrcWritable_applyVRCTargets, Hw.
Qed.

Lemma entries_NoDup w : List.NoDup (List.map fst (Vowel.entries w)).
Proof.
  cbn. repeat (constructor; [cbn; intuition discriminate |]). constructor.
Qed.

Lemma get_entries key w x : Vowel.get key w = Some x -> In (key, x) (Vowel.entries w).
Proof.
  intros H. cbn.
  destruct (VowelFacts.get_cases _ _ _ H)
    as [[-> ->] | [[-> ->] | [[-> ->] | [[-> ->] | [-> ->]]]]]; auto 6.
Qed.

(** With the direct strategy enabled, [applyVowelWeights] leaves the
    weight of a vowel in every sink of that vowel's VRC channel whose
    mesh passes the guard, provided no other VRC channel shares the sink;
    the only library call is the recompute. *)
Theorem direct_strategy_writes vowelWeights mm v vowel weight morphName targets target :
  vrm mm = Some v -> useVRCMorphs (config mm) = true ->
  Vowel.get vowel vowelWeights = Some weight ->
  assoc vowel vrcMapping = Some morphName ->
  assoc morphName (morphTargetMap mm) = Some targets ->
  In target targets -> vrcWritable (scene v) target ->
  (forall morphName' targets',
      In morphName' vrcVowelMorphs -> morphName' <> morphName ->
      assoc morphName' (morphTargetMap mm) = Some targets' -> ~ In target targets') ->
  exists v',
    vrm (applyVowelWeights vowelWeights mm) = Some v' /\
    readSink (scene v') target = Some weight /\
    calls v' = calls v ++ [VrmUpdate (16 / 1000)].
Proof.
  intros Hv Hvrc Hget Hname Htargets Htarget Hw Halone.
  destruct (applyVRCEntries_writes (morphTargetMap mm) (Vowel.entries vowelWeights)
              (scene v) false vowel weight morphName targets target
              (entries_NoDup vowelWeights) (get_entries _ _ _ Hget)
              Hname Htargets Htarget Hw Halone) as [Hread Hflag].
  unfold applyVowelWeights. rewrite Hv, Hvrc. unfold applyVRCMorphs.
  destruct (applyVRCEntries (morphTargetMap mm) (Vowel.entries vowelWeights) (scene v) false)
    as [sc1 applied1]. cbn [fst snd] in Hread, Hflag. subst applied1.
  eexists. split; [reflexivity |]. split; [exact Hread | reflexivity].
Qed.

(** Scenario A: the input (1, 0, 0, 0, 0) leaves 1 in the sink of
    "vrc.v_aa" and 0 in the sink of "vrc.v_ih". *)
Lemma direct_strategy_writes_witness :
  exists v',
    vrm (applyVowelWeights (Vowel.mk 1 0 0 0 0)
           (Scenario.mapperFor (Scenario.avatarA (1 / 2)) None None)) = Some v' /\
    readSink (scene v') (0%nat, 2%nat) = Some 0.
Proof.
  destruct (direct_strategy_writes (Vowel.mk 1 0 0 0 0)
              (Scenario.mapperFor (Scenario.avatarA (1 / 2)) None None)
              (Scenario.avatarA (1 / 2)) "ih" 0 "vrc.v_ih" [(0%nat, 2%nat)] (0%nat, 2%nat)
              eq_refl eq_refl eq_refl eq_refl eq_refl)
    as (v' & Hv' & Hread & _).
  - left. reflexivity.
  - eexists. repeat split; reflexivity.
  - intros name' targets' Hin Hne Hassoc. cbn in Hin.
    destruct Hin as [<- | [<- | [<- | [<- | [<- | []]]]]];
      try contradiction; injection Hassoc as <-; intros [[=] | []].
  - exists v'. split; [exact Hv' | exact Hread].
Defined.

(** ** The keyword fallback and manual writes *)

(** The fallback writes to no channel whose lower-cased name includes
    none of the patterns. *)
Theorem fallback_frame map vowelWeights sc target :
  (forall name targets pattern,
      In (name, targets) map -> In pattern alternativeMorphPatterns ->
      Js.includes pattern (Js.toLowerCase name) = true -> ~ In target targets) ->
  readSink (applyAlternativeMorphs map vowelWeights sc) target = readSink sc target.
Proof.
  intros Hout. unfold applyAlternativeMorphs.
  set (value := Vowel.maximum vowelWeights * (5 / 10)).
  apply (MapperFacts.fold_left_preserves
           (fun sc1 pattern => fold_left (fallbackEntry value pattern) map sc1)
           (fun sc1 => readSink sc1 target = readSink sc target)); [| reflexivity].
  intros sc1 pattern Hpattern H1.
  apply (MapperFacts.fold_left_preserves (fallbackEntry value pattern)
           (fun sc2 => readSink sc2 target = readSink sc target)); [| exact H1].
  intros sc2 [name targets] Hentry H2. unfold fallbackEntry. cbn [fst snd].
  destruct (Js.includes pattern (Js.toLowerCase name)) eqn:Hinc; [| exact H2].
  rewrite MapperFacts.readSink_writeTargets_out; [exact H2 |].
  apply (Hout name targets pattern); assumption.
Qed.

(** Scenario C with the fallback run on it: "mouth_open" matches a
    pattern and is written, "blink" matches none of the 22 patterns and
    keeps its value 0.3. *)
Lemma fallback_frame_witness :
  readSink (applyAlternativeMorphs
              (buildMorphTargetMap Scenario.avatarC) Scenario.weights08
              (scene Scenario.avatarC)) (0%nat, 1%nat)
  = Some (3 / 10).
Proof.
  rewrite fallback_frame; [reflexivity |].
  intros name targets pattern Hentry Hpattern Hinc Hin.
  cbn in Hentry. destruct Hentry as [[= <- <-] | [[= <- <-] | []]].
  - destruct Hin as [[=] | []].
  - cbn in Hpattern.
    repeat (destruct Hpattern as [<- | Hpattern]; [vm_compute in Hinc; discriminate |]).
    destruct Hpattern.
Defined.

(** [setMorphTarget] on a name the map does not have returns [false] and
    changes nothing; on a name it has, it returns [true], leaves the value
    clamped to [0, 1] in every sink of the channel, leaves the sinks
    outside the channel as they were, and asks for one recompute. *)
Theorem setMorphTarget_effect morphName value mm :
  (assoc morphName (morphTargetMap mm) = None ->
   setMorphTarget morphName value mm = (mm, false)) /\
  (forall targets v,
      assoc morphName (morphTargetMap mm) = Some targets -> vrm mm = Some v ->
      exists v',
        setMorphTarget morphName value mm = (withVRM v' mm, true) /\
        0 <= Rmax 0 (Rmin 1 value) <= 1 /\
        (0 <= value <= 1 -> Rmax 0 (Rmin 1 value) = value) /\
        (forall target, In target targets -> isSink (scene v) target ->
                        readSink (scene v') target = Some (Rmax 0 (Rmin 1 value))) /\
        (forall target, ~ In target targets ->
                        readSink (scene v') target = readSink (scene v) target) /\
        calls v' = calls v ++ [VrmUpdate (16 / 1000)]).
Proof.
  split.
  - intros H. unfold setMorphTarget. rewrite H. reflexivity.
  - intros targets v Hassoc Hv. unfold setMorphTarget. rewrite Hassoc, Hv.
    eexists. split; [reflexivity |]. cbn [update withScene scene calls].
    split; [unfold Rmax, Rmin; repeat destruct (Rle_dec _ _); lra |].
    split; [intros Hr; unfold Rmax, Rmin; repeat destruct (Rle_dec _ _); lra |].
    split; [intros; apply MapperFacts.readSink_writeTargets_in; assumption |].
    split; [intros; apply MapperFacts.readSink_writeTargets_out; assumption | reflexivity].
Qed.

(** ** Every call of [applyVowelWeights] *)

Lemma isSink_applyVRCMorphs map vowelWeights sc target :
  isSink (fst (applyVRCMorphs map vowelWeights sc)) target <-> isSink sc target.
Proof.
  unfold applyVRCMorphs.
  apply (applyVRCEntries_preserves (fun sc1 => isSink sc1 target <-> isSink sc target));
    [| reflexivity].
  intros vowel weight morphName targets sc1 applied1 _ _ _ HQ.
  rewrite isSink_applyVRCTargets. exact HQ.
Qed.

Lemma isSink_applyAlternativeMorphs map vowelWeights sc target :
  isSink (applyAlternativeMorphs map vowelWeights sc) target <-> isSink sc target.
Proof.
  unfold applyAlternativeMorphs.
  apply (MapperFacts.fold_left_preserves
           (fun sc1 pattern =>
              fold_left (fallbackEntry (Vowel.maximum vowelWeights * (5 / 10)) pattern) map sc1)
           (fun sc1 => isSink sc1 target <-> isSink sc target)); [| reflexivity].
  intros sc1 pattern _ H1. rewrite MapperFacts.isSink_fallbackRound. exact H1.
Qed.

(** On a bound mapper, whatever strategy runs, one call of
    [applyVowelWeights] ends with exactly one recompute, makes no other
    call than those of the expression manager before it, keeps the map,
    the configuration and the expression manager, and neither adds nor
    removes a sink. *)
Theorem apply_recomputes_once vowelWeights mm v :
  vrm mm = Some v ->
  exists v' exprCalls,
    vrm (applyVowelWeights vowelWeights mm) = Some v' /\
    calls v' = calls v ++ exprCalls ++ [VrmUpdate (16 / 1000)] /\
    Forall (fun c => forall delta, c <> VrmUpdate delta) exprCalls /\
    expressionManager v' = expressionManager v /\
    morphTargetMap (applyVowelWeights vowelWeights mm) = morphTargetMap mm /\
    config (applyVowelWeights vowelWeights mm) = config mm /\
    (forall target, isSink (scene v') target <-> isSink (scene v) target).
Proof.
  intros Hv. unfold applyVowelWeights. rewrite Hv.
  pose proof (isSink_applyVRCMorphs (morphTargetMap mm) vowelWeights (scene v)) as Hsink1.
  set (first := if useVRCMorphs (config mm)
                then applyVRCMorphs (morphTargetMap mm) vowelWeights (scene v)
                else (scene v, false)).
  assert (Hfirst : forall target, isSink (fst first) target <-> isSink (scene v) target).
  { intros target. unfold first. destruct (useVRCMorphs (config mm)); [apply Hsink1 | reflexivity]. }
  destruct first as [sc1 applied]. cbn [fst] in Hfirst.
  destruct applied.
  - exists (update (withScene sc1 v)), []. cbn. repeat split; auto; apply Hfirst.
  - cbn [withScene expressionManager].
    destruct (useExpressions (config mm) && expressionManager v) eqn:Hexp.
    + apply andb_true_iff in Hexp as [_ He].
      eexists _, [ExprSetValue "aa" (Vowel.aa vowelWeights); ExprSetValue "e" (Vowel.e vowelWeights);
                  ExprSetValue "i" (Vowel.ih vowelWeights); ExprSetValue "o" (Vowel.oh vowelWeights);
                  ExprSetValue "u" (Vowel.ou vowelWeights); ExprUpdate].
      split; [reflexivity |].
      unfold update, applyExpressions. cbn [withScene expressionManager calls scene].
      rewrite He. cbn [calls expressionManager scene].
      split; [rewrite <- app_assoc; reflexivity |].
      split; [repeat constructor; discriminate |].
      repeat split; auto; apply Hfirst.
    + eexists _, []. split; [reflexivity |].
      cbn [update withScene withVRM calls scene expressionManager morphTargetMap config app].
      split; [reflexivity |]. split; [constructor |].
      split; [reflexivity |]. split; [reflexivity |]. split; [reflexivity |].
      intros target. rewrite isSink_applyAlternativeMorphs. apply Hfirst.
Qed.

Lemma apply_recomputes_once_witness :
  exists v' exprCalls,
    vrm (applyVowelWeights Scenario.weights08
           (Scenario.mapperFor (Scenario.avatarB true) None None)) = Some v' /\
    calls v' = exprCalls ++ [VrmUpdate (16 / 1000)].
Proof.
  destruct (apply_recomputes_once Scenario.weights08
              (Scenario.mapperFor (Scenario.avatarB true) None None)
              (Scenario.avatarB true) eq_refl) as (v' & cs & Hv' & Hcalls & _).
  exists v', cs. split; [exact Hv' | exact Hcalls].
Defined.

(** Scenario A under the direct strategy: the sink of "jaw_drop" keeps
    its value. *)
Lemma direct_strategy_frame_witness :
  readSink (fst (applyVRCMorphs (buildMorphTargetMap (Scenario.avatarA (1 / 2)))
                   (Vowel.mk 1 0 0 0 0) (scene (Scenario.avatarA (1 / 2))))) (0%nat, 5%nat)
  = readSink (scene (Scenario.avatarA (1 / 2))) (0%nat, 5%nat).
Proof.
  apply (proj1 (direct_strategy_frame _ _ _)).
  intros name targets Hname Hassoc Hin. cbn in Hname.
  destruct Hname as [<- | [<- | [<- | [<- | [<- | []]]]]];
    injection Hassoc as <-; destruct Hin as [[=] | []].
Defined.

(** Scenario B: [setMorphTarget("mouth_open", 1.5)] leaves 1 in the
    sink. *)
Lemma setMorphTarget_effect_witness :
  exists v',
    setMorphTarget "mouth_open" (3 / 2) (Scenario.mapperFor (Scenario.avatarB false) None None)
    = (withVRM v' (Scenario.mapperFor (Scenario.avatarB false) None None), true) /\
    readSink (scene v') (0%nat, 0%nat) = Some 1.
Proof.
  destruct (proj2 (setMorphTarget_effect "mouth_open" (3 / 2)
                     (Scenario.mapperFor (Scenario.avatarB false) None None))
              [(0%nat, 0%nat)] (Scenario.avatarB false) eq_refl eq_refl)
    as (v' & Hset & _ & _ & Hread & _).
  exists v'. split; [exact Hset |].
  rewrite (Hread (0%nat, 0%nat)).
  - f_equal. unfold Rmax, Rmin. repeat destruct (Rle_dec _ _); lra.
  - left. reflexivity.
  - eexists. split; reflexivity.
Defined.

End MapperMore.

(* ===================================================================== *)
(** * More on the engine: status, ticks, start, configuration, tests *)
(* ===================================================================== *)

Module EngineMore.
Import LipSyncEngine.

(** ** [getStatus] *)

(** The reduction of [getStatus] returns its initial value or an entry
    strictly above it, and nothing in the list is above what it returns. *)
Lemma dominant_fold l init :
  snd init <= snd (fold_left dominantStep l init) /\
  Forall (fun entry => snd entry <= snd (fold_left dominantStep l init)) l /\
  (fold_left dominantStep l init = init \/
   (In (fold_left dominantStep l init) l /\ snd init < snd (fold_left dominantStep l init))).
Proof.
  revert init. induction l as [| entry rest IH]; intros init; cbn [fold_left].
  - split; [lra |]. split; [constructor | left; reflexivity].
  - destruct (IH (dominantStep init entry)) as (Hge & Hall & Hwhich).
    unfold dominantStep in *. destruct (Rgt_dec (snd entry) (snd init)) as [Hgt | Hle].
    + split; [lra |]. split; [constructor; assumption |].
      right. destruct Hwhich as [-> | [Hin Hlt]].
      * split; [left; reflexivity | lra].
      * split; [right; exact Hin | lra].
    + split; [lra |]. split; [constructor; [lra | assumption] |].
      destruct Hwhich as [-> | [Hin Hlt]]; [left; reflexivity |].
      right. split; [right; exact Hin | lra].
Qed.

Lemma dominant_fold_below l init :
  Forall (fun entry => snd entry <= snd init) l -> fold_left dominantStep l init = init.
Proof.
  induction 1 as [| entry rest Hle _ IH]; [reflexivity |].
  cbn [fold_left]. unfold dominantStep at 2.
  destruct (Rgt_dec (snd entry) (snd init)); [lra | exact IH].
Qed.

Lemma entries_get key x w : In (key, x) (Vowel.entries w) -> Vowel.get key w = Some x.
Proof.
  cbn. intros [[= <- <-] | [[= <- <-] | [[= <- <-] | [[= <- <-] | [[= <- <-] | []]]]]];
    reflexivity.
Qed.

(** [getStatus()] reports the running flag, the sum of the smoothed
    weights as the volume and a copy of the weights.  The vowel it names
    is "sil" exactly when no weight is positive; otherwise it is a vowel
    whose weight is positive and at least every other weight. *)
Theorem getStatus_dominant_vowel en :
  LipSyncStatus.isActive (getStatus en) = isRunning en /\
  LipSyncStatus.vowelWeights (getStatus en) = smoothedWeights en /\
  LipSyncStatus.currentVolume (getStatus en)
  = Vowel.aa (smoothedWeights en) + Vowel.e (smoothedWeights en)
    + Vowel.ih (smoothedWeights en) + Vowel.oh (smoothedWeights en)
    + Vowel.ou (smoothedWeights en) /\
  ((LipSyncStatus.currentVowel (getStatus en) = "sil"%string /\
    forall key x, Vowel.get key (smoothedWeights en) = Some x -> x <= 0) \/
   (exists x, Vowel.get (LipSyncStatus.currentVowel (getStatus en)) (smoothedWeights en) = Some x /\
              0 < x /\
              forall key y, Vowel.get key (smoothedWeights en) = Some y -> y <= x)).
Proof.
  split; [reflexivity |]. split; [reflexivity |].
  split; [apply VowelFacts.total_sum |].
  cbn [getStatus LipSyncStatus.currentVowel].
  destruct (dominant_fold (Vowel.entries (smoothedWeights en)) ("sil"%string, 0))
    as (_ & Hall & Hwhich).
  rewrite Forall_forall in Hall.
  assert (Hbound : forall key y, Vowel.get key (smoothedWeights en) = Some y ->
            y <= snd (fold_left dominantStep (Vowel.entries (smoothedWeights en))
                                ("sil"%string, 0))).
  { intros key y Hget.
    apply (Hall (key, y)), list_elem_of_In, MapperMore.get_entries, Hget. }
  destruct Hwhich as [Heq | [Hin Hlt]].
  - left. rewrite Heq in *. split; [reflexivity | exact Hbound].
  - right.
    destruct (fold_left dominantStep (Vowel.entries (smoothedWeights en)) ("sil"%string, 0))
      as [k x]. cbn [fst snd] in *.
    exists x. split; [apply entries_get, Hin |]. split; [exact Hlt | exact Hbound].
Qed.

(** After [stop()], [getStatus()] reports an inactive engine, volume 0,
    the vowel "sil" and the zero vector. *)
Theorem getStatus_after_stop en :
  LipSyncStatus.isActive (getStatus (stop en)) = false /\
  LipSyncStatus.currentVolume (getStatus (stop en)) = 0 /\
  LipSyncStatus.currentVowel (getStatus (stop en)) = "sil"%string /\
  LipSyncStatus.vowelWeights (getStatus (stop en)) = Vowel.zero.
Proof.
  split; [reflexivity |]. split.
  - cbn [getStatus LipSyncStatus.currentVolume]. rewrite EngineFacts.stop_weights.
    rewrite VowelFacts.total_sum. cbn. lra.
  - split; [| reflexivity].
    cbn [getStatus LipSyncStatus.currentVowel]. rewrite EngineFacts.stop_weights.
    rewrite dominant_fold_below; [reflexivity |].
    unfold Vowel.entries, Vowel.zero. repeat constructor; cbn; lra.
Qed.

(** ** Ticks *)

Lemma processLipSync_keeps analysis en :
  isRunning (processLipSync analysis en) = isRunning en /\
  vrmSet (processLipSync analysis en) = vrmSet en /\
  animationFrame (processLipSync analysis en) = animationFrame en /\
  lastUpdateTime (processLipSync analysis en) = lastUpdateTime en.
Proof. unfold processLipSync. destruct (Rlt_dec _ _); repeat split. Qed.

(** On a running engine a frame callback always records the handle of
    the next frame.  Sooner than [updateInterval] after the last processed
    tick it does nothing else; otherwise it records the time, whether or
    not an analysis is available.  It never changes the running flag or
    the configuration. *)
Theorem animate_throttle f en :
  isRunning en = true ->
  animationFrame (animate f en) = handle f /\
  isRunning (animate f en) = true /\
  config (animate f en) = config en /\
  (now f - lastUpdateTime en < updateInterval (config en) ->
   smoothedWeights (animate f en) = smoothedWeights en /\
   morphMapper (animate f en) = morphMapper en /\
   audioAnalyzer (animate f en) = audioAnalyzer en /\
   lastUpdateTime (animate f en) = lastUpdateTime en) /\
  (~ now f - lastUpdateTime en < updateInterval (config en) ->
   lastUpdateTime (animate f en) = now f).
Proof.
  intros Hrun. unfold animate. rewrite Hrun. cbn [negb].
  destruct (Rlt_dec (now f - lastUpdateTime en) (updateInterval (config en))) as [Hlt | Hge].
  - cbn. repeat split; auto; intros; contradiction.
  - destruct (AudioAnalyzer.analyze (spectrum f) (audioAnalyzer en)) as [[a' r] |].
    + match goal with
      | |- context [processLipSync r ?e] =>
        destruct (processLipSync_keeps r e) as (Hr & _ & Hf & Ht);
          rewrite Hf, Hr, Ht, SmoothingFacts.processLipSync_config
      end. cbn.
      repeat split; auto; intros; contradiction.
    + cbn. repeat split; auto; intros; contradiction.
Qed.

(** The running engine of scenario A, last processed at time 0 with the
    default interval of 16 ms: a callback at time 5 only records the
    handle. *)
Lemma animate_throttle_witness :
  animationFrame (animate (Scenario.frameAt 5) Scenario.runningEngine) = 2%nat /\
  smoothedWeights (animate (Scenario.frameAt 5) Scenario.runningEngine)
  = smoothedWeights Scenario.runningEngine.
Proof.
  destruct (animate_throttle (Scenario.frameAt 5) Scenario.runningEngine eq_refl)
    as (Hf & _ & _ & Hskip & _).
  split; [exact Hf |]. apply Hskip. cbn. lra.
Defined.

(** ** [start] *)

Lemma animate_isRunning f en : isRunning (animate f en) = isRunning en.
Proof.
  unfold animate. destruct (isRunning en) eqn:Hrun; cbn [negb]; [| exact Hrun].
  destruct (Rlt_dec _ _); [reflexivity |].
  destruct (AudioAnalyzer.analyze _ _) as [[a' r] |]; [| reflexivity].
  rewrite (proj1 (processLipSync_keeps _ _)). reflexivity.
Qed.

Lemma animate_config f en : config (animate f en) = config en.
Proof.
  unfold animate. destruct (negb (isRunning en)); [reflexivity |].
  destruct (Rlt_dec _ _); [reflexivity |].
  destruct (AudioAnalyzer.analyze _ _) as [[a' r] |]; [| reflexivity].
  rewrite SmoothingFacts.processLipSync_config. reflexivity.
Qed.

(** A frame callback leaves the node and the buffer where they are. *)
Lemma animate_canAnalyze f en :
  canAnalyze (audioAnalyzer (animate f en)) = canAnalyze (audioAnalyzer en).
Proof.
  unfold animate. destruct (negb (isRunning en)); [reflexivity |].
  destruct (Rlt_dec _ _); [reflexivity |].
  destruct (AudioAnalyzer.analyze (spectrum f) (audioAnalyzer en)) as [[a' r] |] eqn:E;
    [| reflexivity].
  rewrite EngineFacts.processLipSync_analyzer. cbn [audioAnalyzer].
  unfold AudioAnalyzer.analyze in E. unfold canAnalyze.
  destruct (AudioAnalyzer.analyser (audioAnalyzer en)); [| discriminate].
  destruct (AudioAnalyzer.dataArray (audioAnalyzer en)); [| discriminate].
  injection E as <- _. reflexivity.
Qed.

Lemma canAnalyze_analyze a :
  canAnalyze a = true <-> forall spectrum, is_Some (AudioAnalyzer.analyze spectrum a).
Proof.
  unfold canAnalyze, AudioAnalyzer.analyze.
  destruct (AudioAnalyzer.analyser a), (AudioAnalyzer.dataArray a); split; intros H;
    try reflexivity; try discriminate; try (intros; eexists; reflexivity);
    destruct (H []) as [x Hx]; discriminate.
Qed.

Lemma canAnalyze_false a spectrum :
  canAnalyze a = false -> AudioAnalyzer.analyze spectrum a = None.
Proof.
  unfold canAnalyze, AudioAnalyzer.analyze.
  destruct (AudioAnalyzer.analyser a), (AudioAnalyzer.dataArray a);
    try discriminate; reflexivity.
Qed.

Lemma startCall_stopped host audioElement en :
  isRunning (fst (startCall host audioElement en)) = false \/
  fst (startCall host audioElement en) = en.
Proof.
  unfold startCall. destruct (negb (vrmSet en)); [right; reflexivity |]. left.
  cbn [fst withAnalyzer isRunning]. destruct (isRunning en) eqn:E; [reflexivity | exact E].
Qed.

(** [start] is the call followed at once by its continuations, on a
    host that constructs the context and accepts the settings. *)
Lemma start_uninterrupted host audioElement f en :
  AudioAnalyzer.contextGranted host = true -> (4 <= AudioAnalyzer.settingsApplied host)%nat ->
  start (AudioAnalyzer.audio host) audioElement f en = startRun host audioElement f en.
Proof.
  intros Hc Hs. unfold start, startRun, startCall.
  destruct (negb (vrmSet en)); [reflexivity |].
  set (en1 := if isRunning en then stop en else en).
  rewrite (AnalyzerMore.initialize_uninterrupted host audioElement _ Hc Hs).
  unfold AudioAnalyzer.initializeRun. cbn [fst snd].
  destruct (AudioAnalyzer.initializeBegin host audioElement (audioAnalyzer en1))
    as [a1 [| resolved]]; cbn [fst snd withAnalyzer audioAnalyzer].
  - destruct (AudioAnalyzer.initializeResume host true audioElement a1) as [a2 [|]];
      reflexivity.
  - destruct resolved; reflexivity.
Qed.

(** [start], call by call.  Without an avatar the call returns [false]
    at once and changes nothing.  With one, the call leaves the engine
    stopped (an engine that was running has been through [stop()]) and
    keeps the configuration, and [start] has still to return.  When
    [initialize] has settled, the continuation returns whether it
    resolved: [false] changes nothing; [true] sets the running flag and
    schedules a frame, whatever happened since the call.  In particular,
    after a [stop()] between the call and the continuation [start] still
    returns [true] and leaves the engine running on a disposed analyzer,
    whose [analyze()] returns nothing; with nothing in between, the node
    and the buffer are there. *)
Theorem start_outcome host audioElement f en :
  (vrmSet en = false -> startCall host audioElement en = (en, None)) /\
  (vrmSet en = true ->
   let en1 := fst (startCall host audioElement en) in
   is_Some (snd (startCall host audioElement en)) /\
   isRunning en1 = false /\ config en1 = config en /\
   (isRunning en = true -> smoothedWeights en1 = Vowel.zero /\ animationFrame en1 = 0%nat) /\
   (forall en', startResume false f en' = (en', false)) /\
   (forall en', snd (startResume true f en') = true /\
                isRunning (fst (startResume true f en')) = true /\
                animationFrame (fst (startResume true f en')) = handle f /\
                config (fst (startResume true f en')) = config en') /\
   (let en2 := fst (startResume true f (stop en1)) in
    isRunning en2 = true /\ smoothedWeights en2 = Vowel.zero /\
    forall spectrum, AudioAnalyzer.analyze spectrum (audioAnalyzer en2) = None) /\
   (snd (startCall host audioElement en) = Some (AudioAnalyzer.Settled true) ->
    canAnalyze (audioAnalyzer (fst (startResume true f en1))) = true)).
Proof.
  split; [intros H; unfold startCall; rewrite H; reflexivity |].
  intros Hv en1.
  assert (Hcall : startCall host audioElement en
                  = (withAnalyzer
                       (fst (AudioAnalyzer.initializeBegin host audioElement
                               (audioAnalyzer (if isRunning en then stop en else en))))
                       (if isRunning en then stop en else en),
                     Some (snd (AudioAnalyzer.initializeBegin host audioElement
                               (audioAnalyzer (if isRunning en then stop en else en))))))
    by (unfold startCall; rewrite Hv; reflexivity).
  assert (Hresume : forall en',
            snd (startResume true f en') = true /\
            isRunning (fst (startResume true f en')) = true /\
            animationFrame (fst (startResume true f en')) = handle f /\
            config (fst (startResume true f en')) = config en').
  { intros en'. unfold startResume. cbn [fst snd].
    split; [reflexivity |]. split; [rewrite animate_isRunning; reflexivity |].
    split; [| rewrite animate_config; reflexivity].
    unfold animate. cbn [isRunning negb].
    destruct (Rlt_dec _ _); [reflexivity |].
    destruct (AudioAnalyzer.analyze _ _) as [[a' r] |]; [| reflexivity].
    unfold processLipSync. destruct (Rlt_dec _ _); reflexivity. }
  split; [rewrite Hcall; eexists; reflexivity |].
  split; [unfold en1; rewrite Hcall; cbn [fst withAnalyzer isRunning];
          destruct (isRunning en) eqn:E; [reflexivity | exact E] |].
  split; [unfold en1; rewrite Hcall; cbn [fst withAnalyzer config];
          destruct (isRunning en); reflexivity |].
  split; [intros Hrun; unfold en1; rewrite Hcall, Hrun; split; reflexivity |].
  split; [reflexivity |].
  split; [exact Hresume |].
  split.
  - intros en2. split; [apply Hresume |].
    assert (Hnode : AudioAnalyzer.analyser
                      (audioAnalyzer (mkEngine (vrmSet (stop en1)) (audioAnalyzer (stop en1))
                         (morphMapper (stop en1)) (config (stop en1)) (animationFrame (stop en1))
                         true (smoothedWeights (stop en1)) (lastUpdateTime (stop en1)))) = None)
      by reflexivity.
    destruct (EngineFacts.animate_unbound f _ Hnode) as (Hw & _ & Ha).
    unfold en2, startResume. cbn [fst]. rewrite Hw, Ha.
    split; [reflexivity |]. intros spectrum. reflexivity.
  - unfold en1. rewrite Hcall. cbn [fst snd]. intros [= Hsettled].
    unfold startResume. cbn [fst]. rewrite animate_canAnalyze.
    cbn [audioAnalyzer withAnalyzer].
    set (a := audioAnalyzer (if isRunning en then stop en else en)) in *.
    unfold AudioAnalyzer.initializeBegin, AudioAnalyzer.initializeFrom in *.
    assert (Hfin : forall c,
              snd (match AudioAnalyzer.state c with
                   | AudioAnalyzer.suspended =>
                     (AudioAnalyzer.withContext c a, AudioAnalyzer.Suspended)
                   | _ => ((AudioAnalyzer.initializeFinish host audioElement
                              (AudioAnalyzer.withContext c a)).1,
                           AudioAnalyzer.Settled
                             (AudioAnalyzer.initializeFinish host audioElement
                                (AudioAnalyzer.withContext c a)).2)
                   end) = AudioAnalyzer.Settled true ->
              canAnalyze (fst (match AudioAnalyzer.state c with
                   | AudioAnalyzer.suspended =>
                     (AudioAnalyzer.withContext c a, AudioAnalyzer.Suspended)
                   | _ => ((AudioAnalyzer.initializeFinish host audioElement
                              (AudioAnalyzer.withContext c a)).1,
                           AudioAnalyzer.Settled
                             (AudioAnalyzer.initializeFinish host audioElement
                                (AudioAnalyzer.withContext c a)).2)
                   end)) = true).
    { intros c. destruct (AudioAnalyzer.state c); cbn [fst snd]; try discriminate;
        intros [= Hok];
        destruct (AudioAnalyzer.initializeFinish host audioElement
                    (AudioAnalyzer.withContext c a)) as [a1 ok] eqn:E;
        cbn [fst snd] in *; subst ok;
        destruct (AnalyzerMore.initializeFinish_resolved _ _ _ _ E) as ([n Hn] & [d Hd] & _);
        unfold canAnalyze; rewrite Hn, Hd; reflexivity. }
    destruct (AudioAnalyzer.audioContext a) as [c |]; [apply Hfin, Hsettled |].
    destruct (AudioAnalyzer.contextGranted host); [apply Hfin, Hsettled | discriminate].
Qed.

(** The idle engine of scenario A, [start] called on a host that grants
    everything and [stop()] called before [start] continues: the engine
    runs, and a tick finds no analysis. *)
Lemma start_outcome_witness :
  let en1 := fst (startCall Scenario.grantingAnswers 0 Scenario.idleEngine) in
  let en2 := fst (startResume true (Scenario.frameAt 20) (stop en1)) in
  isRunning en2 = true /\
  AudioAnalyzer.analyze (spectrum (Scenario.frameAt 40)) (audioAnalyzer en2) = None.
Proof.
  intros en1 en2.
  destruct (proj2 (start_outcome Scenario.grantingAnswers 0 (Scenario.frameAt 20)
                     Scenario.idleEngine) eq_refl)
    as (_ & _ & _ & _ & _ & _ & (Hrun & _ & Hnone) & _).
  split; [exact Hrun | apply Hnone].
Defined.

(** ** [updateConfig] *)

Lemma assign_twice c p : assign (assign c p) p = assign c p.
Proof.
  unfold assign. cbn.
  destruct (p_sensitivity p), (p_smoothing p), (p_minVolume p), (p_updateInterval p);
    reflexivity.
Qed.

(** [updateConfig] replaces the fields it is given and keeps the others;
    it keeps the running state, the smoothed vector and the mapper; it
    keeps the analyzer when no [smoothing] is given; applying the same
    update twice is the same as once, and the empty update changes
    nothing. *)
Theorem updateConfig_merge p en :
  sensitivity (config (updateConfig p en)) = default (sensitivity (config en)) (p_sensitivity p) /\
  smoothing (config (updateConfig p en)) = default (smoothing (config en)) (p_smoothing p) /\
  minVolume (config (updateConfig p en)) = default (minVolume (config en)) (p_minVolume p) /\
  updateInterval (config (updateConfig p en))
  = default (updateInterval (config en)) (p_updateInterval p) /\
  (isRunning (updateConfig p en) = isRunning en /\
   smoothedWeights (updateConfig p en) = smoothedWeights en /\
   morphMapper (updateConfig p en) = morphMapper en) /\
  (p_smoothing p = None -> audioAnalyzer (updateConfig p en) = audioAnalyzer en) /\
  updateConfig p (updateConfig p en) = updateConfig p en /\
  updateConfig (mkPartial None None None None) en = en.
Proof.
  repeat split.
  - intros H. unfold updateConfig. rewrite H. reflexivity.
  - unfold updateConfig. cbn. rewrite assign_twice.
    destruct (p_smoothing p); reflexivity.
  - unfold updateConfig, assign. cbn. destruct en as [? ? ? c ? ? ? ?]. cbn.
    destruct c. reflexivity.
Qed.

(** ** The smoothed vector stays in range *)

Lemma lerp_unit x target s :
  0 <= s <= 1 -> 0 <= x <= 1 -> 0 <= target <= 1 -> 0 <= lerp x target (1 - s) <= 1.
Proof.
  intros Hs Hx Ht. unfold lerp.
  replace (x + (target - x) * (1 - s)) with (x * s + target * (1 - s)) by ring.
  assert (0 <= x * s) by nra. assert (x * s <= s) by nra.
  assert (0 <= target * (1 - s)) by nra. assert (target * (1 - s) <= 1 - s) by nra.
  lra.
Qed.

Lemma processLipSync_unit analysis en :
  0 <= smoothing (config en) <= 1 -> 0 <= sensitivity (config en) ->
  wellFormed analysis -> Vowel.inUnit (smoothedWeights en) ->
  Vowel.inUnit (smoothedWeights (processLipSync analysis en)).
Proof.
  intros Hs Hsens [Hvol (Ha & He & Hi & Ho & Hu)] (Ha' & He' & Hi' & Ho' & Hu').
  destruct (Rlt_dec (AudioAnalyzer.volume analysis * 100) (minVolume (config en)))
    as [Hsilent | Hloud].
  - rewrite (SmoothingFacts.processLipSync_silent _ _ Hsilent),
            SmoothingFacts.smoothToSilence_weights, SmoothingFacts.decayWeights_fields.
    unfold Vowel.inUnit. cbn [Vowel.aa Vowel.e Vowel.ih Vowel.oh Vowel.ou].
    repeat split; apply lerp_unit; try assumption; lra.
  - rewrite (SmoothingFacts.processLipSync_loud _ _ Hloud), SmoothingFacts.blendWeights_fields.
    set (sv := Rmin 1 (AudioAnalyzer.volume analysis * sensitivity (config en))).
    assert (Hsv : 0 <= sv <= 1).
    { unfold sv, Rmin. destruct (Rle_dec _ _); split; try lra; nra. }
    assert (Hprod : forall t, 0 <= t <= 1 -> 0 <= t * sv <= 1).
    { intros t Ht. split; [nra |]. assert (t * sv <= 1 * 1) by nra. lra. }
    unfold Vowel.inUnit. cbn [Vowel.aa Vowel.e Vowel.ih Vowel.oh Vowel.ou].
    repeat split; apply lerp_unit; try assumption; apply Hprod; assumption.
Qed.

Lemma proximity_le_total f formants key :
  MorphMapper.assoc key AudioAnalyzer.vowelFormants = Some formants ->
  AudioAnalyzer.proximity f formants <= Vowel.total (AudioAnalyzer.rawWeights f).
Proof.
  intros H. rewrite VowelFacts.total_sum.
  pose proof (AnalyzerFacts.rawWeights_nonneg f) as (Ha & He & Hi & Ho & Hu).
  rewrite AnalyzerFacts.rawWeights_fields in *. cbn [Vowel.aa Vowel.e Vowel.ih Vowel.oh Vowel.ou] in *.
  apply MapperMore.assoc_In in H. cbn in H.
  destruct H as [[= _ <-] | [[= _ <-] | [[= _ <-] | [[= _ <-] | [[= _ <-] | []]]]]]; lra.
Qed.

(** Every frame the analyzer returns is well formed. *)
Lemma analyze_wellFormed spectrum a a' r :
  AudioAnalyzer.analyze spectrum a = Some (a', r) -> wellFormed r.
Proof.
  intros H. destruct (AnalyzerFacts.analyze_Some _ _ _ _ H) as (arr & _ & _ & Hv & Hw).
  split; [rewrite Hv; apply AnalyzerFacts.volumeOf_nonneg |].
  rewrite Hw. set (f := AudioAnalyzer.dominantFrequency r).
  pose proof (AnalyzerFacts.rawWeights_total_pos f) as Ht.
  assert (Hone : forall key formants,
            MorphMapper.assoc key AudioAnalyzer.vowelFormants = Some formants ->
            0 <= AudioAnalyzer.proximity f formants / Vowel.total (AudioAnalyzer.rawWeights f) <= 1).
  { intros key formants Hk. split.
    - left. apply Rdiv_lt_0_compat; [apply AnalyzerFacts.proximity_pos | exact Ht].
    - apply AnalyzerFacts.div_le_1; [exact Ht | eapply proximity_le_total; exact Hk]. }
  pose proof (AnalyzerMore.calculateVowelWeights_get f "aa" (700, 1220) eq_refl) as Haa.
  pose proof (AnalyzerMore.calculateVowelWeights_get f "e" (530, 1840) eq_refl) as He.
  pose proof (AnalyzerMore.calculateVowelWeights_get f "ih" (390, 1990) eq_refl) as Hih.
  pose proof (AnalyzerMore.calculateVowelWeights_get f "oh" (570, 840) eq_refl) as Hoh.
  pose proof (AnalyzerMore.calculateVowelWeights_get f "ou" (370, 950) eq_refl) as Hou.
  change (Some (Vowel.aa (AudioAnalyzer.calculateVowelWeights f)) = Some
            (AudioAnalyzer.proximity f (700, 1220) / Vowel.total (AudioAnalyzer.rawWeights f)))
    in Haa.
  change (Some (Vowel.e (AudioAnalyzer.calculateVowelWeights f)) = Some
            (AudioAnalyzer.proximity f (530, 1840) / Vowel.total (AudioAnalyzer.rawWeights f)))
    in He.
  change (Some (Vowel.ih (AudioAnalyzer.calculateVowelWeights f)) = Some
            (AudioAnalyzer.proximity f (390, 1990) / Vowel.total (AudioAnalyzer.rawWeights f)))
    in Hih.
  change (Some (Vowel.oh (AudioAnalyzer.calculateVowelWeights f)) = Some
            (AudioAnalyzer.proximity f (570, 840) / Vowel.total (AudioAnalyzer.rawWeights f)))
    in Hoh.
  change (Some (Vowel.ou (AudioAnalyzer.calculateVowelWeights f)) = Some
            (AudioAnalyzer.proximity f (370, 950) / Vowel.total (AudioAnalyzer.rawWeights f)))
    in Hou.
  injection Haa as Haa. injection He as He. injection Hih as Hih.
  injection Hoh as Hoh. injection Hou as Hou.
  unfold Vowel.inUnit. rewrite Haa, He, Hih, Hoh, Hou.
  split; [apply (Hone "aa"%string (700, 1220) eq_refl) |].
  split; [apply (Hone "e"%string (530, 1840) eq_refl) |].
  split; [apply (Hone "ih"%string (390, 1990) eq_refl) |].
  split; [apply (Hone "oh"%string (570, 840) eq_refl) |].
  apply (Hone "ou"%string (370, 950) eq_refl).
Qed.

(** With [smoothing] in [0, 1] and a sensitivity that is not negative, a
    frame callback keeps every smoothed weight between 0 and 1, whatever
    spectrum the host reports. *)
Theorem animate_keeps_unit f en :
  0 <= smoothing (config en) <= 1 -> 0 <= sensitivity (config en) ->
  Vowel.inUnit (smoothedWeights en) ->
  Vowel.inUnit (smoothedWeights (animate f en)).
Proof.
  intros Hs Hsens Hunit. unfold animate.
  destruct (negb (isRunning en)); [exact Hunit |].
  destruct (Rlt_dec _ _); [exact Hunit |].
  destruct (AudioAnalyzer.analyze (spectrum f) (audioAnalyzer en)) as [[a' r] |] eqn:E;
    [| exact Hunit].
  apply processLipSync_unit; try assumption.
  eapply analyze_wellFormed. exact E.
Qed.

Lemma animate_keeps_unit_witness :
  Vowel.inUnit (smoothedWeights (animate (Scenario.frameAt 20) Scenario.runningEngine)).
Proof.
  apply animate_keeps_unit.
  - cbn. lra.
  - cbn. lra.
  - unfold Vowel.inUnit. cbn. lra.
Defined.

(** ** [testVowel] *)

(** The one-hot vector of [testVowel], read at one of the five keys. *)
Lemma get_one_hot key vowel weight morphName :
  MorphMapper.assoc key MorphMapper.vrcMapping = Some morphName ->
  Vowel.get key (Vowel.set vowel weight Vowel.zero)
  = Some (if String.eqb vowel key then weight else 0).
Proof.
  intros H. apply MapperMore.vrcMapping_cases in H. cbn in H.
  destruct H as [[= <- _] | [[= <- _] | [[= <- _] | [[= <- _] | [[= <- _] | []]]]]];
    unfold Vowel.set;
    repeat match goal with
           | |- context [String.eqb vowel ?k] =>
             destruct (String.eqb_spec vowel k) as [-> | ?]
           end; try reflexivity; congruence.
Qed.

(** On an avatar driven by the direct strategy, [testVowel(vowel, weight)]
    leaves [weight] in the sinks of that vowel's VRC channel and 0 in the
    sinks of the other four (for sinks that pass the guard and belong to
    one VRC channel only); it bypasses the smoothing: the smoothed vector,
    the running flag and the analyzer are as before.  A name that the
    [in] test of the source finds on the prototype, such as "toString",
    gives a sixth entry there; the direct strategy skips it, since the map
    has no such key, and the sinks read the same. *)
Theorem testVowel_drives_channels en v vowel weight key morphName targets target :
  vrmSet en = true ->
  MorphMapper.vrm (morphMapper en) = Some v ->
  MorphMapper.useVRCMorphs (MorphMapper.config (morphMapper en)) = true ->
  MorphMapper.assoc key MorphMapper.vrcMapping = Some morphName ->
  MorphMapper.assoc morphName (MorphMapper.morphTargetMap (morphMapper en)) = Some targets ->
  In target targets -> MorphMapper.vrcWritable (MorphMapper.scene v) target ->
  (forall morphName' targets',
      In morphName' MorphMapper.vrcVowelMorphs -> morphName' <> morphName ->
      MorphMapper.assoc morphName' (MorphMapper.morphTargetMap (morphMapper en)) = Some targets' ->
      ~ In target targets') ->
  sinkOf (testVowel vowel weight en) target = Some (if String.eqb vowel key then weight else 0) /\
  smoothedWeights (testVowel vowel weight en) = smoothedWeights en /\
  isRunning (testVowel vowel weight en) = isRunning en /\
  audioAnalyzer (testVowel vowel weight en) = audioAnalyzer en.
Proof.
  intros Hset Hv Hvrc Hname Htargets Htarget Hw Halone.
  unfold testVowel. rewrite Hset. cbn [negb smoothedWeights isRunning audioAnalyzer].
  split; [| repeat split].
  unfold sinkOf. cbn [morphMapper].
  destruct (MapperMore.applyVRCEntries_writes
              (MorphMapper.morphTargetMap (morphMapper en))
              (Vowel.entries (Vowel.set vowel weight Vowel.zero))
              (MorphMapper.scene v) false key
              (if String.eqb vowel key then weight else 0) morphName targets target
              (MapperMore.entries_NoDup _)
              (MapperMore.get_entries _ _ _ (get_one_hot key vowel weight morphName Hname))
              Hname Htargets Htarget Hw Halone) as [Hread Hflag].
  unfold MorphMapper.applyVowelWeights. rewrite Hv, Hvrc. unfold MorphMapper.applyVRCMorphs.
  destruct (MorphMapper.applyVRCEntries _ _ _ _) as [sc1 applied1].
  cbn [fst snd] in Hread, Hflag. subst applied1. exact Hread.
Qed.

(** Scenario A: [testVowel("oh", 0.6)] leaves 0.6 in the sink of
    "vrc.v_oh". *)
Lemma testVowel_drives_channels_witness :
  sinkOf (testVowel "oh" (6 / 10) Scenario.idleEngine) (0%nat, 3%nat) = Some (6 / 10).
Proof.
  destruct (testVowel_drives_channels Scenario.idleEngine (Scenario.avatarA 0) "oh" (6 / 10)
              "oh" "vrc.v_oh" [(0%nat, 3%nat)] (0%nat, 3%nat)
              eq_refl eq_refl eq_refl eq_refl eq_refl) as (Hread & _).
  - left. reflexivity.
  - eexists. repeat split; reflexivity.
  - intros name' targets' Hin Hne Hassoc. cbn in Hin.
    destruct Hin as [<- | [<- | [<- | [<- | [<- | []]]]]];
      try contradiction; injection Hassoc as <-; intros [[=] | []].
  - exact Hread.
Defined.

(** ** [runTestSequence] *)

Lemma rampWeight_cases i :
  (i <= 20)%nat ->
  0 <= rampWeight i <= 1 /\ rampWeight (20 - i) = rampWeight i.
Proof.
  intros Hi.
  do 21 (destruct i as [| i]; [unfold rampWeight; cbn; split; lra |]).
  lia.
Qed.

Lemma runStep_keeps s en :
  smoothedWeights (runStep s en) = smoothedWeights en /\
  isRunning (runStep s en) = isRunning en /\
  audioAnalyzer (runStep s en) = audioAnalyzer en /\
  config (runStep s en) = config en /\
  vrmSet (runStep s en) = vrmSet en.
Proof.
  destruct s as [vowel weight |]; [| repeat split].
  unfold runStep, testVowel. destruct (negb (vrmSet en)); repeat split.
Qed.

Lemma runSteps_keeps steps en :
  smoothedWeights (runSteps steps en) = smoothedWeights en /\
  isRunning (runSteps steps en) = isRunning en /\
  audioAnalyzer (runSteps steps en) = audioAnalyzer en /\
  config (runSteps steps en) = config en /\
  vrmSet (runSteps steps en) = vrmSet en.
Proof.
  revert en. induction steps as [| s rest IH]; intros en; [repeat split |].
  cbn [runSteps fold_left]. fold (runSteps rest (runStep s en)).
  destruct (IH (runStep s en)) as (H1 & H2 & H3 & H4 & H5).
  destruct (runStep_keeps s en) as (K1 & K2 & K3 & K4 & K5).
  rewrite H1, H2, H3, H4, H5. auto.
Qed.

(** Timers run the pending steps one by one. *)
Lemma timers_run_steps steps en :
  run (mkWorld en steps) (replicate (length steps) EvTimer) = mkWorld (runSteps steps en) [].
Proof.
  revert en. induction steps as [| s rest IH]; intros en; [reflexivity |].
  cbn [length replicate run fold_left dispatch]. unfold resume. cbn [pendingSteps engine].
  apply IH.
Qed.

Lemma testSequenceSteps_last :
  testSequenceSteps = firstn 109 testSequenceSteps ++ [StepReset].
Proof. vm_compute. reflexivity. Qed.

(** After [n] timers, the first [n] pending steps have run, in order. *)
Lemma timers_run_prefix n steps en :
  run (mkWorld en steps) (replicate n EvTimer)
  = mkWorld (runSteps (take n steps) en) (drop n steps).
Proof.
  revert steps en. induction n as [| n IH]; intros steps en.
  - rewrite take_0, drop_0. reflexivity.
  - destruct steps as [| s rest].
    + cbn [replicate run fold_left dispatch]. unfold resume. cbn [pendingSteps].
      fold (run (mkWorld en []) (replicate n EvTimer)). rewrite IH.
      rewrite take_nil, drop_nil. reflexivity.
    + cbn [replicate run fold_left dispatch]. unfold resume. cbn [pendingSteps engine].
      fold (run (mkWorld (runStep s en) rest) (replicate n EvTimer)). rewrite IH.
      reflexivity.
Qed.

(** The world [n] timers after [runTestSequence()] was invoked. *)
Lemma sequence_after n en pending :
  run (mkWorld en pending) (EvRunTestSequence :: replicate n EvTimer)
  = mkWorld (runSteps (take (S n) testSequenceSteps) en) (drop (S n) testSequenceSteps).
Proof.
  change (run (mkWorld en pending) (EvRunTestSequence :: replicate n EvTimer))
    with (run (resume (mkWorld en testSequenceSteps)) (replicate n EvTimer)).
  assert (Hhead : exists s rest, testSequenceSteps = s :: rest)
    by (eexists; eexists; vm_compute; reflexivity).
  destruct Hhead as (s & rest & Hsteps). rewrite Hsteps.
  unfold resume. cbn [pendingSteps engine]. rewrite timers_run_prefix. reflexivity.
Qed.

Lemma runSteps_snoc steps s en : runSteps (steps ++ [s]) en = runStep s (runSteps steps en).
Proof. unfold runSteps. rewrite fold_left_app. reflexivity. Qed.

(** The positions of the steps: vowel [k] occupies positions [22 k] to
    [22 k + 21], its ramp first and its reset last. *)
Lemma testSequenceSteps_vowel k vowel i :
  ["aa"; "e"; "ih"; "oh"; "ou"]%string !! k = Some vowel -> (i <= 20)%nat ->
  testSequenceSteps !! (22 * k + i)%nat = Some (StepVowel vowel (rampWeight i)).
Proof.
  intros Hk Hi.
  do 5 (destruct k as [| k];
        [injection Hk as <-;
         do 21 (destruct i as [| i]; [vm_compute; reflexivity |]); lia |]).
  discriminate.
Qed.

Lemma testSequenceSteps_reset k :
  (k < 5)%nat -> testSequenceSteps !! (22 * k + 21)%nat = Some StepReset.
Proof.
  intros Hk. do 5 (destruct k as [| k]; [vm_compute; reflexivity |]). lia.
Qed.

(** [runTestSequence()] has 110 steps: vowel number [k] of "aa", "e",
    "ih", "oh", "ou" takes steps [22 k] to [22 k + 21]; step [22 k + i],
    for [i] up to 20, is [testVowel(vowel, rampWeight i)], where the ramp
    0, 0.1, ... 1, ... 0 is symmetric and stays between 0 and 1; step
    [22 k + 21] is the mapper's [reset()].  Step 0 runs with the call and
    each timer runs the next step on the engine as the step before left
    it.  Left to run to its end, the sequence leaves nothing pending,
    every sink of the VRC channels at 0, and the smoothed vector, the
    running flag, the analyzer and the configuration as they were; a
    further timer does nothing. *)
Theorem test_sequence_completes en :
  (length testSequenceSteps = 110%nat /\
   (forall k vowel i,
       ["aa"; "e"; "ih"; "oh"; "ou"]%string !! k = Some vowel -> (i <= 20)%nat ->
       testSequenceSteps !! (22 * k + i)%nat = Some (StepVowel vowel (rampWeight i))) /\
   (forall k, (k < 5)%nat -> testSequenceSteps !! (22 * k + 21)%nat = Some StepReset) /\
   (forall i, (i <= 20)%nat -> 0 <= rampWeight i <= 1 /\ rampWeight (20 - i) = rampWeight i) /\
   rampWeight 0 = 0 /\ rampWeight 10 = 1) /\
  ((forall vowel weight en1, runStep (StepVowel vowel weight) en1 = testVowel vowel weight en1) /\
   (forall en1, morphMapper (runStep StepReset en1) = MorphMapper.reset (morphMapper en1)) /\
   (forall pending step,
       testSequenceSteps !! 0%nat = Some step ->
       engine (run (mkWorld en pending) [EvRunTestSequence]) = runStep step en) /\
   (forall n step,
       testSequenceSteps !! S n = Some step ->
       engine (run (mkWorld en []) (EvRunTestSequence :: replicate (S n) EvTimer))
       = runStep step (engine (run (mkWorld en []) (EvRunTestSequence :: replicate n EvTimer)))) /\
   (forall n,
       pendingSteps (run (mkWorld en []) (EvRunTestSequence :: replicate n EvTimer))
       = drop (S n) testSequenceSteps)) /\
  (let w := run (mkWorld en []) (EvRunTestSequence :: replicate 109 EvTimer) in
   pendingSteps w = [] /\
   MorphMapper.vrcZeroed (morphMapper (engine w)) /\
   smoothedWeights (engine w) = smoothedWeights en /\
   isRunning (engine w) = isRunning en /\
   audioAnalyzer (engine w) = audioAnalyzer en /\
   config (engine w) = config en /\
   dispatch w EvTimer = w).
Proof.
  split; [| split].
  - split; [reflexivity |]. split; [exact testSequenceSteps_vowel |].
    split; [exact testSequenceSteps_reset |]. split; [exact rampWeight_cases |].
    split; unfold rampWeight; cbn; lra.
  - split; [reflexivity |]. split; [reflexivity |]. split; [| split].
    + intros pending step Hstep.
      change [EvRunTestSequence] with (EvRunTestSequence :: replicate 0 EvTimer).
      rewrite (sequence_after 0 en pending). cbn [engine].
      rewrite (take_S_r _ _ _ Hstep), take_0. reflexivity.
    + intros n step Hstep. rewrite !sequence_after. cbn [engine].
      rewrite (take_S_r _ _ _ Hstep), runSteps_snoc. reflexivity.
    + intros n. rewrite sequence_after. reflexivity.
  - intros w.
    assert (Hw : w = mkWorld (runSteps testSequenceSteps en) []).
    { unfold w. rewrite sequence_after. reflexivity. }
    rewrite Hw. cbn [pendingSteps engine].
    destruct (runSteps_keeps testSequenceSteps en) as (H1 & H2 & H3 & H4 & _).
    split; [reflexivity |]. split.
    + rewrite testSequenceSteps_last. unfold runSteps. rewrite fold_left_app.
      cbn [fold_left runStep morphMapper]. apply EngineFacts.reset_vrcZeroed.
    + repeat split; assumption.
Qed.

(** The idle engine of scenario A: the step that runs at the 26th timer
    is [testVowel("e", 0.4)], applied to the engine as the 25th left it. *)
Lemma test_sequence_completes_witness :
  engine (run (mkWorld Scenario.idleEngine []) (EvRunTestSequence :: replicate 26 EvTimer))
  = testVowel "e" (rampWeight 4)
      (engine (run (mkWorld Scenario.idleEngine []) (EvRunTestSequence :: replicate 25 EvTimer))).
Proof.
  destruct (test_sequence_completes Scenario.idleEngine)
    as ((_ & Hat & _) & (Hvowel & _ & _ & Hnext & _) & _).
  rewrite <- Hvowel. apply Hnext.
  exact (Hat 1%nat "e"%string 4%nat eq_refl ltac:(lia)).
Defined.

End EngineMore.

(* ===================================================================== *)
(** * The manager's events *)
(* ===================================================================== *)

Module ManagerFacts.
Import VRMManager.

(** ** Sets of listeners *)

Lemma existsb_eqb_In l ls : existsb (Nat.eqb l) ls = true <-> In l ls.
Proof.
  rewrite existsb_exists. split.
  - intros (x & Hin & Heq). apply Nat.eqb_eq in Heq. subst. exact Hin.
  - intros Hin. exists l. split; [exact Hin | apply Nat.eqb_refl].
Qed.

Lemma In_setAdd l l' ls : In l' (setAdd l ls) <-> l' = l \/ In l' ls.
Proof.
  unfold setAdd. destruct (existsb (Nat.eqb l) ls) eqn:E.
  - apply existsb_eqb_In in E. split; [auto | intros [-> | H]; assumption].
  - rewrite in_app_iff. cbn. split; [intros [H | [<- | []]]; auto | intros [-> | H]; auto].
Qed.

Lemma NoDup_setAdd l ls : List.NoDup ls -> List.NoDup (setAdd l ls).
Proof.
  intros H. unfold setAdd. destruct (existsb (Nat.eqb l) ls) eqn:E; [exact H |].
  assert (Hnot : ~ In l ls).
  { intros Hin. apply existsb_eqb_In in Hin. congruence. }
  clear E. induction H as [| x xs Hx Hxs IH]; cbn.
  - repeat constructor. intros [].
  - constructor.
    + rewrite in_app_iff. cbn. intros [Hin | [<- | []]]; [contradiction |].
      apply Hnot. left. reflexivity.
    + apply IH. intros Hin. apply Hnot. right. exact Hin.
Qed.

Lemma setAdd_twice l ls : setAdd l (setAdd l ls) = setAdd l ls.
Proof.
  unfold setAdd at 1.
  replace (existsb (Nat.eqb l) (setAdd l ls)) with true; [reflexivity |].
  symmetry. apply existsb_eqb_In, In_setAdd. left. reflexivity.
Qed.

Lemma In_setDelete l l' ls : In l' (setDelete l ls) <-> l' <> l /\ In l' ls.
Proof.
  unfold setDelete. rewrite filter_In, negb_true_iff, Nat.eqb_neq. tauto.
Qed.

Lemma NoDup_setDelete l ls : List.NoDup ls -> List.NoDup (setDelete l ls).
Proof. apply List.NoDup_filter. Qed.

(** ** The table *)

Lemma getListeners_addListener ev ev' l table :
  getListeners ev' (addListener ev l table)
  = if decide (ev = ev')
    then Some (setAdd l (default [] (getListeners ev table)))
    else getListeners ev' table.
Proof.
  induction table as [| [e ls] rest IH]; cbn [addListener getListeners].
  - destruct (decide (ev = ev')); reflexivity.
  - destruct (decide (e = ev)) as [-> | Hne]; cbn [getListeners].
    + destruct (decide (ev = ev')); reflexivity.
    + destruct (decide (e = ev')) as [-> | Hne'].
      * destruct (decide (ev = ev')); [congruence | reflexivity].
      * exact IH.
Qed.

Lemma getListeners_removeListener ev ev' l table :
  getListeners ev' (removeListener ev l table)
  = if decide (ev = ev')
    then setDelete l <$> getListeners ev table
    else getListeners ev' table.
Proof.
  induction table as [| [e ls] rest IH]; cbn [removeListener getListeners].
  - destruct (decide (ev = ev')); reflexivity.
  - destruct (decide (e = ev)) as [-> | Hne]; cbn [getListeners].
    + destruct (decide (ev = ev')); reflexivity.
    + destruct (decide (e = ev')) as [-> | Hne'].
      * destruct (decide (ev = ev')); [congruence | reflexivity].
      * exact IH.
Qed.

Lemma listenersOf_on ev ev' l m :
  listenersOf ev' (on ev l m)
  = if decide (ev = ev') then setAdd l (listenersOf ev m) else listenersOf ev' m.
Proof.
  unfold listenersOf, on. cbn [eventListeners]. rewrite getListeners_addListener.
  destruct (decide (ev = ev')); reflexivity.
Qed.

Lemma listenersOf_off ev ev' l m :
  listenersOf ev' (off ev l m)
  = if decide (ev = ev') then setDelete l (listenersOf ev m) else listenersOf ev' m.
Proof.
  unfold listenersOf, off. cbn [eventListeners]. rewrite getListeners_removeListener.
  destruct (decide (ev = ev')); [| reflexivity].
  destruct (getListeners ev (eventListeners m)); reflexivity.
Qed.

Lemma deliveries_listenersOf ev d m :
  deliveries ev d m = map (fun l => mkDelivery l ev d) (listenersOf ev m).
Proof.
  unfold deliveries, listenersOf. destruct (getListeners ev (eventListeners m)); reflexivity.
Qed.

Lemma setsWellFormed_listenersOf ev m : setsWellFormed m -> List.NoDup (listenersOf ev m).
Proof.
  intros H. unfold listenersOf.
  destruct (getListeners ev (eventListeners m)) as [ls |] eqn:E; [apply (H ev ls E) | constructor].
Qed.

(** The listeners of an event form a set.  On a table whose sets have no
    repetition: [on] and [off] keep it so; a listener registered once or
    twice is delivered an emitted event exactly once; the listeners
    registered before stay registered; [off] removes the listener; and
    neither touches the listeners of another event. *)
Theorem listeners_form_a_set ev l m :
  setsWellFormed m ->
  setsWellFormed (on ev l m) /\ setsWellFormed (off ev l m) /\
  listenersOf ev (on ev l (on ev l m)) = listenersOf ev (on ev l m) /\
  (forall d, count_occ Nat.eq_dec (map listener (deliveries ev d (on ev l m))) l = 1%nat) /\
  (forall l', In l' (listenersOf ev m) -> In l' (listenersOf ev (on ev l m))) /\
  (forall d, ~ In l (map listener (deliveries ev d (off ev l (on ev l m))))) /\
  (forall ev', ev' <> ev ->
     listenersOf ev' (on ev l m) = listenersOf ev' m /\
     listenersOf ev' (off ev l m) = listenersOf ev' m).
Proof.
  intros Hwf.
  assert (Hon : setsWellFormed (on ev l m)).
  { intros ev' ls. unfold on. cbn [eventListeners]. rewrite getListeners_addListener.
    destruct (decide (ev = ev')); [| apply Hwf].
    intros [= <-]. apply NoDup_setAdd.
    destruct (getListeners ev (eventListeners m)) as [ls0 |] eqn:E;
      [apply (Hwf ev ls0 E) | constructor]. }
  assert (Hoff : setsWellFormed (off ev l m)).
  { intros ev' ls. unfold off. cbn [eventListeners]. rewrite getListeners_removeListener.
    destruct (decide (ev = ev')); [| apply Hwf].
    destruct (getListeners ev (eventListeners m)) as [ls0 |] eqn:E; [| discriminate].
    intros [= <-]. apply NoDup_setDelete, (Hwf ev ls0 E). }
  assert (Hmap : forall d m1, map listener (deliveries ev d m1) = listenersOf ev m1).
  { intros d m1. rewrite deliveries_listenersOf, map_map. cbn. apply map_id. }
  split; [exact Hon |]. split; [exact Hoff |].
  split.
  - rewrite !listenersOf_on, !decide_True by reflexivity. apply setAdd_twice.
  - split.
    + intros d. rewrite Hmap.
      apply (proj1 (List.NoDup_count_occ' Nat.eq_dec _)).
      * apply setsWellFormed_listenersOf, Hon.
      * rewrite listenersOf_on, decide_True by reflexivity. apply In_setAdd. left. reflexivity.
    + split.
      * intros l' Hin. rewrite listenersOf_on, decide_True by reflexivity.
        apply In_setAdd. right. exact Hin.
      * split.
        -- intros d. rewrite Hmap, listenersOf_off, decide_True by reflexivity.
           intros Hin. apply In_setDelete in Hin as [Hne _]. apply Hne. reflexivity.
        -- intros ev' Hne. rewrite listenersOf_on, listenersOf_off.
           rewrite !decide_False by congruence. split; reflexivity.
Qed.

(** ** The lip-sync events *)

Lemma setsWellFormed_on ev l m : setsWellFormed m -> setsWellFormed (on ev l m).
Proof.
  intros Hwf ev' ls. unfold on. cbn [eventListeners]. rewrite getListeners_addListener.
  destruct (decide (ev = ev')); [| apply Hwf].
  intros [= <-]. apply NoDup_setAdd.
  destruct (getListeners ev (eventListeners m)) as [ls0 |] eqn:E;
    [apply (Hwf ev ls0 E) | constructor].
Qed.

Lemma listeners_of_deliveries ev d ls :
  map listener (map (fun l => mkDelivery l ev d) ls) = ls.
Proof. rewrite map_map. cbn. apply map_id. Qed.

(** What the continuation of [lipSync.start] delivers. *)
Lemma lipSyncStartReturn_delivered success m :
  delivered (fst (lipSyncStartReturn success m))
  = delivered m ++ (if success
                    then map (fun l => mkDelivery l lipSyncStart NoData)
                             (listenersOf lipSyncStart m)
                    else []).
Proof.
  unfold lipSyncStartReturn. destruct success; cbn [fst emit delivered].
  - rewrite deliveries_listenersOf. reflexivity.
  - rewrite app_nil_r. reflexivity.
Qed.

Lemma lipSyncStartCall_keeps host audioElement m :
  delivered (fst (lipSyncStartCall host audioElement m)) = delivered m /\
  eventListeners (fst (lipSyncStartCall host audioElement m)) = eventListeners m.
Proof. unfold lipSyncStartCall. destruct (negb (vrmLoaded m)); split; reflexivity. Qed.

(** [lipSync.start] without a loaded avatar returns [false] at once: the
    engine is not called and nothing changes.  With one, the call runs the
    part of the engine's [start] that precedes its [await] and notifies
    nobody.  The notification comes when the engine's [start] has
    resolved: exactly when it resolved to [true], and to the listeners of
    [lipSyncStart] registered by then, the engine and the table being left
    alone.  So a listener registered between the call and its return is
    notified, once, and one removed in between is not. *)
Theorem lipSync_start_notifies host audioElement success l m :
  setsWellFormed m ->
  (vrmLoaded m = false -> lipSyncStartCall host audioElement m = (m, None)) /\
  (vrmLoaded m = true ->
   lipSyncStartCall host audioElement m
   = (withEngine (fst (LipSyncEngine.startCall host audioElement (lipSyncEngine m))) m,
      Some (snd (LipSyncEngine.startCall host audioElement (lipSyncEngine m))))) /\
  (snd (lipSyncStartReturn success m) = success /\
   delivered (fst (lipSyncStartReturn success m))
   = delivered m ++ (if success
                     then map (fun l' => mkDelivery l' lipSyncStart NoData)
                              (listenersOf lipSyncStart m)
                     else []) /\
   eventListeners (fst (lipSyncStartReturn success m)) = eventListeners m /\
   lipSyncEngine (fst (lipSyncStartReturn success m)) = lipSyncEngine m) /\
  (let m1 := fst (lipSyncStartCall host audioElement m) in
   (exists ds,
       delivered (fst (lipSyncStartReturn true (on lipSyncStart l m1))) = delivered m ++ ds /\
       count_occ Nat.eq_dec (map listener ds) l = 1%nat) /\
   (exists ds,
       delivered (fst (lipSyncStartReturn true (off lipSyncStart l m1))) = delivered m ++ ds /\
       ~ In l (map listener ds))).
Proof.
  intros Hwf.
  split; [intros H; unfold lipSyncStartCall; rewrite H; reflexivity |].
  split; [intros H; unfold lipSyncStartCall; rewrite H; reflexivity |].
  split.
  - split; [reflexivity |]. split; [apply lipSyncStartReturn_delivered |].
    unfold lipSyncStartReturn. destruct success; split; reflexivity.
  - intros m1.
    destruct (lipSyncStartCall_keeps host audioElement m) as [Hd Ht]. fold m1 in Hd, Ht.
    assert (Hls : listenersOf lipSyncStart m1 = listenersOf lipSyncStart m)
      by (unfold listenersOf; rewrite Ht; reflexivity).
    assert (Hwf1 : setsWellFormed m1) by (unfold setsWellFormed; rewrite Ht; exact Hwf).
    split.
    + eexists. split.
      * rewrite lipSyncStartReturn_delivered. cbn [on delivered]. rewrite Hd. reflexivity.
      * rewrite listeners_of_deliveries.
        apply (proj1 (List.NoDup_count_occ' Nat.eq_dec _)).
        -- apply setsWellFormed_listenersOf, setsWellFormed_on, Hwf1.
        -- rewrite listenersOf_on, decide_True by reflexivity. apply In_setAdd. left. reflexivity.
    + eexists. split.
      * rewrite lipSyncStartReturn_delivered. cbn [off delivered]. rewrite Hd. reflexivity.
      * rewrite listeners_of_deliveries, listenersOf_off, decide_True by reflexivity.
        intros Hin. apply In_setDelete in Hin as [Hne _]. apply Hne. reflexivity.
Qed.

(** The loaded manager of the scenario: listener 7 registers for
    [lipSyncStart] after [lipSync.start] was called and before the
    engine's [start] resolved to [true]; listeners 1 and 7 are notified. *)
Lemma lipSync_start_notifies_witness :
  map listener
      (delivered (fst (lipSyncStartReturn true
         (on lipSyncStart 7
             (fst (lipSyncStartCall Scenario.grantingAnswers 0 Scenario.loadedManager))))))
  = [1%nat; 7%nat].
Proof.
  set (m := on lipSyncStart 7
              (fst (lipSyncStartCall Scenario.grantingAnswers 0 Scenario.loadedManager))).
  assert (Hwf : setsWellFormed m).
  { intros ev ls H. destruct ev; vm_compute in H; try discriminate;
      injection H as <-; repeat constructor; cbn; intuition lia. }
  destruct (lipSync_start_notifies Scenario.grantingAnswers 0 true 7 m Hwf)
    as (_ & _ & (_ & Hdel & _) & _).
  rewrite Hdel. reflexivity.
Defined.

Lemma vrmUpdate_keeps delta en :
  LipSyncEngine.isRunning (vrmUpdate delta en) = LipSyncEngine.isRunning en /\
  LipSyncEngine.smoothedWeights (vrmUpdate delta en) = LipSyncEngine.smoothedWeights en.
Proof.
  unfold vrmUpdate. destruct (MorphMapper.vrm (LipSyncEngine.morphMapper en)); split; reflexivity.
Qed.

(** [lipSync.stop] notifies the listeners of [lipSyncStop] on every call,
    running or not, and after it [onFrame] notifies nobody.  While an
    avatar is loaded and the engine runs, [onFrame] delivers to every
    listener of [lipSyncFrame] the sum of the smoothed weights as the
    volume and the dominant vowel of [getStatus]; it forwards [delta] to
    the mixer and never changes the smoothed vector. *)
Theorem lipSync_frames_while_running delta m :
  delivered (lipSyncStopCall m)
  = delivered m ++ map (fun l => mkDelivery l lipSyncStop NoData) (listenersOf lipSyncStop m) /\
  delivered (onFrame delta (lipSyncStopCall m)) = delivered (lipSyncStopCall m) /\
  (LipSyncEngine.isRunning (lipSyncEngine m) = false ->
   delivered (onFrame delta m) = delivered m) /\
  (vrmLoaded m = true -> LipSyncEngine.isRunning (lipSyncEngine m) = true ->
   delivered (onFrame delta m)
   = delivered m ++
     map (fun l => mkDelivery l lipSyncFrame
            (FrameData (Vowel.total (LipSyncEngine.smoothedWeights (lipSyncEngine m)))
               (LipSyncEngine.LipSyncStatus.currentVowel
                  (LipSyncEngine.getStatus (lipSyncEngine m)))))
         (listenersOf lipSyncFrame m) /\
   mixerUpdates (onFrame delta m) = mixerUpdates m ++ [delta]) /\
  LipSyncEngine.smoothedWeights (lipSyncEngine (onFrame delta m))
  = LipSyncEngine.smoothedWeights (lipSyncEngine m).
Proof.
  assert (Hquiet : forall m0, LipSyncEngine.isRunning (lipSyncEngine m0) = false ->
            delivered (onFrame delta m0) = delivered m0).
  { intros m0 H. unfold onFrame. destruct (negb (vrmLoaded m0)); [reflexivity |].
    cbn [lipSyncEngine]. unfold LipSyncEngine.isActive.
    rewrite (proj1 (vrmUpdate_keeps delta _)), H. reflexivity. }
  split; [| split; [| split; [| split]]].
  - unfold lipSyncStopCall, emit. cbn [delivered withEngine].
    rewrite deliveries_listenersOf. reflexivity.
  - apply Hquiet. reflexivity.
  - apply Hquiet.
  - intros Hl Hr. unfold onFrame. rewrite Hl. cbn [negb lipSyncEngine].
    unfold LipSyncEngine.isActive. rewrite (proj1 (vrmUpdate_keeps delta _)), Hr.
    unfold emit. cbn [delivered mixerUpdates]. rewrite deliveries_listenersOf.
    unfold LipSyncEngine.getStatus.
    cbn [LipSyncEngine.LipSyncStatus.currentVolume LipSyncEngine.LipSyncStatus.currentVowel].
    rewrite (proj2 (vrmUpdate_keeps delta _)). split; reflexivity.
  - unfold onFrame. destruct (negb (vrmLoaded m)); [reflexivity |].
    cbn [lipSyncEngine]. unfold LipSyncEngine.isActive.
    destruct (LipSyncEngine.isRunning _); cbn [emit lipSyncEngine];
      apply (proj2 (vrmUpdate_keeps delta _)).
Qed.

(** The loaded manager of the scenario while its engine runs: both
    listeners of [lipSyncFrame] are notified, in the order they were
    registered. *)
Lemma lipSync_frames_while_running_witness :
  map listener
      (delivered (onFrame (1 / 60)
         (withEngine Scenario.runningEngine Scenario.loadedManager)))
  = [1%nat; 2%nat].
Proof.
  destruct (lipSync_frames_while_running (1 / 60)
              (withEngine Scenario.runningEngine Scenario.loadedManager))
    as (_ & _ & _ & Hrun & _).
  destruct (Hrun eq_refl eq_refl) as [Hdel _]. rewrite Hdel. reflexivity.
Defined.

(** An empty table: listener 4 registered for [lipSyncFrame] receives
    one delivery. *)
Lemma listeners_form_a_set_witness :
  count_occ Nat.eq_dec
    (map listener
       (deliveries lipSyncFrame NoData
          (on lipSyncFrame 4 (mkManager true Scenario.idleEngine [] [] []))))
    4%nat = 1%nat.
Proof.
  destruct (listeners_form_a_set lipSyncFrame 4 (mkManager true Scenario.idleEngine [] [] []))
    as (_ & _ & _ & Hcount & _).
  - intros ev ls. discriminate.
  - apply Hcount.
Defined.

End ManagerFacts.

(* ===================================================================== *)
(** * The engine with calls of [start] in flight *)
(* ===================================================================== *)

Module LifecycleFacts.
Import LipSyncEngine.

(** ** Lists of calls in flight *)

Lemma existsb_lookup {A} (f : A -> bool) (l : list A) k x :
  l !! k = Some x -> f x = true -> existsb f l = true.
Proof.
  revert k. induction l as [| y l IH]; intros [| k] Hk Hx; try discriminate.
  - injection Hk as ->. cbn. rewrite Hx. reflexivity.
  - cbn. rewrite (IH k Hk Hx). apply orb_true_r.
Qed.

Lemma existsb_insert {A} (f : A -> bool) (l : list A) k x :
  f x = false -> existsb f (<[k := x]> l) = true -> existsb f l = true.
Proof.
  intros Hx. revert k. induction l as [| y l IH]; intros [| k]; cbn; try (intros; assumption).
  - rewrite Hx. cbn. intros ->. apply orb_true_r.
  - destruct (f y); [reflexivity |]. cbn. apply IH.
Qed.

Lemma existsb_delete {A} (f : A -> bool) (l : list A) k :
  existsb f (delete k l) = true -> existsb f l = true.
Proof.
  revert k. induction l as [| y l IH]; intros [| k]; cbn; try (intros; assumption).
  - intros ->. apply orb_true_r.
  - destruct (f y); [reflexivity |]. cbn. apply IH.
Qed.

Lemma existsb_redirect i ps : existsb awaitsEngine (map (redirect i) ps) = false.
Proof.
  induction ps as [| p ps IH]; [reflexivity |].
  cbn [map existsb]. rewrite IH, orb_false_r.
  unfold redirect, awaitsEngine. destruct (stage p) as [[j |] same | r] eqn:E;
    cbn [stage]; rewrite ?E; reflexivity.
Qed.

(** ** What each call keeps *)



Lemma resume_keeps w :
  smoothedWeights (engine (resume w)) = smoothedWeights (engine w) /\
  isRunning (engine (resume w)) = isRunning (engine w) /\
  audioAnalyzer (engine (resume w)) = audioAnalyzer (engine w) /\
  config (engine (resume w)) = config (engine w).
Proof.
  unfold resume. destruct (pendingSteps w) as [| s rest]; [repeat split |].
  cbn [engine]. destruct (EngineMore.runStep_keeps s (engine w)) as (H1 & H2 & H3 & H4 & _).
  auto.
Qed.

Lemma testVowel_keeps vowel weight en :
  smoothedWeights (testVowel vowel weight en) = smoothedWeights en /\
  isRunning (testVowel vowel weight en) = isRunning en /\
  audioAnalyzer (testVowel vowel weight en) = audioAnalyzer en /\
  config (testVowel vowel weight en) = config en.
Proof. unfold testVowel. destruct (negb (vrmSet en)); repeat split. Qed.


(** ** The invariant *)







(** ** Silent ticks *)




Lemma ticks_snoc fs f en : ticks (fs ++ [f]) en = animate f (ticks fs en).
Proof. unfold ticks. rewrite fold_left_app. reflexivity. Qed.




(** ** The scenario: one loud tick, then silence *)






(** ** A replaced analyzer and the calls in flight *)

Lemma existsb_contextsAfter a ps :
  existsb awaitsEngine (contextsAfter a ps) = existsb awaitsEngine ps.
Proof.
  unfold contextsAfter. destruct (AudioAnalyzer.audioContext a); [reflexivity |].
  induction ps as [| p ps IH]; [reflexivity |].
  cbn [map existsb]. rewrite IH. f_equal.
  unfold dropContext, awaitsEngine. destruct (stage p) as [[i |] same | r] eqn:E;
    cbn [stage]; rewrite ?E; reflexivity.
Qed.

Lemma existsb_false_insert {A} (f : A -> bool) (l : list A) k x :
  f x = false -> existsb f l = false -> existsb f (<[k := x]> l) = false.
Proof.
  intros Hx Hl. destruct (existsb f (<[k := x]> l)) eqn:E; [| reflexivity].
  rewrite (existsb_insert f l k x Hx E) in Hl. discriminate.
Qed.

Lemma existsb_false_delete {A} (f : A -> bool) (l : list A) k :
  existsb f l = false -> existsb f (delete k l) = false.
Proof.
  intros Hl. destruct (existsb f (delete k l)) eqn:E; [| reflexivity].
  rewrite (existsb_delete f l k E) in Hl. discriminate.
Qed.

(** Nothing but a new call of [start] ends the deafness. *)
Lemma act_deaf s a : isStartCall a = false -> deaf s -> deaf (act s a).
Proof.
  intros Ha [Hcan Hnone].
  destruct a as [v | f | | p | vowel weight | | | host el | k host | k f]; cbn [act];
    try discriminate.
  - split; [exact Hcan | exact Hnone].
  - split; cbn [world engine dispatch starts];
      [rewrite EngineMore.animate_canAnalyze; exact Hcan | exact Hnone].
  - split; cbn [world engine dispatch starts];
      [reflexivity | rewrite existsb_contextsAfter; exact Hnone].
  - destruct (p_smoothing p) as [x |] eqn:Hp; split;
      cbn [world engine dispatch starts updateConfig audioAnalyzer];
      rewrite ?Hp; try reflexivity; try assumption.
    apply existsb_redirect.
  - destruct (testVowel_keeps vowel weight (engine (world s))) as (_ & _ & K3 & _).
    split; cbn [world engine dispatch starts]; [rewrite K3; exact Hcan | exact Hnone].
  - destruct (resume_keeps (mkWorld (engine (world s)) testSequenceSteps)) as (_ & _ & K3 & _).
    split; cbn [world engine dispatch starts] in *; [rewrite K3; exact Hcan | exact Hnone].
  - destruct (resume_keeps (world s)) as (_ & _ & K3 & _).
    split; cbn [world engine dispatch starts]; [rewrite K3; exact Hcan | exact Hnone].
  - destruct (starts s !! k) as [[el [[i |] same | resolved]] |] eqn:Ek;
      try (split; assumption).
    + destruct (replaced s !! i) as [old |]; [| split; assumption].
      split; cbn [world engine starts]; [exact Hcan |].
      apply existsb_false_insert; [reflexivity | exact Hnone].
    + rewrite (existsb_lookup awaitsEngine _ _ _ Ek eq_refl) in Hnone. discriminate.
  - destruct (starts s !! k) as [[el [[i |] same | resolved]] |] eqn:Ek;
      try (split; assumption).
    split; cbn [world engine starts]; [| apply existsb_false_delete, Hnone].
    destruct resolved; cbn [startResume fst]; [| exact Hcan].
    rewrite EngineMore.animate_canAnalyze. exact Hcan.
Qed.

Lemma perform_deaf actions s :
  forallb (fun a => negb (isStartCall a)) actions = true -> deaf s -> deaf (perform s actions).
Proof.
  revert s. induction actions as [| a rest IH]; intros s Hall Hs; [exact Hs |].
  cbn [forallb] in Hall. apply andb_true_iff in Hall as [Ha Hrest].
  apply (IH (act s a) Hrest), act_deaf; [| exact Hs].
  destruct (isStartCall a); [discriminate | reflexivity].
Qed.

(** [updateConfig] with a [smoothing] field puts a new analyzer in the
    engine, and the calls of [start] already in flight go on initialising
    the old one.  So until [start] is called again, whatever else happens
    (frames, [stop()], further updates, the test sequence, and the
    continuations of the calls in flight, which may well set the engine
    running), [analyze()] returns nothing and a tick changes neither the
    smoothed vector nor the mapper. *)
Theorem updateConfig_outlasts_starts s p x actions f :
  p_smoothing p = Some x ->
  forallb (fun a => negb (isStartCall a)) actions = true ->
  let en := engine (world (perform (act s (ActUpdateConfig p)) actions)) in
  AudioAnalyzer.analyze (spectrum f) (audioAnalyzer en) = None /\
  smoothedWeights (animate f en) = smoothedWeights en /\
  morphMapper (animate f en) = morphMapper en.
Proof.
  intros Hp Hall en.
  assert (Hdeaf : deaf (perform (act s (ActUpdateConfig p)) actions)).
  { apply perform_deaf; [exact Hall |]. cbn [act]. rewrite Hp.
    split; cbn [world engine dispatch starts updateConfig audioAnalyzer];
      [rewrite Hp; reflexivity | apply existsb_redirect]. }
  destruct Hdeaf as [Hcan _]. fold en in Hcan.
  assert (Hnone : forall spectrum, AudioAnalyzer.analyze spectrum (audioAnalyzer en) = None)
    by (intros spectrum; apply EngineMore.canAnalyze_false, Hcan).
  split; [apply Hnone |].
  unfold animate. destruct (negb (isRunning en)); [split; reflexivity |].
  destruct (Rlt_dec _ _); [split; reflexivity |]. rewrite Hnone. split; reflexivity.
Qed.

(** The scenario with a call of [start] in flight: the configuration is
    updated with [smoothing: 0.5], then [resume()] is granted and [start]
    continues and resolves to [true].  The engine runs, and a tick finds
    no analysis. *)
Lemma updateConfig_outlasts_starts_witness :
  let en := engine (world (perform
              (act Scenario.waitingSystem (ActUpdateConfig (Scenario.onlySmoothing (1 / 2))))
              [ActResumeSettles 0 Scenario.grantingAnswers;
               ActStartContinues 0 (Scenario.frameAt 20)])) in
  isRunning en = true /\
  AudioAnalyzer.analyze (spectrum (Scenario.frameAt 40)) (audioAnalyzer en) = None.
Proof.
  intros en.
  destruct (updateConfig_outlasts_starts Scenario.waitingSystem
              (Scenario.onlySmoothing (1 / 2)) (1 / 2)
              [ActResumeSettles 0 Scenario.grantingAnswers;
               ActStartContinues 0 (Scenario.frameAt 20)]
              (Scenario.frameAt 40) eq_refl eq_refl) as (Hnone & _).
  split; [| exact Hnone].
  assert (Hen : exists before, isRunning before = true /\
                               en = animate (Scenario.frameAt 20) before).
  { eexists. split; [| reflexivity]. reflexivity. }
  destruct Hen as (before & Hrun & ->). rewrite EngineMore.animate_isRunning. exact Hrun.
Defined.

(** ** The smoothed vector stays between 0 and 1 *)

Lemma animate_inUnit f en :
  inRange (config en) -> Vowel.inUnit (smoothedWeights en) ->
  Vowel.inUnit (smoothedWeights (animate f en)).
Proof.
  intros [Hs Hsens] Hunit. unfold animate.
  destruct (negb (isRunning en)); [exact Hunit |].
  destruct (Rlt_dec _ _); [exact Hunit |].
  destruct (AudioAnalyzer.analyze (spectrum f) (audioAnalyzer en)) as [[a' r] |] eqn:E;
    [| exact Hunit].
  apply EngineMore.processLipSync_unit; try assumption.
  eapply EngineMore.analyze_wellFormed. exact E.
Qed.

Lemma zero_inUnit : Vowel.inUnit Vowel.zero.
Proof. unfold Vowel.inUnit. cbn. lra. Qed.

Lemma act_inUnit s a :
  keepsRange a ->
  inRange (config (engine (world s))) /\ Vowel.inUnit (smoothedWeights (engine (world s))) ->
  inRange (config (engine (world (act s a)))) /\
  Vowel.inUnit (smoothedWeights (engine (world (act s a)))).
Proof.
  intros Ha [Hc Hw].
  destruct a as [v | f | | p | vowel weight | | | host el | k host | k f]; cbn [act].
  - split; assumption.
  - cbn [world engine dispatch]. rewrite EngineMore.animate_config.
    split; [exact Hc | apply animate_inUnit; assumption].
  - split; [exact Hc | apply zero_inUnit].
  - assert (Hc' : inRange (assign (config (engine (world s))) p)).
    { destruct Ha as [Hsm Hse]. destruct Hc as [Hs0 He0]. unfold inRange, assign.
      cbn [smoothing sensitivity].
      destruct (p_smoothing p) as [x |] eqn:E1, (p_sensitivity p) as [y |] eqn:E2; cbn;
        split; try (apply Hsm; reflexivity); try (apply Hse; reflexivity); assumption. }
    destruct (p_smoothing p); split; cbn [world engine dispatch updateConfig config
                                         smoothedWeights]; assumption.
  - destruct (testVowel_keeps vowel weight (engine (world s))) as (K1 & _ & _ & K4).
    cbn [world engine dispatch]. rewrite K1, K4. split; assumption.
  - destruct (resume_keeps (mkWorld (engine (world s)) testSequenceSteps)) as (K1 & _ & _ & K4).
    cbn [world engine dispatch] in *. rewrite K1, K4. split; assumption.
  - destruct (resume_keeps (world s)) as (K1 & _ & _ & K4).
    cbn [world engine dispatch]. rewrite K1, K4. split; assumption.
  - destruct (startCall host el (engine (world s))) as [en2 [[| resolved] |]] eqn:E;
      [| | split; assumption];
      unfold startCall in E; destruct (negb (vrmSet (engine (world s)))); try discriminate;
      injection E as <- _; cbn [world engine withAnalyzer config smoothedWeights];
      destruct (isRunning (engine (world s)));
      (split; [exact Hc | first [apply zero_inUnit | exact Hw]]).
  - destruct (starts s !! k) as [[el [[i |] same | resolved]] |] eqn:Ek;
      try (split; assumption).
    + destruct (replaced s !! i); split; assumption.
  - destruct (starts s !! k) as [[el [[i |] same | resolved]] |] eqn:Ek;
      try (split; assumption).
    destruct resolved; cbn [world engine startResume fst]; [| split; assumption].
    rewrite EngineMore.animate_config. split; [exact Hc |].
    apply animate_inUnit; assumption.
Qed.

(** From a new engine whose configuration is in the documented ranges
    ([smoothing] between 0 and 1, [sensitivity] not negative), and as long
    as no [updateConfig] leaves them, every smoothed weight is between 0
    and 1 in every state the engine reaches, whatever the host reports
    and however calls of [start] interleave. *)
Theorem weights_stay_in_unit p actions :
  inRange (config (create p)) ->
  Forall keepsRange actions ->
  inRange (config (engine (world (perform (initial p) actions)))) /\
  Vowel.inUnit (smoothedWeights (engine (world (perform (initial p) actions)))).
Proof.
  intros Hp Hall.
  assert (Hgen : forall s,
            inRange (config (engine (world s))) /\
            Vowel.inUnit (smoothedWeights (engine (world s))) ->
            inRange (config (engine (world (perform s actions)))) /\
            Vowel.inUnit (smoothedWeights (engine (world (perform s actions))))).
  { induction Hall as [| a rest Ha _ IH]; intros s Hs; [exact Hs |].
    apply (IH (act s a)), act_inUnit; assumption. }
  apply Hgen. split; [exact Hp | apply zero_inUnit].
Qed.

(** The scenario after its loud tick. *)
Lemma weights_stay_in_unit_witness :
  Vowel.inUnit (smoothedWeights (engine (world Scenario.spokenSystem))).
Proof.
  apply (weights_stay_in_unit Scenario.defaults
           [ActSetVRM (Scenario.avatarA 0); ActStartCall Scenario.grantingAnswers 0;
            ActStartContinues 0 (mkFrame 1 100 Scenario.loudSpectrum)]).
  - unfold inRange. cbn. lra.
  - repeat constructor.
Defined.

End LifecycleFacts.
